(** * rr: the command-line driver (src/main.cc)

    A shallow embedding of the driver of the rr record-and-replay tool:
    the event dumper ([dump_events_matching], [start_dumping]), the option
    parsers ([parse_common_args], [parse_record_args], [parse_replay_args],
    [parse_dump_args], [parse_args]), the start-up checks
    ([assert_prerequisites]) and [main].

    The C library routines the driver calls ([atoi], [sscanf], [getopt_long])
    are modelled after their manual pages, [getopt_long] after glibc's
    source as well, for the i386 ABI rr is built for
    (the register columns of the dump header are eax ... eflags): [int],
    [long] and their unsigned variants are all 32 bits wide.

    The driver is the only source file at hand.  What it takes from the
    other files of rr is either a parameter of the model (the constants of
    the headers, the session code behind [record], [replay] and
    [TraceIfstream::open]) or modelled from the specification, and marked
    so. *)

From Stdlib Require Import ZArith List Bool Ascii String Lia Sorted.
From Stdlib Require Import DecimalString DecimalN DecimalPos.
Import ListNotations.

Local Open Scope string_scope.
Local Open Scope list_scope.
Local Open Scope Z_scope.

(* ================================================================== *)
(** * Part I: the model *)
(* ================================================================== *)

(** ** Machine integers *)

Module CInt.

Definition INT_MAX : Z := 2147483647.
Definition INT_MIN : Z := -2147483648.
Definition LONG_MAX : Z := INT_MAX.
Definition LONG_MIN : Z := INT_MIN.
Definition UINT_MAX : Z := 4294967295.
Definition ULONG_MAX : Z := UINT_MAX.

(** Conversion to a 32-bit unsigned type: reduction modulo 2^32. *)
Definition to_uint32 (z : Z) : Z := z mod 2 ^ 32.

(** Conversion to a 32-bit signed type (two's complement). *)
Definition to_int32 (z : Z) : Z := (z + 2 ^ 31) mod 2 ^ 32 - 2 ^ 31.

Definition is_uint32 (z : Z) : Prop := 0 <= z <= UINT_MAX.

(** Modelled from the spec: the macros [MAX] and [MIN] (their header is
    missing) are the maximum and the minimum the spec speaks of, written
    as the conditional expressions of <sys/param.h>. *)
Definition MAX (a b : Z) : Z := if a >? b then a else b.
Definition MIN (a b : Z) : Z := if a <? b then a else b.

End CInt.
Import CInt.

(** ** C library: character classes and number scanning *)

Module CLib.

(** [isspace] in the C locale: space, and \t \n \v \f \r (codes 9 to 13). *)
Definition isspace (c : ascii) : bool :=
  let n := Z.of_N (N_of_ascii c) in
  (n =? 32) || ((9 <=? n) && (n <=? 13)).

Definition isdigit (c : ascii) : bool :=
  let n := Z.of_N (N_of_ascii c) in
  (48 <=? n) && (n <=? 57).

Definition digit_val (c : ascii) : Z := Z.of_N (N_of_ascii c) - 48.

Fixpoint skip_space (s : string) : string :=
  match s with
  | String c r => if isspace c then skip_space r else s
  | EmptyString => s
  end.

(** Consume the longest run of decimal digits, accumulating its value onto
    [acc]; returns the value and the unread rest. *)
Fixpoint scan_digits (acc : Z) (s : string) : Z * string :=
  match s with
  | String c r =>
      if isdigit c then scan_digits (acc * 10 + digit_val c) r else (acc, s)
  | EmptyString => (acc, s)
  end.

(** A non-empty run of decimal digits, or [None] when [s] does not start
    with a digit. *)
Definition scan_number (s : string) : option (Z * string) :=
  match s with
  | String c r =>
      if isdigit c then Some (scan_digits (digit_val c) r) else None
  | EmptyString => None
  end.

(** An optional sign: [true] for a leading minus. *)
Definition scan_sign (s : string) : bool * string :=
  match s with
  | String "-" r => (true, r)
  | String "+" r => (false, r)
  | _ => (false, s)
  end.

(** [strtol(s, NULL, 10)]: leading white space, an optional sign, decimal
    digits; 0 when there is no digit; the result saturates at [LONG_MIN]
    and [LONG_MAX]. *)
Definition strtol (s : string) : Z :=
  let '(neg, s1) := scan_sign (skip_space s) in
  match scan_number s1 with
  | None => 0
  | Some (v, _) => if neg then Z.max LONG_MIN (- v) else Z.min LONG_MAX v
  end.

(** [atoi(s)] is [(int) strtol(s, NULL, 10)]. *)
Definition atoi (s : string) : Z := to_int32 (strtol s).

(** [strtoul] on an already delimited number: saturates at [ULONG_MAX],
    otherwise negates modulo 2^32 under a minus sign. *)
Definition strtoul_value (neg : bool) (v : Z) : Z :=
  if v >? ULONG_MAX then ULONG_MAX
  else if neg then to_uint32 (- v) else v.

(** One [%u] conversion of [scanf]. *)
Inductive conversion : Type :=
| InputFailure                         (* end of input before any character *)
| MatchingFailure                      (* no number here *)
| Converted (v : Z) (rest : string).

Definition scan_u (s : string) : conversion :=
  match skip_space s with
  | EmptyString => InputFailure
  | s1 =>
      let '(neg, s2) := scan_sign s1 in
      match scan_number s2 with
      | None => MatchingFailure
      | Some (v, rest) => Converted (to_uint32 (strtoul_value neg v)) rest
      end
  end.

Definition EOF : Z := -1.

(** [sscanf(spec, "%u-%u", &start, &end)]: the return value and the
    contents of the two out-parameters afterwards. *)
Definition sscanf_u_dash_u (spec : string) (start end_ : Z) : Z * Z * Z :=
  match scan_u spec with
  | InputFailure => (EOF, start, end_)
  | MatchingFailure => (0, start, end_)
  | Converted a rest =>
      match rest with
      | String "-" rest' =>
          match scan_u rest' with
          | Converted b _ => (2, a, b)
          | _ => (1, a, end_)
          end
      | _ => (1, a, end_)
      end
  end.

(** The decimal numeral of a natural number, as [printf("%u")] writes it. *)
Definition decimal (n : Z) : string :=
  NilZero.string_of_uint (N.to_uint (Z.to_N n)).

End CLib.
Import CLib.

(** ** getopt_long *)

Module Getopt.

(** [struct option]; every table of the driver has a null [flag], so that
    [getopt_long] returns [val] for a long option. *)
Record long_option : Type := mk_long_option {
  name : string;
  has_arg : bool;                (* required_argument / no_argument *)
  val : ascii
}.

(** The variables of getopt(3): the globals [optind] and [optarg], the
    static [nextchar], the unread rest of a cluster of short options
    (empty when the scan is between elements of [argv]), and the statics
    [first_nonopt] and [last_nonopt], the bounds of the non-options that
    getopt has skipped; getopt keeps them from one call to the next. *)
Record state : Type := mk_state {
  optind : nat;
  nextchar : string;
  optarg : option string;
  first_nonopt : nat;
  last_nonopt : nat
}.

(** At process start [optind] is 1, and getopt, which initialises itself
    on its first call, sets [first_nonopt] and [last_nonopt] to [optind]. *)
Definition initial : state := mk_state 1 "" None 1 1.

(** The variables after a step that reads options: [first_nonopt] and
    [last_nonopt] stay. *)
Definition moved (st : state) (optind' : nat) (nextchar' : string)
    (optarg' : option string) : state :=
  mk_state optind' nextchar' optarg' (first_nonopt st) (last_nonopt st).

(** The return value: -1, or an option character (['?'] reports an
    unknown option or a missing argument). *)
Inductive ret : Type :=
| Done
| Opt (c : ascii).

(** The option characters of [optstring], after its leading ['+'] or
    ['-']. *)
Definition option_chars (optstring : string) : string :=
  match optstring with
  | String "+" r => r
  | String "-" r => r
  | _ => optstring
  end.

(** [strchr(optstring, c)], then the test for a following colon: [None]
    when [c] is not an option character, otherwise whether it takes an
    argument.  (No [optstring] of the driver has an optional argument.) *)
Fixpoint lookup_short (chars : string) (c : ascii) : option bool :=
  match chars with
  | EmptyString => None
  | String x r =>
      if Ascii.eqb x c then
        match r with
        | String ":" _ => Some true
        | _ => Some false
        end
      else lookup_short r c
  end.

Definition short_spec (optstring : string) (c : ascii) : option bool :=
  if Ascii.eqb c ":" || Ascii.eqb c ";" then None
  else lookup_short (option_chars optstring) c.

(** Split [name=value] at the first ['=']. *)
Fixpoint split_eq (s : string) : string * option string :=
  match s with
  | EmptyString => (EmptyString, None)
  | String "=" r => (EmptyString, Some r)
  | String c r => let '(k, v) := split_eq r in (String c k, v)
  end.

(** A long option name may be abbreviated if the abbreviation is unique or
    is an exact match for some defined option. *)
Definition find_long (longopts : list long_option) (key : string)
  : option long_option :=
  match find (fun o => String.eqb (name o) key) longopts with
  | Some o => Some o
  | None =>
      match filter (fun o => String.prefix key (name o)) longopts with
      | [o] => Some o
      | _ => None
      end
  end.

(** An element [--name] or [--name=value], at [argv[optind]]. *)
Definition long_opt (argv : list string) (longopts : list long_option)
    (text : string) (st : state) : ret * state :=
  let '(key, value) := split_eq text in
  let next := S (optind st) in
  match find_long longopts key with
  | None => (Opt "?", moved st next "" None)
  | Some o =>
      match value, has_arg o with
      | Some v, true => (Opt (val o), moved st next "" (Some v))
      | Some _, false => (Opt "?", moved st next "" None)
      | None, false => (Opt (val o), moved st next "" None)
      | None, true =>
          match nth_error argv next with
          | Some a => (Opt (val o), moved st (S next) "" (Some a))
          | None => (Opt "?", moved st next "" None)
          end
      end
  end.

(** The short option [c], followed by [rest] in its element of [argv]. *)
Definition short_opt (argv : list string) (optstring : string)
    (c : ascii) (rest : string) (st : state) : ret * state :=
  let here := optind st in
  (* [optind] moves on when the last character of an element is read *)
  let after := match rest with EmptyString => S here | _ => here end in
  match short_spec optstring c with
  | None => (Opt "?", moved st after rest None)
  | Some false => (Opt c, moved st after rest None)
  | Some true =>
      match rest with
      | String _ _ => (Opt c, moved st (S here) "" (Some rest))
      | EmptyString =>
          match nth_error argv after with
          | Some a => (Opt c, moved st (S after) "" (Some a))
          | None => (Opt "?", moved st after "" None)
          end
      end
  end.

(** An element of [argv] that is not an option: it does not start with
    ['-'], or it is ['-'] alone. *)
Definition nonoption (a : string) : bool :=
  match a with
  | String c (String _ _) => negb (Ascii.eqb c "-")
  | _ => true
  end.

(** [exchange]: the adjacent runs [[first, middle)] and [[middle, last)]
    of [argv] change places, each keeping its order.  (glibc does it in
    place, by swapping the shorter run with the far end of the longer one
    until both are home.) *)
Definition exchange (argv : list string) (first middle last : nat)
  : list string :=
  firstn first argv
  ++ firstn (last - middle) (skipn middle argv)
  ++ firstn (middle - first) (skipn first argv)
  ++ skipn last argv.

(** [first_nonopt] and [last_nonopt] are brought back to [optind] when
    the caller has moved [optind] back below them. *)
Definition rational (st : state) : state :=
  mk_state (optind st) (nextchar st) (optarg st)
    (Nat.min (first_nonopt st) (optind st))
    (Nat.min (last_nonopt st) (optind st)).

(** All the elements of [argv] are done: the scan stops, and [optind]
    goes back to the non-options that were skipped, if there are any. *)
Definition end_of_scan (st : state) : ret * state :=
  (Done,
   mk_state
     (if first_nonopt st =? last_nonopt st then optind st
      else first_nonopt st)%nat
     "" None (first_nonopt st) (last_nonopt st)).

(** The element ["--"] at [optind]: it is skipped like an option and
    exchanged with the non-options skipped before it, everything after it
    counts as skipped non-options, and the scan is over.  Also the array
    afterwards. *)
Definition end_of_options (argv : list string) (st : state)
  : ret * state * list string :=
  let argc := List.length argv in
  let next := S (optind st) in
  let first := first_nonopt st in
  let last := last_nonopt st in
  let '(argv', first') :=
    if negb (first =? last)%nat && negb (last =? next)%nat then
      (exchange argv first last next, (first + (next - last))%nat)
    else if (first =? last)%nat then (argv, next)
    else (argv, first) in
  (end_of_scan (mk_state argc "" None first' argc), argv').

(** One call of [getopt_long(argc, argv, optstring, longopts, &i)], after
    getopt(3) and glibc's [_getopt_internal_r], in the mode that stops at
    the first non-option.  That mode is chosen when getopt initialises
    itself, on the first call of the process, whose [optstring] starts
    with ['+']; the driver never resets [optind] to 0, so the later scans
    keep it, and they keep [first_nonopt] and [last_nonopt] as well.
    Returns the array as the call leaves it, too: only ["--"] makes getopt
    permute it in this mode.  (The diagnostic getopt writes to [stderr]
    when it returns ['?'] is not part of the model.) *)
Definition getopt_long (argv : list string) (optstring : string)
    (longopts : list long_option) (st : state) : ret * state * list string :=
  match nextchar st with
  | String c rest => (short_opt argv optstring c rest st, argv)
  | EmptyString =>
      let st := rational st in
      match nth_error argv (optind st) with
      | None => (end_of_scan (moved st (optind st) "" None), argv)
      | Some arg =>
          if String.eqb arg "--" then end_of_options argv st
          else if nonoption arg then
            (Done, moved st (optind st) "" None, argv)
          else
            match arg with
            | String _ (String c rest) =>
                if Ascii.eqb c "-" then (long_opt argv longopts rest st, argv)
                else (short_opt argv optstring c rest st, argv)
            | _ => (Done, moved st (optind st) "" None, argv)
            end
      end
  end.

End Getopt.

(** ** Trace frames and the trace reader *)

(** The register file of a frame, in the column order of the dump header. *)
Record registers : Type := mk_registers {
  eax : Z; ebx : Z; ecx : Z; edx : Z; esi : Z; edi : Z; ebp : Z;
  orig_eax : Z; esp : Z; eip : Z; eflags : Z
}.

(** Modelled from the spec: [struct trace_frame] (trace.h is missing) has
    the attributes the spec lists for a frame, which are the columns the
    dump header names.  [global_time] is a [uint32_t], as are the bounds
    it is compared with. *)
Record trace_frame : Type := mk_trace_frame {
  global_time : Z;
  thread_time : Z;
  tid : Z;
  reason : Z;
  entry_exit : Z;
  hw_interrupts : Z;
  page_faults : Z;
  adapted_rbc : Z;
  instructions : Z;
  recorded_regs : registers
}.

(** Modelled from the spec: [TraceIfstream], the forward-only sequential
    reader of a trace (trace.h and trace.cc are missing).  The stream is
    the list of frames not read yet: [good] holds while a frame is left,
    and [operator>>] removes the first one. *)
Definition TraceIfstream : Type := list trace_frame.

Definition good (trace : TraceIfstream) : bool :=
  match trace with [] => false | _ :: _ => true end.

Definition read_frame (trace : TraceIfstream)
  : option (trace_frame * TraceIfstream) :=
  match trace with [] => None | f :: rest => Some (f, rest) end.

(** What has been written to [stdout]: text, or one frame rendered by
    [trace_frame::dump(out, raw)]. *)
Inductive out_item : Type :=
| Text (s : string)
| FrameLine (frame : trace_frame) (raw : bool).

Definition FILE : Type := list out_item.

(** ** dump_events_matching *)

(** The bounds [start] and [end] the function computes from [spec]. *)
Definition spec_bounds (spec : option string) : Z * Z :=
  let start := 0 in
  let end_ := UINT_MAX in
  match spec with
  | None => (start, end_)
  | Some s =>
      let '(n, start', end') := sscanf_u_dash_u s start end_ in
      if 2 >? n then (to_uint32 (atoi s), to_uint32 (atoi s))
      else (start', end')
  end.

(** The [while (trace.good())] loop.  Each iteration reads one frame, so
    the loop is a recursion on the unread frames.  Returns the stream and
    the output afterwards. *)
Fixpoint dump_loop (start end_ : Z) (raw_dump : bool)
    (trace : TraceIfstream) (out : FILE) : TraceIfstream * FILE :=
  match trace with
  | [] => (trace, out)
  | frame :: trace' =>
      if end_ <? global_time frame then (trace', out)
      else if (start <=? global_time frame) && (global_time frame <=? end_)
      then dump_loop start end_ raw_dump trace'
             (out ++ [FrameLine frame raw_dump])
      else dump_loop start end_ raw_dump trace' out
  end.

Definition dump_events_matching (raw_dump : bool) (trace : TraceIfstream)
    (out : FILE) (spec : option string) : TraceIfstream * FILE :=
  let '(start, end_) := spec_bounds spec in
  dump_loop start end_ raw_dump trace out.

(** ** start_dumping *)

Definition dump_header : string :=
  ("global_time thread_time tid reason entry/exit " ++
   "hw_interrupts page_faults adapted_rbc instructions " ++
   "eax ebx ecx edx esi edi ebp orig_eax esp eip eflags" ++
   String (ascii_of_nat 10) "")%string.

(** The [for (i = 1; i < argc; ++i)] loop over the event specs. *)
Fixpoint dump_specs (raw_dump : bool) (specs : list string)
    (trace : TraceIfstream) (out : FILE) : TraceIfstream * FILE :=
  match specs with
  | [] => (trace, out)
  | spec :: specs' =>
      let '(trace', out') :=
        dump_events_matching raw_dump trace out (Some spec) in
      dump_specs raw_dump specs' trace' out'
  end.

(** [start_dumping(argc, argv, envp)], with [argc = length argv].  [trace]
    is the stream [TraceIfstream::open(argc, argv)] returns and [raw_dump]
    is [rr_flags()->raw_dump].  Returns what is written to [stdout]. *)
Definition start_dumping (raw_dump : bool) (trace : TraceIfstream)
    (argv : list string) : FILE :=
  let out := [Text dump_header] in
  if Z.of_nat (List.length argv) =? 1 then
    snd (dump_events_matching raw_dump trace out None)
  else
    snd (dump_specs raw_dump (tl argv) trace out).

(** The frames of an output, in the order written. *)
Fixpoint frames_of (out : FILE) : list trace_frame :=
  match out with
  | [] => []
  | Text _ :: out' => frames_of out'
  | FrameLine f _ :: out' => f :: frames_of out'
  end.

(** A frame whose only interesting field is its [global_time]. *)
Definition frame_at (t : Z) : trace_frame :=
  mk_trace_frame t 0 0 0 0 0 0 0 0 (mk_registers 0 0 0 0 0 0 0 0 0 0 0).

(** ** The flags of the process *)

(** The command [flags->option] selects; [INVALID] is the zero value. *)
Inductive rr_option : Type := INVALID | RECORD | REPLAY | DUMP_EVENTS.

Inductive created_how : Type := CREATED_NONE | CREATED_EXEC | CREATED_FORK.

(** [goto_event]: the value assigned from [atoi], or the largest value of
    the member's type (the declaration is in a missing header). *)
Inductive goto_target : Type :=
| GotoEvent (n : Z)
| GotoMax.

(** Constants of the missing headers (config.h, util.h, recorder_sched.h,
    preload/syscall_buffer.h) that main.cc refers to. *)
Record constants : Type := mk_constants {
  DEFAULT_MAX_RBC : Z;
  DEFAULT_MAX_EVENTS : Z;
  CHECKSUM_NONE : Z;
  CHECKSUM_SYSCALL : Z;
  CHECKSUM_ALL : Z;
  DUMP_AT_NONE : Z;
  DUMP_ON_NONE : Z;
  SYSCALLBUF_LIB_FILENAME : string;
  SYSCALLBUF_ENABLED_ENV_VAR : string
}.

(** [struct flags], with the members main.cc uses; the numeric ones are
    [int]s. *)
Record flags : Type := mk_flags {
  max_rbc : Z;
  max_events : Z;
  ignore_sig : Z;
  redirect : bool;
  use_syscall_buffer : bool;
  syscall_buffer_lib_path : string;
  dump_on : Z;
  dump_at : Z;
  checksum : Z;
  option_ : rr_option;
  goto_event : goto_target;
  target_process : Z;
  process_created_how : created_how;
  dont_launch_debugger : bool;
  dbgport : Z;
  gdb_command_file_path : option string;
  raw_dump : bool;
  force_enable_debugger : bool;
  check_cached_mmaps : bool;
  mark_stdio : bool;
  suppress_performance_warnings : bool;
  cpu_unbound : bool;
  verbose : bool;
  wait_secs : Z
}.

(** Modelled from the spec: [rr_flags_for_init()] (util.cc is missing)
    hands out the flags of the process, an object with static storage
    whose members are all zero before the parse: the CPU is bound and the
    dump is human-readable unless an option says otherwise. *)
Definition flags_zero : flags :=
  mk_flags 0 0 0 false false "" 0 0 0 INVALID (GotoEvent 0) 0
    CREATED_NONE false 0 None false false false false false false false 0.

(** Assignments to the members of [*flags]. *)

Definition set_max_rbc (v : Z) (f : flags) : flags :=
  mk_flags v (max_events f) (ignore_sig f) (redirect f)
    (use_syscall_buffer f) (syscall_buffer_lib_path f) (dump_on f)
    (dump_at f) (checksum f) (option_ f) (goto_event f) (target_process f)
    (process_created_how f) (dont_launch_debugger f) (dbgport f)
    (gdb_command_file_path f) (raw_dump f) (force_enable_debugger f)
    (check_cached_mmaps f) (mark_stdio f)
    (suppress_performance_warnings f) (cpu_unbound f) (verbose f)
    (wait_secs f).

Definition set_max_events (v : Z) (f : flags) : flags :=
  mk_flags (max_rbc f) v (ignore_sig f) (redirect f)
    (use_syscall_buffer f) (syscall_buffer_lib_path f) (dump_on f)
    (dump_at f) (checksum f) (option_ f) (goto_event f) (target_process f)
    (process_created_how f) (dont_launch_debugger f) (dbgport f)
    (gdb_command_file_path f) (raw_dump f) (force_enable_debugger f)
    (check_cached_mmaps f) (mark_stdio f)
    (suppress_performance_warnings f) (cpu_unbound f) (verbose f)
    (wait_secs f).

Definition set_ignore_sig (v : Z) (f : flags) : flags :=
  mk_flags (max_rbc f) (max_events f) v (redirect f)
    (use_syscall_buffer f) (syscall_buffer_lib_path f) (dump_on f)
    (dump_at f) (checksum f) (option_ f) (goto_event f) (target_process f)
    (process_created_how f) (dont_launch_debugger f) (dbgport f)
    (gdb_command_file_path f) (raw_dump f) (force_enable_debugger f)
    (check_cached_mmaps f) (mark_stdio f)
    (suppress_performance_warnings f) (cpu_unbound f) (verbose f)
    (wait_secs f).

Definition set_redirect (v : bool) (f : flags) : flags :=
  mk_flags (max_rbc f) (max_events f) (ignore_sig f) v
    (use_syscall_buffer f) (syscall_buffer_lib_path f) (dump_on f)
    (dump_at f) (checksum f) (option_ f) (goto_event f) (target_process f)
    (process_created_how f) (dont_launch_debugger f) (dbgport f)
    (gdb_command_file_path f) (raw_dump f) (force_enable_debugger f)
    (check_cached_mmaps f) (mark_stdio f)
    (suppress_performance_warnings f) (cpu_unbound f) (verbose f)
    (wait_secs f).

Definition set_use_syscall_buffer (v : bool) (f : flags) : flags :=
  mk_flags (max_rbc f) (max_events f) (ignore_sig f) (redirect f) v
    (syscall_buffer_lib_path f) (dump_on f) (dump_at f) (checksum f)
    (option_ f) (goto_event f) (target_process f) (process_created_how f)
    (dont_launch_debugger f) (dbgport f) (gdb_command_file_path f)
    (raw_dump f) (force_enable_debugger f) (check_cached_mmaps f)
    (mark_stdio f) (suppress_performance_warnings f) (cpu_unbound f)
    (verbose f) (wait_secs f).

Definition set_syscall_buffer_lib_path (v : string) (f : flags) : flags :=
  mk_flags (max_rbc f) (max_events f) (ignore_sig f) (redirect f)
    (use_syscall_buffer f) v (dump_on f) (dump_at f) (checksum f)
    (option_ f) (goto_event f) (target_process f) (process_created_how f)
    (dont_launch_debugger f) (dbgport f) (gdb_command_file_path f)
    (raw_dump f) (force_enable_debugger f) (check_cached_mmaps f)
    (mark_stdio f) (suppress_performance_warnings f) (cpu_unbound f)
    (verbose f) (wait_secs f).

Definition set_dump_on (v : Z) (f : flags) : flags :=
  mk_flags (max_rbc f) (max_events f) (ignore_sig f) (redirect f)
    (use_syscall_buffer f) (syscall_buffer_lib_path f) v (dump_at f)
    (checksum f) (option_ f) (goto_event f) (target_process f)
    (process_created_how f) (dont_launch_debugger f) (dbgport f)
    (gdb_command_file_path f) (raw_dump f) (force_enable_debugger f)
    (check_cached_mmaps f) (mark_stdio f)
    (suppress_performance_warnings f) (cpu_unbound f) (verbose f)
    (wait_secs f).

Definition set_dump_at (v : Z) (f : flags) : flags :=
  mk_flags (max_rbc f) (max_events f) (ignore_sig f) (redirect f)
    (use_syscall_buffer f) (syscall_buffer_lib_path f) (dump_on f) v
    (checksum f) (option_ f) (goto_event f) (target_process f)
    (process_created_how f) (dont_launch_debugger f) (dbgport f)
    (gdb_command_file_path f) (raw_dump f) (force_enable_debugger f)
    (check_cached_mmaps f) (mark_stdio f)
    (suppress_performance_warnings f) (cpu_unbound f) (verbose f)
    (wait_secs f).

Definition set_checksum (v : Z) (f : flags) : flags :=
  mk_flags (max_rbc f) (max_events f) (ignore_sig f) (redirect f)
    (use_syscall_buffer f) (syscall_buffer_lib_path f) (dump_on f)
    (dump_at f) v (option_ f) (goto_event f) (target_process f)
    (process_created_how f) (dont_launch_debugger f) (dbgport f)
    (gdb_command_file_path f) (raw_dump f) (force_enable_debugger f)
    (check_cached_mmaps f) (mark_stdio f)
    (suppress_performance_warnings f) (cpu_unbound f) (verbose f)
    (wait_secs f).

Definition set_option_ (v : rr_option) (f : flags) : flags :=
  mk_flags (max_rbc f) (max_events f) (ignore_sig f) (redirect f)
    (use_syscall_buffer f) (syscall_buffer_lib_path f) (dump_on f)
    (dump_at f) (checksum f) v (goto_event f) (target_process f)
    (process_created_how f) (dont_launch_debugger f) (dbgport f)
    (gdb_command_file_path f) (raw_dump f) (force_enable_debugger f)
    (check_cached_mmaps f) (mark_stdio f)
    (suppress_performance_warnings f) (cpu_unbound f) (verbose f)
    (wait_secs f).

Definition set_goto_event (v : goto_target) (f : flags) : flags :=
  mk_flags (max_rbc f) (max_events f) (ignore_sig f) (redirect f)
    (use_syscall_buffer f) (syscall_buffer_lib_path f) (dump_on f)
    (dump_at f) (checksum f) (option_ f) v (target_process f)
    (process_created_how f) (dont_launch_debugger f) (dbgport f)
    (gdb_command_file_path f) (raw_dump f) (force_enable_debugger f)
    (check_cached_mmaps f) (mark_stdio f)
    (suppress_performance_warnings f) (cpu_unbound f) (verbose f)
    (wait_secs f).

Definition set_target_process (v : Z) (f : flags) : flags :=
  mk_flags (max_rbc f) (max_events f) (ignore_sig f) (redirect f)
    (use_syscall_buffer f) (syscall_buffer_lib_path f) (dump_on f)
    (dump_at f) (checksum f) (option_ f) (goto_event f) v
    (process_created_how f) (dont_launch_debugger f) (dbgport f)
    (gdb_command_file_path f) (raw_dump f) (force_enable_debugger f)
    (check_cached_mmaps f) (mark_stdio f)
    (suppress_performance_warnings f) (cpu_unbound f) (verbose f)
    (wait_secs f).

Definition set_process_created_how (v : created_how) (f : flags) : flags :=
  mk_flags (max_rbc f) (max_events f) (ignore_sig f) (redirect f)
    (use_syscall_buffer f) (syscall_buffer_lib_path f) (dump_on f)
    (dump_at f) (checksum f) (option_ f) (goto_event f) (target_process f)
    v (dont_launch_debugger f) (dbgport f) (gdb_command_file_path f)
    (raw_dump f) (force_enable_debugger f) (check_cached_mmaps f)
    (mark_stdio f) (suppress_performance_warnings f) (cpu_unbound f)
    (verbose f) (wait_secs f).

Definition set_dont_launch_debugger (v : bool) (f : flags) : flags :=
  mk_flags (max_rbc f) (max_events f) (ignore_sig f) (redirect f)
    (use_syscall_buffer f) (syscall_buffer_lib_path f) (dump_on f)
    (dump_at f) (checksum f) (option_ f) (goto_event f) (target_process f)
    (process_created_how f) v (dbgport f) (gdb_command_file_path f)
    (raw_dump f) (force_enable_debugger f) (check_cached_mmaps f)
    (mark_stdio f) (suppress_performance_warnings f) (cpu_unbound f)
    (verbose f) (wait_secs f).

Definition set_dbgport (v : Z) (f : flags) : flags :=
  mk_flags (max_rbc f) (max_events f) (ignore_sig f) (redirect f)
    (use_syscall_buffer f) (syscall_buffer_lib_path f) (dump_on f)
    (dump_at f) (checksum f) (option_ f) (goto_event f) (target_process f)
    (process_created_how f) (dont_launch_debugger f) v
    (gdb_command_file_path f) (raw_dump f) (force_enable_debugger f)
    (check_cached_mmaps f) (mark_stdio f)
    (suppress_performance_warnings f) (cpu_unbound f) (verbose f)
    (wait_secs f).

Definition set_gdb_command_file_path (v : option string) (f : flags) : flags :=
  mk_flags (max_rbc f) (max_events f) (ignore_sig f) (redirect f)
    (use_syscall_buffer f) (syscall_buffer_lib_path f) (dump_on f)
    (dump_at f) (checksum f) (option_ f) (goto_event f) (target_process f)
    (process_created_how f) (dont_launch_debugger f) (dbgport f) v
    (raw_dump f) (force_enable_debugger f) (check_cached_mmaps f)
    (mark_stdio f) (suppress_performance_warnings f) (cpu_unbound f)
    (verbose f) (wait_secs f).

Definition set_raw_dump (v : bool) (f : flags) : flags :=
  mk_flags (max_rbc f) (max_events f) (ignore_sig f) (redirect f)
    (use_syscall_buffer f) (syscall_buffer_lib_path f) (dump_on f)
    (dump_at f) (checksum f) (option_ f) (goto_event f) (target_process f)
    (process_created_how f) (dont_launch_debugger f) (dbgport f)
    (gdb_command_file_path f) v (force_enable_debugger f)
    (check_cached_mmaps f) (mark_stdio f)
    (suppress_performance_warnings f) (cpu_unbound f) (verbose f)
    (wait_secs f).

Definition set_force_enable_debugger (v : bool) (f : flags) : flags :=
  mk_flags (max_rbc f) (max_events f) (ignore_sig f) (redirect f)
    (use_syscall_buffer f) (syscall_buffer_lib_path f) (dump_on f)
    (dump_at f) (checksum f) (option_ f) (goto_event f) (target_process f)
    (process_created_how f) (dont_launch_debugger f) (dbgport f)
    (gdb_command_file_path f) (raw_dump f) v (check_cached_mmaps f)
    (mark_stdio f) (suppress_performance_warnings f) (cpu_unbound f)
    (verbose f) (wait_secs f).

Definition set_check_cached_mmaps (v : bool) (f : flags) : flags :=
  mk_flags (max_rbc f) (max_events f) (ignore_sig f) (redirect f)
    (use_syscall_buffer f) (syscall_buffer_lib_path f) (dump_on f)
    (dump_at f) (checksum f) (option_ f) (goto_event f) (target_process f)
    (process_created_how f) (dont_launch_debugger f) (dbgport f)
    (gdb_command_file_path f) (raw_dump f) (force_enable_debugger f) v
    (mark_stdio f) (suppress_performance_warnings f) (cpu_unbound f)
    (verbose f) (wait_secs f).

Definition set_mark_stdio (v : bool) (f : flags) : flags :=
  mk_flags (max_rbc f) (max_events f) (ignore_sig f) (redirect f)
    (use_syscall_buffer f) (syscall_buffer_lib_path f) (dump_on f)
    (dump_at f) (checksum f) (option_ f) (goto_event f) (target_process f)
    (process_created_how f) (dont_launch_debugger f) (dbgport f)
    (gdb_command_file_path f) (raw_dump f) (force_enable_debugger f)
    (check_cached_mmaps f) v (suppress_performance_warnings f)
    (cpu_unbound f) (verbose f) (wait_secs f).

Definition set_suppress_performance_warnings (v : bool) (f : flags) : flags :=
  mk_flags (max_rbc f) (max_events f) (ignore_sig f) (redirect f)
    (use_syscall_buffer f) (syscall_buffer_lib_path f) (dump_on f)
    (dump_at f) (checksum f) (option_ f) (goto_event f) (target_process f)
    (process_created_how f) (dont_launch_debugger f) (dbgport f)
    (gdb_command_file_path f) (raw_dump f) (force_enable_debugger f)
    (check_cached_mmaps f) (mark_stdio f) v (cpu_unbound f) (verbose f)
    (wait_secs f).

Definition set_cpu_unbound (v : bool) (f : flags) : flags :=
  mk_flags (max_rbc f) (max_events f) (ignore_sig f) (redirect f)
    (use_syscall_buffer f) (syscall_buffer_lib_path f) (dump_on f)
    (dump_at f) (checksum f) (option_ f) (goto_event f) (target_process f)
    (process_created_how f) (dont_launch_debugger f) (dbgport f)
    (gdb_command_file_path f) (raw_dump f) (force_enable_debugger f)
    (check_cached_mmaps f) (mark_stdio f)
    (suppress_performance_warnings f) v (verbose f) (wait_secs f).

Definition set_verbose (v : bool) (f : flags) : flags :=
  mk_flags (max_rbc f) (max_events f) (ignore_sig f) (redirect f)
    (use_syscall_buffer f) (syscall_buffer_lib_path f) (dump_on f)
    (dump_at f) (checksum f) (option_ f) (goto_event f) (target_process f)
    (process_created_how f) (dont_launch_debugger f) (dbgport f)
    (gdb_command_file_path f) (raw_dump f) (force_enable_debugger f)
    (check_cached_mmaps f) (mark_stdio f)
    (suppress_performance_warnings f) (cpu_unbound f) v (wait_secs f).

Definition set_wait_secs (v : Z) (f : flags) : flags :=
  mk_flags (max_rbc f) (max_events f) (ignore_sig f) (redirect f)
    (use_syscall_buffer f) (syscall_buffer_lib_path f) (dump_on f)
    (dump_at f) (checksum f) (option_ f) (goto_event f) (target_process f)
    (process_created_how f) (dont_launch_debugger f) (dbgport f)
    (gdb_command_file_path f) (raw_dump f) (force_enable_debugger f)
    (check_cached_mmaps f) (mark_stdio f)
    (suppress_performance_warnings f) (cpu_unbound f) (verbose f) v.


(** ** The option parsers *)

(** The number of signals of <signal.h> on Linux, plus one. *)
Definition _NSIG : Z := 65.

(** The string behind [optarg].  [getopt_long] never leaves [optarg] null
    when it returns an option that requires an argument. *)
Definition cstr (p : option string) : string :=
  match p with
  | Some s => s
  | None => ""
  end.

(** What one [case] of a parser's [switch] does to [*flags]; [None] is
    the [default] case, [return -1]. *)
Definition switch_case : Type := option (flags -> flags).

(** What a parser leaves behind: the value it returns, the getopt
    variables, the flags, and the array [argv], which [getopt_long] may
    have permuted. *)
Record parse : Type := mk_parse {
  p_result : Z;
  p_getopt : Getopt.state;
  p_flags : flags;
  p_argv : list string
}.

(** The [while (1) { switch (getopt_long(...)) ... }] loop shared by the
    four parsers: on -1 it returns [optind], on a known option it runs the
    case and goes on, otherwise it returns -1.  [None] when [fuel] calls
    of [getopt_long] do not finish the scan. *)
Fixpoint getopt_while (fuel : nat) (argv : list string) (optstring : string)
    (longopts : list Getopt.long_option)
    (cases : ascii -> option string -> switch_case)
    (st : Getopt.state) (fl : flags) : option parse :=
  match fuel with
  | O => None
  | S fuel' =>
      let '(r, st', argv') := Getopt.getopt_long argv optstring longopts st in
      match r with
      | Getopt.Done =>
          Some (mk_parse (Z.of_nat (Getopt.optind st')) st' fl argv')
      | Getopt.Opt c =>
          match cases c (Getopt.optarg st') with
          | Some assign =>
              getopt_while fuel' argv' optstring longopts cases st' (assign fl)
          | None => Some (mk_parse (-1) st' fl argv')
          end
      end
  end.

(** Every call of [getopt_long] that returns an option consumes at least
    one character of [argv]: this many calls finish any scan. *)
Definition argv_size (argv : list string) : nat :=
  fold_right (fun a n => (S (String.length a) + n)%nat) O argv.

Definition scan_fuel (argv : list string) : nat := S (argv_size argv).

Definition set_optind (i : Z) (st : Getopt.state) : Getopt.state :=
  Getopt.moved st (Z.to_nat i) (Getopt.nextchar st) (Getopt.optarg st).

Definition opt (name : string) (has_arg : bool) (val : ascii)
  : Getopt.long_option := Getopt.mk_long_option name has_arg val.

Definition no_argument : bool := false.
Definition required_argument : bool := true.

(** *** parse_record_args *)

Definition record_opts : list Getopt.long_option :=
  [ opt "force-syscall-buffer" no_argument "b";
    opt "ignore-signal" required_argument "i";
    opt "num-cpu-ticks" required_argument "c";
    opt "num-events" required_argument "e";
    opt "no-syscall-buffer" no_argument "n" ].

Definition record_case (c : ascii) (optarg : option string) : switch_case :=
  match c with
  | "b" => Some (set_use_syscall_buffer true)
  | "c" => Some (set_max_rbc (MAX 1 (atoi (cstr optarg))))
  | "e" => Some (set_max_events (MAX 1 (atoi (cstr optarg))))
  | "i" => Some (set_ignore_sig (MIN (_NSIG - 1) (MAX 1 (atoi (cstr optarg)))))
  | "n" => Some (set_use_syscall_buffer false)
  | _ => None
  end%char.

Definition parse_record_args (cmdi : Z) (argv : list string)
    (st : Getopt.state) (fl : flags) : option parse :=
  getopt_while (scan_fuel argv) argv "+c:be:i:n" record_opts record_case
    (set_optind (cmdi + 1) st) fl.

(** *** parse_replay_args *)

Definition replay_opts : list Getopt.long_option :=
  [ opt "autopilot" no_argument "a";
    opt "dbgport" required_argument "s";
    opt "goto" required_argument "g";
    opt "no-redirect-output" no_argument "q";
    opt "onfork" required_argument "f";
    opt "onprocess" required_argument "p";
    opt "gdb-x" required_argument "x" ].

Definition replay_case (c : ascii) (optarg : option string) : switch_case :=
  match c with
  | "a" => Some (fun fl => set_dont_launch_debugger true (set_goto_event GotoMax fl))
  | "f" => Some (fun fl =>
      set_process_created_how CREATED_FORK
        (set_target_process (atoi (cstr optarg)) fl))
  | "g" => Some (set_goto_event (GotoEvent (atoi (cstr optarg))))
  | "p" => Some (fun fl =>
      set_process_created_how CREATED_EXEC
        (set_target_process (atoi (cstr optarg)) fl))
  | "q" => Some (set_redirect false)
  | "s" => Some (fun fl =>
      set_dont_launch_debugger true (set_dbgport (atoi (cstr optarg)) fl))
  | "x" => Some (set_gdb_command_file_path optarg)
  | _ => None
  end%char.

Definition parse_replay_args (cmdi : Z) (argv : list string)
    (st : Getopt.state) (fl : flags) : option parse :=
  getopt_while (scan_fuel argv) argv "+af:g:p:qs:x:" replay_opts replay_case
    (set_optind (cmdi + 1) st) fl.

(** *** parse_dump_args *)

(** The source's table has this one entry and no terminating zero entry.
    [getopt_long] reads on past the entry when a long option is not
    exactly [raw], which C leaves undefined; the model looks options up in
    the entry the table has, as [getopt_long] does in a table that
    ends. *)
Definition dump_opts : list Getopt.long_option :=
  [ opt "raw" no_argument "r" ].

Definition dump_case (c : ascii) (optarg : option string) : switch_case :=
  match c with
  | "r" => Some (set_raw_dump true)
  | _ => None
  end%char.

Definition parse_dump_args (cmdi : Z) (argv : list string)
    (st : Getopt.state) (fl : flags) : option parse :=
  getopt_while (scan_fuel argv) argv "r" dump_opts dump_case
    (set_optind (cmdi + 1) st) fl.

(** *** parse_common_args *)

Definition common_opts : list Getopt.long_option :=
  [ opt "checksum" required_argument "c";
    opt "check-cached-mmaps" no_argument "k";
    opt "cpu-unbound" no_argument "u";
    opt "dump-at" required_argument "t";
    opt "dump-on" required_argument "d";
    opt "force-enable-debugger" no_argument "f";
    opt "mark-stdio" no_argument "m";
    opt "suppress-performance-warnings" no_argument "s";
    opt "verbose" no_argument "v";
    opt "wait-secs" required_argument "w" ].

Definition common_case (K : constants) (c : ascii) (optarg : option string)
  : switch_case :=
  match c with
  | "c" => Some (fun fl =>
      if String.eqb "on-syscalls" (cstr optarg) then
        set_checksum (CHECKSUM_SYSCALL K) fl
      else if String.eqb "on-all-events" (cstr optarg) then
        set_checksum (CHECKSUM_ALL K) fl
      else
        set_checksum (atoi (cstr optarg)) fl)
  | "d" => Some (set_dump_on (atoi (cstr optarg)))
  | "f" => Some (set_force_enable_debugger true)
  | "k" => Some (set_check_cached_mmaps true)
  | "m" => Some (set_mark_stdio true)
  | "s" => Some (set_suppress_performance_warnings true)
  | "t" => Some (set_dump_at (atoi (cstr optarg)))
  | "u" => Some (set_cpu_unbound true)
  | "v" => Some (set_verbose true)
  | "w" => Some (set_wait_secs (atoi (cstr optarg)))
  | _ => None
  end%char.

Definition parse_common_args (K : constants) (argv : list string)
    (st : Getopt.state) (fl : flags) : option parse :=
  getopt_while (scan_fuel argv) argv "+c:d:fkmst:uvw:" common_opts
    (common_case K) st fl.

(** ** The process: state, effects and termination *)

(** What the process does to the outside, in order.  ([LOG] messages and
    the diagnostics [getopt_long] writes to [stderr] are not modelled.) *)
Inductive event : Type :=
| Stderr (text : string)
| Stdout (items : FILE)
| Nanosleep (secs : Z)
| SetAffinity (cpu : Z)                 (* sched_setaffinity to one CPU *)
| Setenv (name value : string)
| Unsetenv (name : string)
| Started (command : rr_option) (argv : list string).
                        (* the call of record, replay or start_dumping *)

(** The state of the process: the flags, the variables of getopt, the
    array [argv] as the last scan of the options left it (empty before
    the first scan), and what the process has done so far. *)
Record world : Type := mk_world {
  w_flags : flags;
  w_getopt : Getopt.state;
  w_argv : list string;
  w_events : list event
}.

(** Modelled from the spec: how [FATAL()] ends the process (log.h is
    missing): [Fatal], the process terminates with a distinguished failure
    status.  The other ends are [exit] or the return of [main] with a
    status, and [Undefined], a run that reads a variable never assigned. *)
Inductive termination : Type :=
| Exited (status : Z)
| Fatal
| Undefined.

Inductive result (A : Type) : Type :=
| Ret (a : A) (w : world)
| Stop (t : termination) (w : world)
| OutOfFuel.

Arguments Ret {A} a w.
Arguments Stop {A} t w.
Arguments OutOfFuel {A}.

Definition M (A : Type) : Type := world -> result A.

Definition ret {A : Type} (a : A) : M A := fun w => Ret a w.

Definition bind {A B : Type} (m : M A) (k : A -> M B) : M B :=
  fun w =>
    match m w with
    | Ret a w' => k a w'
    | Stop t w' => Stop t w'
    | OutOfFuel => OutOfFuel
    end.

Notation "x <- m ;; k" := (bind m (fun x => k))
  (at level 61, m at next level, right associativity).
Notation "m ;; k" := (bind m (fun _ => k))
  (at level 61, right associativity).

Definition get_flags : M flags := fun w => Ret (w_flags w) w.

(** The contents of the array [argv] now. *)
Definition get_argv : M (list string) := fun w => Ret (w_argv w) w.

Definition modify_flags (assign : flags -> flags) : M unit :=
  fun w =>
    Ret tt (mk_world (assign (w_flags w)) (w_getopt w) (w_argv w) (w_events w)).

Definition emit (e : event) : M unit :=
  fun w =>
    Ret tt (mk_world (w_flags w) (w_getopt w) (w_argv w) (w_events w ++ [e])).

Definition stop {A : Type} (t : termination) : M A := fun w => Stop t w.

(** Modelled from the spec: [FATAL() << text] (log.h is missing) writes
    the message and terminates the process with the failure status. *)
Definition FATAL {A : Type} (text : string) : M A :=
  emit (Stderr text) ;; stop Fatal.

(** Run one of the parsers on the flags and the getopt variables; the
    array [argv] is as the parser leaves it. *)
Definition parser : Type := Getopt.state -> flags -> option parse.

Definition run_parser (p : parser) : M Z :=
  fun w =>
    match p (w_getopt w) (w_flags w) with
    | Some r =>
        Ret (p_result r)
          (mk_world (p_flags r) (p_getopt r) (p_argv r) (w_events w))
    | None => OutOfFuel
    end.

Definition newline : string := String (ascii_of_nat 10) "".

(** ** parse_args *)

(** [argv[i]], for [i] below [argc]. *)
Definition arg (argv : list string) (i : Z) : string :=
  nth (Z.to_nat i) argv "".

(** [argv[0]] as [fprintf("%s")] shows it. *)
Definition exe_name (argv : list string) : string :=
  match argv with
  | exe :: _ => exe
  | [] => "(null)"
  end.

Definition argc_of (argv : list string) : Z := Z.of_nat (List.length argv).

(** The nine assignments at the head of [parse_args]. *)
Definition set_defaults (K : constants) (fl : flags) : flags :=
  set_suppress_performance_warnings false
    (set_use_syscall_buffer true
      (set_redirect true
        (set_dump_on (DUMP_ON_NONE K)
          (set_dump_at (DUMP_AT_NONE K)
            (set_dbgport (-1)
              (set_checksum (CHECKSUM_NONE K)
                (set_max_events (DEFAULT_MAX_EVENTS K)
                  (set_max_rbc (DEFAULT_MAX_RBC K) fl)))))))).

Definition parse_args (K : constants) (argv : list string) : M Z :=
  let argc := argc_of argv in
  let exe := exe_name argv in
  modify_flags (set_defaults K) ;;
  cmdi <- run_parser (parse_common_args K argv) ;;
  (* the array [argv] after the scan of the common options *)
  argv <- get_argv ;;
  if 0 >? cmdi then ret (-1)
  else if (0 =? cmdi) || (cmdi >=? argc) then
    emit (Stderr (exe ++ ": must specify a command" ++ newline)%string) ;;
    ret (-1)
  else
    let cmd := arg argv cmdi in
    if String.eqb "record" cmd then
      modify_flags (set_option_ RECORD) ;;
      run_parser (parse_record_args cmdi argv)
    else if String.eqb "replay" cmd then
      modify_flags (set_option_ REPLAY) ;;
      run_parser (parse_replay_args cmdi argv)
    else if String.eqb "dump" cmd then
      modify_flags (set_option_ DUMP_EVENTS) ;;
      run_parser (parse_dump_args cmdi argv)
    else if String.eqb "help" cmd || String.eqb "-h" cmd
            || String.eqb "--help" cmd then
      ret (-1)
    else
      emit (Stderr (exe ++ ": unknown command `" ++ cmd ++ "`"
                    ++ newline)%string) ;;
      ret (-1).

(** ** The environment of the process *)

(** What the process finds outside: files, system calls, and the session
    code of the missing sources. *)
Record environment : Type := mk_environment {
  (* /proc/sys/kernel/yama/ptrace_scope: [None] when it cannot be opened *)
  ptrace_scope_file : option string;
  (* uname(): the release string, [None] when the call fails *)
  uname_release : option string;
  (* the scaling governor of cpu0: [None] when it cannot be opened,
     [Some None] when reading it fails *)
  governor_file : option (option string);
  nanosleep_fails : bool;
  sched_setaffinity_fails : bool;
  (* realpath("/proc/self/exe") *)
  exe_path : string;
  (* access(path, F_OK) == 0 *)
  file_exists : string -> bool;
  (* record() and replay(): whether the session runs to completion and
     the call returns; otherwise the process ends inside it *)
  record : flags -> string -> list string -> bool;
  replay : flags -> list string -> bool;
  (* TraceIfstream::open(): [None] when the process ends inside it *)
  open_trace : list string -> option TraceIfstream
}.

(** ** read_int_file *)

(** [fscanf(inf, "%d", &val)]: the return value and the integer stored. *)
Definition fscanf_d (content : string) : Z * option Z :=
  match skip_space content with
  | EmptyString => (EOF, None)
  | s1 =>
      let '(neg, s2) := scan_sign s1 in
      match scan_number s2 with
      | None => (0, None)
      | Some (v, _) =>
          (1, Some (to_int32
                      (if neg then Z.max LONG_MIN (- v) else Z.min LONG_MAX v)))
      end
  end.

Definition read_int_file (filename : string) (file : option string) : M Z :=
  match file with
  | None => ret (-1)
  | Some content =>
      match fscanf_d content with
      | (1, Some val) => ret val
      | _ => FATAL ("Failed to scan integer from " ++ filename)%string
      end
  end.

(** ** assert_prerequisites *)

(** [KERNEL_VERSION(a, b, c)] of <linux/version.h>, in [unsigned int]
    arithmetic. *)
Definition KERNEL_VERSION (a b c : Z) : Z :=
  to_uint32 (Z.shiftl a 16 + Z.shiftl b 8 + c).

(** One extraction [stream >> n] into an [unsigned int]: the variable is
    left untouched at the end of the input; otherwise it is assigned, and
    the stream fails ([None]) without a number or on overflow. *)
Inductive extraction : Type :=
| Untouched
| Assigned (v : Z) (rest : option string).

Definition extract_unsigned (s : string) : extraction :=
  match skip_space s with
  | EmptyString => Untouched
  | s1 =>
      let '(neg, s2) := scan_sign s1 in
      match scan_number s2 with
      | None => Assigned 0 None
      | Some (v, rest) =>
          if v >? UINT_MAX then Assigned UINT_MAX None
          else Assigned (if neg then to_uint32 (- v) else v) (Some rest)
      end
  end.

(** [stream >> dot] into a [char]. *)
Definition extract_char (s : string) : option (ascii * string) :=
  match skip_space s with
  | EmptyString => None
  | String c rest => Some (c, rest)
  end.

(** [stream >> major >> dot >> minor]: the values of [major] and [minor]
    afterwards, [None] when one of them was never assigned. *)
Definition release_version (release : string) : option (Z * Z) :=
  match extract_unsigned release with
  | Assigned major (Some rest) =>
      match extract_char rest with
      | Some (_, rest') =>
          match extract_unsigned rest' with
          | Assigned minor _ => Some (major, minor)
          | Untouched => None
          end
      | None => None
      end
  | _ => None
  end.

Definition assert_prerequisites (env : environment) : M unit :=
  ptrace_scope_val <-
    read_int_file "/proc/sys/kernel/yama/ptrace_scope" (ptrace_scope_file env) ;;
  (if ptrace_scope_val >? 0 then
     FATAL ("Can't write to process memory; ptrace_scope is "
            ++ decimal ptrace_scope_val)%string
   else ret tt) ;;
  match uname_release env with
  | None => ret tt
  | Some release =>
      match release_version release with
      | None => stop Undefined
      | Some (major, minor) =>
          (if KERNEL_VERSION major minor 0 <? KERNEL_VERSION 3 4 0 then
             FATAL ("Kernel doesn't support necessary ptrace "
                    ++ "functionality; need 3.4.0 or better.")%string
           else ret tt) ;;
          fl <- get_flags ;;
          if use_syscall_buffer fl
             && (KERNEL_VERSION major minor 0 <? KERNEL_VERSION 3 5 0) then
            FATAL ("Your kernel does not support syscall "
                   ++ "filtering; please use the -n option")%string
          else ret tt
      end
  end.

(** ** check_performance_settings *)

Definition PATH_MAX : nat := 4096.

(** The C string in a buffer: the bytes before the first NUL. *)
Fixpoint c_string (bytes : string) : string :=
  match bytes with
  | EmptyString => EmptyString
  | String c r => if Ascii.eqb c zero then EmptyString else String c (c_string r)
  end.

(** [s[len - 1] = '\0'] for a non-empty [s]: the string loses its last
    character. *)
Fixpoint drop_last (s : string) : string :=
  match s with
  | EmptyString => EmptyString
  | String _ EmptyString => EmptyString
  | String c r => String c (drop_last r)
  end.

Definition governor_warning (governor : string) : string :=
  (newline ++
   "rr: Warning: Your CPU frequency governor is '" ++ governor
     ++ "'.  rr strongly" ++ newline ++
   "    recommends that you use the 'performance' governor.  Not using the"
     ++ newline ++
   "    'performance' governor can cause rr to be at least 2x slower"
     ++ newline ++
   "    on laptops." ++ newline ++
   newline ++
   "    On Fedora-based systems, you can enable the 'performance' governor"
     ++ newline ++
   "    by running the following commands:" ++ newline ++
   newline ++
   "    $ sudo yum install kernel-tools" ++ newline ++
   "    $ sudo cpupower frequency-set -g performance" ++ newline ++
   newline)%string.

Definition check_performance_settings (env : environment) : M unit :=
  match governor_file env with
  | None => ret tt
  | Some None => FATAL "Unable to read cpu0's frequency governor."
  | Some (Some content) =>
      (* read() fills at most sizeof(governor) - 1 bytes *)
      let read := substring 0 (PATH_MAX - 1) content in
      let governor := drop_last (c_string read) in
      if negb (String.eqb "performance" governor) then
        emit (Stderr (governor_warning governor))
      else ret tt
  end.

(** ** print_usage *)

Definition usage : string :=
"Usage: rr [OPTION] (record|replay|dump) [OPTION]... [ARG]...

Common options
  -c, --checksum={on-syscalls,on-all-events}|FROM_TIME
                             compute and store (during recording) or
                             read and verify (during replay) checksums
                             of each of a tracee's memory mappings either
                             at the end of all syscalls (`on-syscalls'),
                             at all events (`on-all-events'), or 
                             starting from a global timepoint FROM_TIME
  -d, --dump-on=<SYSCALL_NUM|-SIGNAL_NUM>
                             dump memory at SYSCALL or SIGNAL to the
                             file `[trace_dir]/[tid].[time]_{rec,rep}':
                             `_rec' for dumps during recording, `_rep'
                             for dumps during replay
  -f, --force-enable-debugger
                             always allow emergency debugging, even
                             when it doesn't seem like a good idea, for
                             example if stderr isn't a tty.
  -k, --check-cached-mmaps   verify that cached task mmaps match /proc/maps
  -m, --mark-stdio           mark stdio writes with [rr.<EVENT-NO>],
                             where EVENT-NO is the global trace time at
                             which the write occures.
  -s, --suppress-performance-warnings
                             suppress warnings related to potential
                             performance issues
  -t, --dump-at=TIME         dump memory at global timepoint TIME
  -u, --cpu-unbound          allow tracees to run on any virtual CPU.
                             Default is to bind to CPU 0.  This option
                             can cause replay divergence: use with
                             caution.
  -v, --verbose              log messages that may not be urgently 
                             critical to the user
  -w, --wait-secs=<NUM_SECS> wait NUM_SECS seconds just after startup,
                             before initiating recording or replaying

Syntax for `record'
 rr record [OPTION]... <exe> [exe-args]...
  -b, --force-syscall-buffer force the syscall buffer preload library
                             to be used, even if that's probably a bad
                             idea
  -c, --num-cpu-ticks=<NUM>  maximum number of 'CPU ticks' (currently 
                             retired conditional branches) to allow a 
                             task to run before interrupting it
  -e, --num-events=<NUM>     maximum number of events (syscall 
                             enter/exit, signal, CPU interrupt, ...) 
                             to allow a task before descheduling it
  -i, --ignore-signal=<SIG>  block <SIG> from being delivered to tracees.
                             Probably only useful for unit tests.
  -n, --no-syscall-buffer    disable the syscall buffer preload library
                             even if it would otherwise be used

Syntax for `replay'
 rr replay [OPTION]... [<trace-dir>]
  -a, --autopilot            replay without debugger server
  -f, --onfork=<PID>         start a debug server when <PID> has been
                             fork()d, AND the target event has been
                             reached.
  -g, --goto=<EVENT-NUM>     start a debug server on reaching <EVENT-NUM>
                             in the trace.  See -m above.
  -p, --onprocess=<PID>      start a debug server when <PID> has been
                             exec()d, AND the target event has been
                             reached.
  -q, --no-redirect-output   don't replay writes to stdout/stderr
  -s, --dbgport=<PORT>       only start a debug server on <PORT>;
                             don't automatically launch the debugger
                             client too.
  -x, --gdb-x=<FILE>         execute gdb commands from <FILE>

Syntax for `dump`
 rr dump [OPTIONS] <trace_dir> [<event-spec>...]
  Event specs can be either an event number like `127', or a range
  like `1000-5000'.  By default, all events are dumped.
  -r, --raw                  dump trace frames in a more easily
                             machine-parseable format instead of the
                             default human-readable format

A command line like `rr (-h|--help|help)...' will print this message.
".

Definition print_usage : M unit := emit (Stderr usage).

(** ** find_syscall_buffer_library *)

(** [lib_path.erase(end)] after the loop that chops off the file name:
    what is left ends with the last ['/'], or is empty. *)
Fixpoint chop_filename (path : string) : string :=
  match path with
  | EmptyString => EmptyString
  | String c r =>
      match chop_filename r with
      | EmptyString => if Ascii.eqb c "/" then String c EmptyString
                       else EmptyString
      | kept => String c kept
      end
  end.

Definition find_syscall_buffer_library (K : constants) (env : environment)
  : string :=
  let lib_path :=
    (chop_filename (exe_path env) ++ "../lib/"
     ++ SYSCALLBUF_LIB_FILENAME K)%string in
  if negb (file_exists env lib_path) then SYSCALLBUF_LIB_FILENAME K
  else lib_path.

(** ** start *)

(** [start(rr_exe, argc, argv, envp)].  When the session code does not
    return, the process ends inside it, in failure. *)
Definition start (env : environment) (rr_exe : string) (argv : list string)
  : M unit :=
  fl <- get_flags ;;
  match option_ fl with
  | RECORD =>
      emit (Started RECORD argv) ;;
      if record env fl rr_exe argv then ret tt else stop Fatal
  | REPLAY =>
      emit (Started REPLAY argv) ;;
      if replay env fl argv then ret tt else stop Fatal
  | DUMP_EVENTS =>
      emit (Started DUMP_EVENTS argv) ;;
      match open_trace env argv with
      | Some trace => emit (Stdout (start_dumping (raw_dump fl) trace argv))
      | None => stop Fatal
      end
  | INVALID => FATAL "Uknown option 0"
  end.

(** ** main *)

Definition EX_CONFIG : Z := 78.

(** [main(argc, argv)]: the value it returns.  [_exit] and [FATAL] end
    the process before it returns. *)
Definition main (K : constants) (env : environment) (argv : list string)
  : M Z :=
  let argc := argc_of argv in
  if (argc >=? 2) && String.eqb "check-preload-lib" (arg argv 1) then
    stop (Exited EX_CONFIG)
  else
    argi <- parse_args K argv ;;
    flags <- get_flags ;;
    if (0 >? argi) || (argc <? argi)
       || (negb (match option_ flags with REPLAY => true | _ => false end)
           && (argc <=? argi)) then
      print_usage ;;
      ret 1
    else
      assert_prerequisites env ;;
      flags <- get_flags ;;
      (if negb (suppress_performance_warnings flags) then
         check_performance_settings env
       else ret tt) ;;
      (let wait_secs := wait_secs flags in
       if wait_secs >? 0 then
         emit (Nanosleep wait_secs) ;;
         if nanosleep_fails env then
           FATAL "Failed to wait requested duration"
         else ret tt
       else ret tt) ;;
      (if negb (cpu_unbound flags) then
         emit (SetAffinity 0) ;;
         if sched_setaffinity_fails env then FATAL "Couldn't bind to CPU 0"
         else ret tt
       else ret tt) ;;
      (match option_ flags with
       | RECORD =>
           (if use_syscall_buffer flags then
              emit (Setenv (SYSCALLBUF_ENABLED_ENV_VAR K) "1")
            else emit (Unsetenv (SYSCALLBUF_ENABLED_ENV_VAR K))) ;;
           modify_flags
             (set_syscall_buffer_lib_path (find_syscall_buffer_library K env))
       | _ => ret tt
       end) ;;
      (* the array [argv] as the parsers left it *)
      argv <- get_argv ;;
      start env (arg argv 0) (skipn (Z.to_nat argi) argv) ;;
      ret 0.

(** The process from its start: zeroed flags, [optind] 1, nothing done
    yet. *)
Definition initial_world : world :=
  mk_world flags_zero Getopt.initial [] [].

(** How the process ends, and the state it ends in; [None] when a scan
    of the options runs out of fuel. *)
Definition run (K : constants) (env : environment) (argv : list string)
  : option (termination * world) :=
  match main K env argv initial_world with
  | Ret status w => Some (Exited status, w)
  | Stop t w => Some (t, w)
  | OutOfFuel => None
  end.

(** ** The line of a frame *)

Inductive form : Type := RawForm | HumanReadable.

Record frame_line : Type := mk_frame_line {
  line_form : form;
  line_fields : list (string * Z)
}.

(** Modelled from the spec: [trace_frame::dump(out, raw)] (trace.cc is
    missing) produces one line per frame, containing global_time,
    thread_time, tid, reason, entry/exit, the hardware-interrupt count, the
    page-fault count, the adapted retired-conditional-branch count, the
    instruction count and the full register snapshot, in raw form when
    [raw] is set and in human-readable form otherwise.  The fields bear
    the names of the columns of the dump header. *)
Definition dump (frame : trace_frame) (raw : bool) : frame_line :=
  let regs := recorded_regs frame in
  mk_frame_line (if raw then RawForm else HumanReadable)
    [ ("global_time", global_time frame);
      ("thread_time", thread_time frame);
      ("tid", tid frame);
      ("reason", reason frame);
      ("entry/exit", entry_exit frame);
      ("hw_interrupts", hw_interrupts frame);
      ("page_faults", page_faults frame);
      ("adapted_rbc", adapted_rbc frame);
      ("instructions", instructions frame);
      ("eax", eax regs); ("ebx", ebx regs); ("ecx", ecx regs);
      ("edx", edx regs); ("esi", esi regs); ("edi", edi regs);
      ("ebp", ebp regs); ("orig_eax", orig_eax regs); ("esp", esp regs);
      ("eip", eip regs); ("eflags", eflags regs) ].

(** The order of the fields the claim about the dump lists. *)
Definition field_order : list string :=
  [ "global_time"; "thread_time"; "tid"; "reason"; "entry/exit";
    "hw_interrupts"; "page_faults"; "adapted_rbc"; "instructions";
    "eax"; "ebx"; "ecx"; "edx"; "esi"; "edi"; "ebp"; "orig_eax"; "esp";
    "eip"; "eflags" ].

(** The words of a line of text. *)
Definition is_blank (c : ascii) : bool :=
  Ascii.eqb c " " || Ascii.eqb c (ascii_of_nat 10).

Fixpoint split_words (s : string) : list string :=
  match s with
  | EmptyString => [EmptyString]
  | String c r =>
      if is_blank c then EmptyString :: split_words r
      else
        match split_words r with
        | w :: ws => String c w :: ws
        | [] => [String c EmptyString]
        end
  end.

Definition words (s : string) : list string :=
  filter (fun w => negb (String.eqb w "")) (split_words s).

(** The frame lines of an output, as [trace_frame::dump] renders them. *)
Fixpoint lines_of (out : FILE) : list frame_line :=
  match out with
  | [] => []
  | Text _ :: out' => lines_of out'
  | FrameLine f raw :: out' => dump f raw :: lines_of out'
  end.

(** ** Vocabulary of the option properties *)

(** The options a scan hands to the cases of the [switch], in order, each
    with its [optarg]; the scan ends at -1 or at an option of the default
    case. *)
Fixpoint scan_options (fuel : nat) (argv : list string) (optstring : string)
    (longopts : list Getopt.long_option)
    (cases : ascii -> option string -> switch_case)
    (st : Getopt.state) : list (ascii * option string) :=
  match fuel with
  | O => []
  | S fuel' =>
      let '(r, st', argv') := Getopt.getopt_long argv optstring longopts st in
      match r with
      | Getopt.Done => []
      | Getopt.Opt c =>
          match cases c (Getopt.optarg st') with
          | Some _ =>
              (c, Getopt.optarg st')
                :: scan_options fuel' argv' optstring longopts cases st'
          | None => []
          end
      end
  end.

(** The value a scan returns and the getopt variables afterwards. *)
Fixpoint scan_end (fuel : nat) (argv : list string) (optstring : string)
    (longopts : list Getopt.long_option)
    (cases : ascii -> option string -> switch_case)
    (st : Getopt.state) : option (Z * Getopt.state) :=
  match fuel with
  | O => None
  | S fuel' =>
      let '(r, st', argv') := Getopt.getopt_long argv optstring longopts st in
      match r with
      | Getopt.Done => Some (Z.of_nat (Getopt.optind st'), st')
      | Getopt.Opt c =>
          match cases c (Getopt.optarg st') with
          | Some _ => scan_end fuel' argv' optstring longopts cases st'
          | None => Some (-1, st')
          end
      end
  end.

(** The array [argv] a scan leaves. *)
Fixpoint scan_argv (fuel : nat) (argv : list string) (optstring : string)
    (longopts : list Getopt.long_option)
    (cases : ascii -> option string -> switch_case)
    (st : Getopt.state) : list string :=
  match fuel with
  | O => argv
  | S fuel' =>
      let '(r, st', argv') := Getopt.getopt_long argv optstring longopts st in
      match r with
      | Getopt.Done => argv'
      | Getopt.Opt c =>
          match cases c (Getopt.optarg st') with
          | Some _ => scan_argv fuel' argv' optstring longopts cases st'
          | None => argv'
          end
      end
  end.

(** One case of the [switch] applied to the flags. *)
Definition apply_case (cases : ascii -> option string -> switch_case)
    (fl : flags) (o : ascii * option string) : flags :=
  match cases (fst o) (snd o) with
  | Some assign => assign fl
  | None => fl
  end.

(** The common options of a command line, as [parse_common_args] sees
    them. *)
Definition common_options (K : constants) (argv : list string)
  : list (ascii * option string) :=
  scan_options (scan_fuel argv) argv "+c:d:fkmst:uvw:" common_opts
    (common_case K) Getopt.initial.

(** The index of the command word and the getopt variables after the
    common options. *)
Definition common_end (K : constants) (argv : list string)
  : option (Z * Getopt.state) :=
  scan_end (scan_fuel argv) argv "+c:d:fkmst:uvw:" common_opts
    (common_case K) Getopt.initial.

(** The options that follow the command word [record], as
    [parse_record_args] sees them. *)
Definition record_options (K : constants) (argv : list string)
  : list (ascii * option string) :=
  match common_end K argv with
  | Some (cmdi, st) =>
      scan_options (scan_fuel argv) argv "+c:be:i:n" record_opts record_case
        (set_optind (cmdi + 1) st)
  | None => []
  end.

(** The options that follow the command word [replay]. *)
Definition replay_options (K : constants) (argv : list string)
  : list (ascii * option string) :=
  match common_end K argv with
  | Some (cmdi, st) =>
      scan_options (scan_fuel argv) argv "+af:g:p:qs:x:" replay_opts
        replay_case (set_optind (cmdi + 1) st)
  | None => []
  end.

(** The options that follow the command word [dump]. *)
Definition dump_options (K : constants) (argv : list string)
  : list (ascii * option string) :=
  match common_end K argv with
  | Some (cmdi, st) =>
      scan_options (scan_fuel argv) argv "r" dump_opts dump_case
        (set_optind (cmdi + 1) st)
  | None => []
  end.

(** The flags after the defaults and the common options. *)
Definition after_common (K : constants) (argv : list string) : flags :=
  fold_left (apply_case (common_case K)) (common_options K argv)
    (set_defaults K flags_zero).

(** The event is a message on [stderr]. *)
Definition is_stderr (e : event) : Prop :=
  match e with
  | Stderr _ => True
  | _ => False
  end.

(** What [parse_args] leaves behind when it starts from the initial
    state of the process: the value returned, the flags, and which parser
    of a command ran. *)
Inductive parsed (K : constants) (argv : list string) (r : Z) (fl : flags)
  : Prop :=
| parsed_no_command :
    r = -1 -> fl = after_common K argv -> parsed K argv r fl
| parsed_record :
    fl = fold_left (apply_case record_case) (record_options K argv)
           (set_option_ RECORD (after_common K argv)) ->
    parsed K argv r fl
| parsed_replay :
    fl = fold_left (apply_case replay_case) (replay_options K argv)
           (set_option_ REPLAY (after_common K argv)) ->
    parsed K argv r fl
| parsed_dump :
    fl = fold_left (apply_case dump_case) (dump_options K argv)
           (set_option_ DUMP_EVENTS (after_common K argv)) ->
    parsed K argv r fl.

(** The checksum mode an argument of [--checksum] selects. *)
Definition checksum_mode (K : constants) (optarg : option string) : Z :=
  if String.eqb "on-syscalls" (cstr optarg) then CHECKSUM_SYSCALL K
  else if String.eqb "on-all-events" (cstr optarg) then CHECKSUM_ALL K
  else atoi (cstr optarg).

(** Option [c] occurs among the options of a scan. *)
Definition given (c : ascii) (opts : list (ascii * option string)) : Prop :=
  In c (map fst opts).

(** The argument of the last occurrence of option [c]. *)
Fixpoint last_arg (c : ascii) (opts : list (ascii * option string))
  : option (option string) :=
  match opts with
  | [] => None
  | (c', a) :: opts' =>
      match last_arg c opts' with
      | Some found => Some found
      | None => if Ascii.eqb c' c then Some a else None
      end
  end.

(** Characters of [argv] a scan has not consumed yet. *)
Definition remaining (argv : list string) (st : Getopt.state) : nat :=
  match Getopt.nextchar st with
  | EmptyString => argv_size (skipn (Getopt.optind st) argv)
  | String _ rest =>
      (S (String.length rest)
       + argv_size (skipn (S (Getopt.optind st)) argv))%nat
  end.

(** ** Vocabulary of the properties of main *)

(** The kernel version [uname] reports, as [assert_prerequisites] reads
    it. *)
Definition kernel_of (env : environment) : option (Z * Z) :=
  match uname_release env with
  | Some release => release_version release
  | None => None
  end.

(** The value of the ptrace_scope file, when it has one. *)
Definition ptrace_scope_of (env : environment) : option Z :=
  match ptrace_scope_file env with
  | Some content =>
      match fscanf_d content with
      | (1, Some val) => Some val
      | _ => None
      end
  | None => None
  end.

(** The components of a Linux version: [KERNEL_VERSION] packs the minor
    number in eight bits. *)
Definition linux_version (major minor : Z) : Prop :=
  0 <= major /\ 0 <= minor <= 255.

(** Version [major.minor] is below version [M.m]. *)
Definition version_below (major minor M m : Z) : Prop :=
  major < M \/ (major = M /\ minor < m).

(** A prerequisite of [assert_prerequisites] is unmet. *)
Inductive unmet (env : environment) (fl : flags) : Prop :=
| unmet_ptrace_scope (val : Z) :
    ptrace_scope_of env = Some val -> val > 0 -> unmet env fl
| unmet_ptrace_support (major minor : Z) :
    kernel_of env = Some (major, minor) -> linux_version major minor ->
    version_below major minor 3 4 -> unmet env fl
| unmet_syscall_filtering (major minor : Z) :
    kernel_of env = Some (major, minor) -> linux_version major minor ->
    use_syscall_buffer fl = true ->
    version_below major minor 3 5 -> unmet env fl.

(** The event starts a session; some session was started. *)
Definition is_start (e : event) : Prop :=
  match e with
  | Started _ _ => True
  | _ => False
  end.

Definition started (events : list event) : Prop := Exists is_start events.

(** The events before the CPU is chosen and a session starts: messages
    and the wait. *)
Definition is_early (e : event) : Prop :=
  match e with
  | Stderr _ | Nanosleep _ => True
  | _ => False
  end.

(** The session code returns whenever it is called. *)
Definition sessions_complete (env : environment) : Prop :=
  (forall fl exe args, record env fl exe args = true)
  /\ (forall fl args, replay env fl args = true)
  /\ (forall args, open_trace env args <> None).

(** The test of [main] for the probe of the preload library. *)
Definition check_preload (argv : list string) : bool :=
  (argc_of argv >=? 2) && String.eqb "check-preload-lib" (arg argv 1).

(** The test of [main] that sends a command line to [print_usage]. *)
Definition rejected (argv : list string) (argi : Z) (fl : flags) : bool :=
  (0 >? argi) || (argc_of argv <? argi)
  || (negb (match option_ fl with REPLAY => true | _ => false end)
      && (argc_of argv <=? argi)).

(** The CPU binding of [main]. *)
Definition binding (fl : flags) : list event :=
  if cpu_unbound fl then [] else [SetAffinity 0].

(** What [main] does for the record command before it starts. *)
Definition record_setup (K : constants) (fl : flags) : list event :=
  match option_ fl with
  | RECORD =>
      if use_syscall_buffer fl then [Setenv (SYSCALLBUF_ENABLED_ENV_VAR K) "1"]
      else [Unsetenv (SYSCALLBUF_ENABLED_ENV_VAR K)]
  | _ => []
  end.

(** The flags when the session starts: [main] has added the path of the
    preload library for the record command. *)
Definition session_flags (K : constants) (env : environment) (fl : flags)
  : flags :=
  match option_ fl with
  | RECORD =>
      set_syscall_buffer_lib_path (find_syscall_buffer_library K env) fl
  | _ => fl
  end.

(** The world after more events. *)
Definition add_events (w : world) (es : list event) : world :=
  mk_world (w_flags w) (w_getopt w) (w_argv w) (w_events w ++ es).

(** How a run of the process ends, by the stage it reaches. *)
Inductive outcome (K : constants) (env : environment) (argv : list string)
  : termination -> world -> Prop :=
| out_check_preload :
    check_preload argv = true ->
    outcome K env argv (Exited EX_CONFIG) initial_world
| out_usage (argi : Z) (w0 w : world) :
    parse_args K argv initial_world = Ret argi w0 ->
    rejected argv argi (w_flags w0) = true ->
    w_flags w = w_flags w0 ->
    w_events w = w_events w0 ++ [Stderr usage] ->
    outcome K env argv (Exited 1) w
| out_stopped (argi : Z) (w0 w : world) (t : termination) :
    parse_args K argv initial_world = Ret argi w0 ->
    rejected argv argi (w_flags w0) = false ->
    w_flags w = w_flags w0 ->
    Forall is_early (w_events w) ->
    (unmet env (w_flags w0) -> t = Fatal) ->
    t = Fatal \/ t = Undefined ->
    outcome K env argv t w
| out_unbound (argi : Z) (w0 w : world) (early : list event) :
    parse_args K argv initial_world = Ret argi w0 ->
    rejected argv argi (w_flags w0) = false ->
    ~ unmet env (w_flags w0) ->
    w_flags w = w_flags w0 ->
    cpu_unbound (w_flags w0) = false ->
    sched_setaffinity_fails env = true ->
    Forall is_early early ->
    w_events w = early ++ [SetAffinity 0; Stderr "Couldn't bind to CPU 0"] ->
    outcome K env argv Fatal w
| out_session (argi : Z) (w0 w : world) (t : termination)
    (early after : list event) :
    parse_args K argv initial_world = Ret argi w0 ->
    rejected argv argi (w_flags w0) = false ->
    ~ unmet env (w_flags w0) ->
    (cpu_unbound (w_flags w0) = false -> sched_setaffinity_fails env = false) ->
    Forall is_early early ->
    w_events w =
      early ++ binding (w_flags w0) ++ record_setup K (w_flags w0)
        ++ [Started (option_ (w_flags w0))
              (skipn (Z.to_nat argi) (w_argv w0))]
        ++ after ->
    (forall e, In e after -> exists items, e = Stdout items
       /\ option_ (w_flags w0) = DUMP_EVENTS
       /\ exists trace,
            items = start_dumping (raw_dump (w_flags w0)) trace
                      (skipn (Z.to_nat argi) (w_argv w0))) ->
    w_flags w = session_flags K env (w_flags w0) ->
    (t = Exited 0 \/ (t = Fatal /\ ~ sessions_complete env)) ->
    outcome K env argv t w.

(** ** Sample inputs *)

(** Values for the constants of the missing headers, for the examples. *)
Definition sample_constants : constants :=
  mk_constants 250000 10 (-3) (-2) (-1) (-1) (-10000)
    "librrpreload.so" "_RR_USE_SYSCALLBUF".

(** The world [main] is in when it returns from [parse_args]. *)
Definition world_after_parse (K : constants) (argv : list string) : world :=
  match parse_args K argv initial_world with
  | Ret _ w | Stop _ w => w
  | OutOfFuel => initial_world
  end.

Definition sample_record_argv : list string :=
  ["rr"; "--checksum=1234"; "record"; "-c"; "0"; "--num-events=-7"; "ls"; "-l"].

Definition sample_record_world : world :=
  world_after_parse sample_constants sample_record_argv.

Definition sample_signal_argv : list string :=
  ["rr"; "record"; "-i9999"; "--ignore-signal"; "-3"; "true"].

Definition sample_signal_world : world :=
  world_after_parse sample_constants sample_signal_argv.

Definition sample_trace : TraceIfstream :=
  map frame_at [126; 127; 999; 1000; 3000; 5000; 5001].

(** A trace of four consecutive events. *)
Definition adjacent_trace : TraceIfstream := map frame_at [1; 2; 3; 4].

(** A machine on which every prerequisite is met and every session runs
    to completion. *)
Definition sample_environment : environment :=
  mk_environment (Some ("0" ++ newline)%string) (Some "3.13.0-24-generic")
    (Some (Some ("performance" ++ newline)%string)) false false
    "/usr/bin/rr" (fun _ => true)
    (fun _ _ _ => true) (fun _ _ => true) (fun _ => Some sample_trace).

(** The same machine with ptrace restricted. *)
Definition restricted_environment : environment :=
  mk_environment (Some ("1" ++ newline)%string) (Some "3.13.0-24-generic")
    (Some (Some ("performance" ++ newline)%string)) false false
    "/usr/bin/rr" (fun _ => true)
    (fun _ _ _ => true) (fun _ _ => true) (fun _ => Some sample_trace).

(** The same machine with a kernel without syscall filtering. *)
Definition old_kernel_environment : environment :=
  mk_environment (Some ("0" ++ newline)%string) (Some "3.4.11-generic")
    (Some (Some ("performance" ++ newline)%string)) false false
    "/usr/bin/rr" (fun _ => true)
    (fun _ _ _ => true) (fun _ _ => true) (fun _ => Some sample_trace).

(** The same machine on which the CPU binding fails. *)
Definition unbindable_environment : environment :=
  mk_environment (Some ("0" ++ newline)%string) (Some "3.13.0-24-generic")
    (Some (Some ("performance" ++ newline)%string)) false true
    "/usr/bin/rr" (fun _ => true)
    (fun _ _ _ => true) (fun _ _ => true) (fun _ => Some sample_trace).

(** The world a run ends in. *)
Definition world_after_run (K : constants) (env : environment)
    (argv : list string) : world :=
  match run K env argv with
  | Some (_, w) => w
  | None => initial_world
  end.

(** A command line with ["--"] after the common options and after the
    options of the command. *)
Definition sample_dashed_argv : list string :=
  ["rr"; "-v"; "--"; "record"; "-c"; "5"; "--"; "ls"; "-l"].

Definition sample_unbound_argv : list string :=
  ["rr"; "-u"; "replay"; "-a"; "trace_0"].

Definition sample_dump_argv : list string :=
  ["rr"; "dump"; "-r"; "trace_0"; "127"; "1000-5000"].

(** ** Vocabulary of the dump properties *)

(** [global_time] is strictly increasing across consecutive frames. *)
Definition increasing (trace : list trace_frame) : Prop :=
  Sorted Z.lt (map global_time trace).

(** Every [global_time] is a value of its type, [uint32_t]. *)
Definition wf_trace (trace : list trace_frame) : Prop :=
  Forall (fun f => is_uint32 (global_time f)) trace.

(** The frame lies in the inclusive interval [[a, b]]. *)
Definition in_range (a b : Z) (f : trace_frame) : bool :=
  (a <=? global_time f) && (global_time f <=? b).

(** The lines [trace_frame::dump] prints for a list of frames. *)
Definition frame_lines (raw : bool) (frames : list trace_frame) : FILE :=
  map (fun f => FrameLine f raw) frames.

(** The first list is the second with some elements left out. *)
Inductive subsequence {A : Type} : list A -> list A -> Prop :=
| sub_nil (l : list A) : subsequence [] l
| sub_skip (x : A) (l1 l2 : list A) :
    subsequence l1 l2 -> subsequence l1 (x :: l2)
| sub_take (x : A) (l1 l2 : list A) :
    subsequence l1 l2 -> subsequence (x :: l1) (x :: l2).

(** The event spec [a-b]. *)
Definition range_spec (a b : Z) : string :=
  (decimal a ++ "-" ++ decimal b)%string.

(** The value of a decimal numeral read from the left onto [acc]. *)
Fixpoint uint_val (acc : Z) (d : Decimal.uint) : Z :=
  match d with
  | Decimal.Nil => acc
  | Decimal.D0 d' => uint_val (acc * 10 + 0) d'
  | Decimal.D1 d' => uint_val (acc * 10 + 1) d'
  | Decimal.D2 d' => uint_val (acc * 10 + 2) d'
  | Decimal.D3 d' => uint_val (acc * 10 + 3) d'
  | Decimal.D4 d' => uint_val (acc * 10 + 4) d'
  | Decimal.D5 d' => uint_val (acc * 10 + 5) d'
  | Decimal.D6 d' => uint_val (acc * 10 + 6) d'
  | Decimal.D7 d' => uint_val (acc * 10 + 7) d'
  | Decimal.D8 d' => uint_val (acc * 10 + 8) d'
  | Decimal.D9 d' => uint_val (acc * 10 + 9) d'
  end.

(** The string is empty or starts with a character that ends a number. *)
Definition ends_number (s : string) : Prop :=
  match s with
  | EmptyString => True
  | String c _ => isdigit c = false
  end.

(** ** Vocabulary of the further properties of the dump *)

(** The frame matches one of the ranges. *)
Definition in_ranges (ranges : list (Z * Z)) (f : trace_frame) : bool :=
  existsb (fun r => in_range (fst r) (snd r) f) ranges.

(** The ranges are not empty and come in increasing order, and the trace
    has a frame strictly between each range and the next. *)
Fixpoint separated (trace : list trace_frame) (ranges : list (Z * Z))
  : Prop :=
  match ranges with
  | [] => True
  | (a, b) :: rest =>
      a <= b
      /\ match rest with
         | [] => True
         | (c, _) :: _ => exists g, In g trace /\ b < global_time g < c
         end
      /\ separated trace rest
  end.

(** The bounds of every range are values of [uint32_t]. *)
Definition uint32_ranges (ranges : list (Z * Z)) : Prop :=
  Forall (fun r => is_uint32 (fst r) /\ is_uint32 (snd r)) ranges.

(** The event specs that spell the ranges. *)
Definition range_specs (ranges : list (Z * Z)) : list string :=
  map (fun r => range_spec (fst r) (snd r)) ranges.

(** The string holds no number where a scan would look for one: after
    white space and a sign there is no digit. *)
Definition no_number (s : string) : Prop :=
  scan_number (snd (scan_sign (skip_space s))) = None.

(** ** Vocabulary of the further properties of the start-up checks *)

(** The string has no NUL character. *)
Fixpoint nul_free (s : string) : bool :=
  match s with
  | EmptyString => true
  | String c r => negb (Ascii.eqb c zero) && nul_free r
  end.

(** The message of [assert_prerequisites] about ptrace_scope. *)
Definition ptrace_scope_message (val : Z) : string :=
  ("Can't write to process memory; ptrace_scope is " ++ decimal val)%string.

(** The message of [read_int_file]. *)
Definition scan_failure_message (filename : string) : string :=
  ("Failed to scan integer from " ++ filename)%string.

(** ** Vocabulary of the further properties of the parsers *)

(** [optind] does not point past the end of [argv], and points at an
    element of [argv] while a cluster of short options is being read. *)
Definition in_bounds (argv : list string) (st : Getopt.state) : Prop :=
  (Getopt.optind st <= List.length argv)%nat
  /\ (Getopt.nextchar st <> "" ->
      (Getopt.optind st < List.length argv)%nat).

(** No non-option is remembered as skipped. *)
Definition unskipped (st : Getopt.state) : Prop :=
  Getopt.first_nonopt st = Getopt.last_nonopt st.

(** The scan stands just after a ["--"] that ended it: the elements from
    [optind] to the end of [argv] are remembered as skipped. *)
Definition dashed (argv : list string) (st : Getopt.state) : Prop :=
  Getopt.first_nonopt st = Getopt.optind st
  /\ Getopt.last_nonopt st = List.length argv
  /\ (Getopt.optind st < List.length argv)%nat
  /\ exists j, Getopt.optind st = S j /\ nth_error argv j = Some "--".

(** The element at [cmdi] is remembered as skipped, and the scan is past
    it. *)
Definition skipped (cmdi : nat) (st : Getopt.state) : Prop :=
  Getopt.first_nonopt st = cmdi
  /\ (cmdi < Getopt.optind st)%nat
  /\ (Getopt.last_nonopt st = S cmdi
      \/ (Getopt.nextchar st = "" /\ Getopt.optind st = S cmdi
          /\ (S cmdi <= Getopt.last_nonopt st)%nat)).

(** Where a scan of options ends: at the end of [argv], at an element
    that is not an option, or just after ["--"]. *)
Definition positional_at (argv : list string) (i : nat) : Prop :=
  nth_error argv i = None
  \/ (exists a, nth_error argv i = Some a /\ Getopt.nonoption a = true)
  \/ (exists j, i = S j /\ nth_error argv j = Some "--").

(** What the scan of the options of a command leaves, for the command
    word at [cmdi]: the index [argi] it returns and the array [argv'].
    The index is past the command word and the array is as it was; or
    ["--"] ended the common options, and then the index is the one of the
    command word when only options follow it, and when the options of the
    command end with ["--"] at [argi] the command word has been moved
    behind that ["--"], to [argi]. *)
Definition scan_left (argv : list string) (cmdi argi : nat)
    (argv' : list string) : Prop :=
  ((cmdi < argi)%nat /\ argv' = argv /\ positional_at argv argi)
  \/ (nth_error argv (cmdi - 1) = Some "--"
      /\ ((argi = cmdi /\ argv' = argv)
          \/ ((cmdi < argi)%nat /\ nth_error argv argi = Some "--"
              /\ argv' = Getopt.exchange argv cmdi (S cmdi) (S argi)))).

(** The command word of a command. *)
Definition command_word (command : rr_option) : string :=
  match command with
  | RECORD => "record"
  | REPLAY => "replay"
  | DUMP_EVENTS => "dump"
  | INVALID => ""
  end.

(** The messages of [parse_args]. *)
Definition no_command_message (argv : list string) : string :=
  (exe_name argv ++ ": must specify a command" ++ newline)%string.

Definition unknown_command_message (argv : list string) (cmd : string)
  : string :=
  (exe_name argv ++ ": unknown command `" ++ cmd ++ "`" ++ newline)%string.

(** The word asks for the usage text. *)
Definition is_help (cmd : string) : bool :=
  String.eqb "help" cmd || String.eqb "-h" cmd || String.eqb "--help" cmd.

(** The word is one of the three commands. *)
Definition is_command (cmd : string) : bool :=
  String.eqb "record" cmd || String.eqb "replay" cmd || String.eqb "dump" cmd.

(** ** More sample inputs *)

Definition sample_replay_argv : list string :=
  ["rr"; "-fs"; "-w"; "2"; "replay"; "-s"; "4000"; "-f"; "11"; "-p12";
   "-a"; "-g"; "50"; "trace_0"].

Definition sample_replay_world : world :=
  world_after_parse sample_constants sample_replay_argv.

Definition sample_buffer_argv : list string :=
  ["rr"; "record"; "-n"; "-b"; "--no-syscall-buffer"; "-c"; "9"; "ls"].

Definition sample_buffer_world : world :=
  world_after_parse sample_constants sample_buffer_argv.

(** ** Vocabulary of the further properties of main *)

(** What the check of the frequency governor writes when it returns. *)
Definition governor_events (env : environment) (fl : flags) : list event :=
  if suppress_performance_warnings fl then []
  else
    match governor_file env with
    | Some (Some content) =>
        let governor :=
          drop_last (c_string (substring 0 (PATH_MAX - 1) content)) in
        if String.eqb "performance" governor then []
        else [Stderr (governor_warning governor)]
    | _ => []
    end.

(** The wait [-w] asks for. *)
Definition wait_events (fl : flags) : list event :=
  if wait_secs fl >? 0 then [Nanosleep (wait_secs fl)] else [].

(** The session, and the dump it writes when the command is [dump]. *)
Definition session_events (env : environment) (fl : flags)
    (args : list string) : list event :=
  Started (option_ fl) args
  :: match option_ fl, open_trace env args with
     | DUMP_EVENTS, Some trace =>
         [Stdout (start_dumping (raw_dump fl) trace args)]
     | _, _ => []
     end.

(** The session code [start] calls returns. *)
Definition session_returns (env : environment) (fl : flags) (exe : string)
    (args : list string) : Prop :=
  match option_ fl with
  | RECORD => record env fl exe args = true
  | REPLAY => replay env fl args = true
  | DUMP_EVENTS => open_trace env args <> None
  | INVALID => False
  end.

(** The same machine with another state of the governor file. *)
Definition with_governor (file : option (option string)) (env : environment)
  : environment :=
  mk_environment (ptrace_scope_file env) (uname_release env) file
    (nanosleep_fails env) (sched_setaffinity_fails env) (exe_path env)
    (file_exists env) (record env) (replay env) (open_trace env).

(** A machine on which the wait fails. *)
Definition sleepless_environment : environment :=
  mk_environment (Some ("0" ++ newline)%string) (Some "3.13.0-24-generic")
    (Some (Some ("ondemand" ++ newline)%string)) true false
    "/usr/bin/rr" (fun _ => true)
    (fun _ _ _ => true) (fun _ _ => true) (fun _ => Some sample_trace).

Definition sample_wait_argv : list string :=
  ["rr"; "--wait-secs=3"; "replay"].

Definition sample_wait_world : world :=
  world_after_parse sample_constants sample_wait_argv.

(** ** Vocabulary of the further properties of the library path and the
    usage text *)

(** The string has no ['/']. *)
Fixpoint no_slash (s : string) : bool :=
  match s with
  | EmptyString => true
  | String c r => negb (Ascii.eqb c "/") && no_slash r
  end.

(** [text] occurs in [s]. *)
Fixpoint contains (text s : string) : bool :=
  String.prefix text s
  || match s with
     | EmptyString => false
     | String _ r => contains text r
     end.

(** How the usage text shows an option: both forms, and ['='] after the
    long form when the option takes an argument. *)
Definition usage_entry (o : Getopt.long_option) : string :=
  ("-" ++ String (Getopt.val o) "" ++ ", --" ++ Getopt.name o
   ++ (if Getopt.has_arg o then "=" else ""))%string.

(** The options a parser accepts: its [optstring] and its table of long
    options. *)
Definition parsers : list (string * list Getopt.long_option) :=
  [ ("+c:d:fkmst:uvw:", common_opts);
    ("+c:be:i:n", record_opts);
    ("+af:g:p:qs:x:", replay_opts);
    ("r", dump_opts) ].

(** The option characters of an [optstring]. *)
Definition option_letters (optstring : string) : list ascii :=
  filter (fun c => negb (Ascii.eqb c ":"))
    (list_ascii_of_string (Getopt.option_chars optstring)).

(* ================================================================== *)
(** * Part II: properties *)
(* ================================================================== *)

(** ** Scanning numbers *)

Section Numerals.

Lemma scan_digits_numeral (d : Decimal.uint) :
  forall acc rest, ends_number rest ->
    scan_digits acc (NilEmpty.string_of_uint d ++ rest) = (uint_val acc d, rest).
Proof.
  induction d; intros acc rest Hrest; cbn [NilEmpty.string_of_uint uint_val];
    try (cbn [append scan_digits]; change (isdigit _) with true; cbv iota;
         rewrite IHd by assumption; reflexivity).
  cbn [append]. destruct rest as [|c r]; [reflexivity|].
  cbn in Hrest. cbn [scan_digits]. now rewrite Hrest.
Qed.

Lemma uint_val_pos (d : Decimal.uint) :
  forall p, uint_val (Z.pos p) d = Z.pos (Pos.of_uint_acc d p).
Proof.
  induction d; intros p; cbn [uint_val Pos.of_uint_acc]; try reflexivity;
    rewrite <- IHd; f_equal; lia.
Qed.

Lemma uint_val_zero (d : Decimal.uint) :
  uint_val 0 d = Z.of_N (Pos.of_uint d).
Proof.
  induction d; cbn [uint_val Pos.of_uint]; try reflexivity;
    try (exact IHd); cbn [Z.mul Z.add Z.of_N]; apply uint_val_pos.
Qed.

Lemma uint_val_to_uint (n : N) : uint_val 0 (N.to_uint n) = Z.of_N n.
Proof.
  rewrite uint_val_zero. change (Pos.of_uint (N.to_uint n)) with (N.of_uint (N.to_uint n)).
  now rewrite DecimalN.Unsigned.of_to.
Qed.

Lemma to_uint_nonnil (n : N) : N.to_uint n <> Decimal.Nil.
Proof.
  destruct n as [|p]; [discriminate|]. apply DecimalPos.Unsigned.to_uint_nonnil.
Qed.

(** Reading back a decimal numeral: the number, and the rest untouched. *)
Lemma scan_number_decimal (n : Z) (rest : string) :
  0 <= n -> ends_number rest ->
  scan_number (decimal n ++ rest) = Some (n, rest).
Proof.
  intros Hn Hrest. unfold decimal.
  pose proof (uint_val_to_uint (Z.to_N n)) as Hval.
  pose proof (to_uint_nonnil (Z.to_N n)) as Hnil.
  rewrite Z2N.id in Hval by assumption.
  destruct (N.to_uint (Z.to_N n)) as [|d|d|d|d|d|d|d|d|d|d];
    [congruence | ..];
    cbn [NilZero.string_of_uint NilEmpty.string_of_uint append scan_number];
    change (isdigit _) with true; cbv iota;
    rewrite scan_digits_numeral by assumption;
    cbn [uint_val] in Hval; cbn [Z.mul Z.add] in Hval;
    (rewrite <- Hval; reflexivity).
Qed.

(** A decimal numeral starts with a digit. *)
Lemma decimal_head (n : Z) (rest : string) :
  exists c r, (decimal n ++ rest)%string = String c r /\ isdigit c = true.
Proof.
  unfold decimal. pose proof (to_uint_nonnil (Z.to_N n)) as Hnil.
  destruct (N.to_uint (Z.to_N n)); [congruence | ..];
    cbn [NilZero.string_of_uint NilEmpty.string_of_uint append];
    eexists; eexists; (split; [reflexivity | reflexivity]).
Qed.

Lemma isdigit_not_space (c : ascii) : isdigit c = true -> isspace c = false.
Proof.
  unfold isdigit, isspace. intros H.
  apply andb_true_iff in H as [H1 H2].
  apply Z.leb_le in H1.
  destruct (Z.eqb_spec (Z.of_N (N_of_ascii c)) 32); [lia|].
  destruct (Z.leb_spec (Z.of_N (N_of_ascii c)) 13); [lia|].
  now rewrite andb_false_r.
Qed.

Lemma isdigit_not_sign (c : ascii) (r : string) :
  isdigit c = true -> scan_sign (String c r) = (false, String c r).
Proof.
  intros H. unfold scan_sign.
  destruct (Ascii.eqb_spec c "-") as [->|]; [discriminate H|].
  destruct (Ascii.eqb_spec c "+") as [->|]; [discriminate H|].
  destruct c as [[] [] [] [] [] [] [] []]; try reflexivity; congruence.
Qed.

(** [%u] reads back a decimal numeral of an [unsigned int]. *)
Lemma scan_u_decimal (n : Z) (rest : string) :
  is_uint32 n -> ends_number rest ->
  scan_u (decimal n ++ rest) = Converted n rest.
Proof.
  intros [Hlo Hhi] Hrest. unfold scan_u.
  destruct (decimal_head n rest) as (c & r & Heq & Hc).
  pose proof (scan_number_decimal n rest Hlo Hrest) as Hnum.
  rewrite Heq in *. cbn [skip_space]. rewrite (isdigit_not_space c Hc).
  rewrite (isdigit_not_sign c r Hc), Hnum.
  unfold strtoul_value, ULONG_MAX.
  destruct (Z.gtb_spec n UINT_MAX); [lia|].
  unfold to_uint32. rewrite Z.mod_small; [reflexivity|]. unfold UINT_MAX in *. lia.
Qed.

End Numerals.

(** ** The bounds of an event spec *)

Section SpecBounds.

Lemma append_empty (s : string) : (s ++ "")%string = s.
Proof. induction s; cbn; [reflexivity | now f_equal]. Qed.

Lemma sscanf_range_spec (a b start end_ : Z) :
  is_uint32 a -> is_uint32 b ->
  sscanf_u_dash_u (range_spec a b) start end_ = (2, a, b).
Proof.
  intros Ha Hb. unfold sscanf_u_dash_u, range_spec.
  rewrite scan_u_decimal by (assumption || reflexivity).
  cbn [append]. rewrite <- (append_empty (decimal b)).
  rewrite scan_u_decimal by (assumption || exact I). reflexivity.
Qed.

Lemma spec_bounds_range (a b : Z) :
  is_uint32 a -> is_uint32 b ->
  spec_bounds (Some (range_spec a b)) = (a, b).
Proof.
  intros Ha Hb. unfold spec_bounds. now rewrite sscanf_range_spec.
Qed.

Lemma spec_bounds_all : spec_bounds None = (0, UINT_MAX).
Proof. reflexivity. Qed.

End SpecBounds.

(** ** The scan of the trace *)

Section DumpLoop.

Variable raw_dump : bool.

(** The recursion is the source's loop: test [good], read a frame, then
    leave, print or skip. *)
Lemma dump_loop_unfold (start end_ : Z) (trace : TraceIfstream) (out : FILE) :
  dump_loop start end_ raw_dump trace out =
  if good trace then
    match read_frame trace with
    | Some (frame, trace') =>
        if end_ <? global_time frame then (trace', out)
        else if (start <=? global_time frame) && (global_time frame <=? end_)
        then dump_loop start end_ raw_dump trace'
               (out ++ [FrameLine frame raw_dump])
        else dump_loop start end_ raw_dump trace' out
    | None => (trace, out)
    end
  else (trace, out).
Proof. destruct trace; reflexivity. Qed.

Lemma frames_of_app (o1 o2 : FILE) :
  frames_of (o1 ++ o2) = frames_of o1 ++ frames_of o2.
Proof.
  induction o1 as [|[t|f r] o1 IH]; cbn; [reflexivity | exact IH | now f_equal].
Qed.

Lemma increasing_tail (f : trace_frame) (trace : list trace_frame) :
  increasing (f :: trace) -> increasing trace.
Proof. unfold increasing. cbn. intros H. now inversion H. Qed.

(** In an increasing trace every later frame has a larger time. *)
Lemma increasing_later (f : trace_frame) (trace : list trace_frame) :
  increasing (f :: trace) ->
  Forall (fun g => global_time f < global_time g) trace.
Proof.
  unfold increasing. cbn. intros H.
  apply Sorted_StronglySorted in H; [| intros x y z; lia].
  inversion H as [|x l _ Hall]; subst.
  rewrite Forall_forall in *. intros g Hg. apply Hall, in_map, Hg.
Qed.

Lemma filter_none_beyond (a b : Z) (trace : list trace_frame) :
  Forall (fun g => b < global_time g) trace ->
  filter (in_range a b) trace = [].
Proof.
  induction 1 as [|g l Hg _ IH]; cbn; [reflexivity|].
  unfold in_range at 1. destruct (Z.leb_spec (global_time g) b); [lia|].
  now rewrite andb_false_r.
Qed.

(** On an increasing trace the scan prints exactly the frames of the
    interval, in trace order, after what was printed before. *)
Lemma dump_loop_filter (a b : Z) (trace : list trace_frame) :
  increasing trace ->
  forall out,
    snd (dump_loop a b raw_dump trace out) =
    out ++ frame_lines raw_dump (filter (in_range a b) trace).
Proof.
  induction trace as [|f trace IH]; intros Hinc out; cbn [dump_loop].
  - cbn. now rewrite app_nil_r.
  - pose proof (increasing_later _ _ Hinc) as Hlater.
    specialize (IH (increasing_tail _ _ Hinc)).
    destruct (Z.ltb_spec b (global_time f)) as [Hend|Hend].
    + cbn [snd]. rewrite filter_none_beyond; [cbn; now rewrite app_nil_r|].
      constructor; [assumption|].
      eapply Forall_impl; [|exact Hlater]. cbn. intros; lia.
    + cbn [filter]. fold (in_range a b f).
      destruct (in_range a b f).
      * rewrite IH. cbn. now rewrite <- app_assoc.
      * apply IH.
Qed.

(** Without bounds the scan prints every frame. *)
Lemma dump_loop_all (trace : list trace_frame) :
  wf_trace trace ->
  forall out,
    snd (dump_loop 0 UINT_MAX raw_dump trace out) =
    out ++ frame_lines raw_dump trace.
Proof.
  induction 1 as [|f l [Hlo Hhi] _ IH]; intros out; cbn [dump_loop].
  - cbn. now rewrite app_nil_r.
  - destruct (Z.ltb_spec UINT_MAX (global_time f)); [lia|].
    destruct (Z.leb_spec 0 (global_time f)); [|lia].
    destruct (Z.leb_spec (global_time f) UINT_MAX); [|lia].
    cbn [andb]. rewrite IH. cbn. now rewrite <- app_assoc.
Qed.

Lemma frames_of_lines (frames : list trace_frame) :
  frames_of (frame_lines raw_dump frames) = frames.
Proof. induction frames; cbn; [reflexivity | now f_equal]. Qed.

(** In an increasing trace a time occurs at most once. *)
Lemma filter_single (t : Z) (f : trace_frame) (trace : list trace_frame) :
  increasing trace -> In f trace -> global_time f = t ->
  filter (in_range t t) trace = [f].
Proof.
  induction trace as [|g trace IH]; intros Hinc Hin Ht; [destruct Hin|].
  pose proof (increasing_later _ _ Hinc) as Hlater.
  cbn [filter]. destruct Hin as [->|Hin].
  - unfold in_range at 1. rewrite Ht, Z.leb_refl. cbn [andb]. f_equal.
    apply filter_none_beyond.
    eapply Forall_impl; [|exact Hlater]. cbn. intros; lia.
  - rewrite Forall_forall in Hlater. specialize (Hlater f Hin).
    unfold in_range at 1. destruct (Z.leb_spec t (global_time g)); [lia|].
    cbn [andb]. apply IH; [eapply increasing_tail; eassumption | assumption..].
Qed.

End DumpLoop.

Section Dumping.

Variable raw_dump : bool.

Lemma start_dumping_no_spec (trace : TraceIfstream) (dir : string) :
  start_dumping raw_dump trace [dir] =
  snd (dump_loop 0 UINT_MAX raw_dump trace [Text dump_header]).
Proof. reflexivity. Qed.

Lemma start_dumping_one_spec (trace : TraceIfstream) (dir spec : string) :
  start_dumping raw_dump trace [dir; spec] =
  snd (dump_events_matching raw_dump trace [Text dump_header] (Some spec)).
Proof.
  unfold start_dumping. cbn [List.length Z.of_nat Z.eqb tl dump_specs].
  cbn. now destruct (dump_events_matching _ _ _ _).
Qed.

(** Without a spec every frame is printed. *)
Lemma dump_all (trace : TraceIfstream) (dir : string) :
  wf_trace trace ->
  start_dumping raw_dump trace [dir] =
  Text dump_header :: frame_lines raw_dump trace.
Proof.
  intros Hwf. rewrite start_dumping_no_spec. now rewrite dump_loop_all.
Qed.

(** With one spec whose bounds are [a] and [b], on an increasing trace,
    exactly the frames of the interval are printed. *)
Lemma dump_bounds (trace : TraceIfstream) (dir spec : string) (a b : Z) :
  increasing trace -> spec_bounds (Some spec) = (a, b) ->
  start_dumping raw_dump trace [dir; spec] =
  Text dump_header :: frame_lines raw_dump (filter (in_range a b) trace).
Proof.
  intros Hinc Hspec. rewrite start_dumping_one_spec.
  unfold dump_events_matching. rewrite Hspec.
  now rewrite dump_loop_filter.
Qed.

End Dumping.

(** ** The scans of the options terminate *)

Section GetoptTermination.

Variable argv : list string.

Lemma argv_size_skipn_succ (i : nat) :
  (argv_size (skipn (S i) argv) <= argv_size (skipn i argv))%nat.
Proof.
  revert i. induction argv as [|a l IH]; intros i; [destruct i; cbn; lia|].
  destruct i as [|i]; [cbn; lia|]. exact (IH i).
Qed.

Lemma argv_size_skipn (i : nat) :
  (argv_size (skipn i argv) <= argv_size argv)%nat.
Proof.
  induction i as [|i IH]; [apply Nat.le_refl|].
  pose proof (argv_size_skipn_succ i). lia.
Qed.

Lemma argv_size_nth (i : nat) (a : string) :
  nth_error argv i = Some a ->
  argv_size (skipn i argv)
  = (S (String.length a) + argv_size (skipn (S i) argv))%nat.
Proof.
  revert i. induction argv as [|b l IH]; intros i H; [destruct i; discriminate|].
  destruct i as [|i]; [injection H as ->; reflexivity|]. exact (IH i H).
Qed.

Lemma short_opt_remaining (optstring : string) (c : ascii) (rest : string)
    (st st' : Getopt.state) (r : Getopt.ret) :
  Getopt.short_opt argv optstring c rest st = (r, st') ->
  (remaining argv st'
   <= String.length rest + argv_size (skipn (S (Getopt.optind st)) argv))%nat.
Proof.
  unfold Getopt.short_opt. pose proof (argv_size_skipn_succ (S (Getopt.optind st))).
  destruct (Getopt.short_spec optstring c) as [[|]|];
    destruct rest as [|x rest'];
    try destruct (nth_error argv (S (Getopt.optind st)));
    intros H'; injection H' as <- <-; unfold remaining;
    cbn [Getopt.moved Getopt.nextchar Getopt.optind String.length]; lia.
Qed.

Lemma long_opt_remaining (longopts : list Getopt.long_option) (text : string)
    (st st' : Getopt.state) (r : Getopt.ret) :
  Getopt.long_opt argv longopts text st = (r, st') ->
  (remaining argv st' <= argv_size (skipn (S (Getopt.optind st)) argv))%nat.
Proof.
  unfold Getopt.long_opt. pose proof (argv_size_skipn_succ (S (Getopt.optind st))).
  destruct (Getopt.split_eq text) as [key value].
  destruct (Getopt.find_long longopts key) as [o|];
    [destruct value, (Getopt.has_arg o);
     try destruct (nth_error argv (S (Getopt.optind st)))|];
    intros H'; injection H' as <- <-; unfold remaining;
    cbn [Getopt.moved Getopt.nextchar Getopt.optind String.length]; lia.
Qed.

(** The steps that read options never return -1. *)
Lemma short_opt_option (optstring : string) (c : ascii) (rest : string)
    (st st' : Getopt.state) :
  Getopt.short_opt argv optstring c rest st <> (Getopt.Done, st').
Proof.
  unfold Getopt.short_opt.
  destruct (Getopt.short_spec optstring c) as [[|]|];
    [destruct rest; [destruct (nth_error argv _)|]|..]; discriminate.
Qed.

Lemma long_opt_option (longopts : list Getopt.long_option) (text : string)
    (st st' : Getopt.state) :
  Getopt.long_opt argv longopts text st <> (Getopt.Done, st').
Proof.
  unfold Getopt.long_opt. destruct (Getopt.split_eq text) as [key value].
  destruct (Getopt.find_long longopts key) as [o|]; [|discriminate].
  destruct value, (Getopt.has_arg o); try discriminate.
  destruct (nth_error argv _); discriminate.
Qed.

(** The calls of [getopt_long], by what they return.  A call returns an
    option from a cluster that is being read, or from the element at
    [optind]; it returns -1 at the end of [argv], at ["--"] and at a
    non-option. *)
Lemma getopt_long_cases (optstring : string)
    (longopts : list Getopt.long_option) (st : Getopt.state) :
  (exists x rest,
     Getopt.nextchar st = String x rest
     /\ Getopt.getopt_long argv optstring longopts st =
        (Getopt.short_opt argv optstring x rest st, argv))
  \/ (Getopt.nextchar st = ""
      /\ ((nth_error argv (Getopt.optind st) = None
           /\ Getopt.getopt_long argv optstring longopts st =
              (Getopt.end_of_scan
                 (Getopt.moved (Getopt.rational st) (Getopt.optind st) "" None),
               argv))
          \/ (nth_error argv (Getopt.optind st) = Some "--"
              /\ Getopt.getopt_long argv optstring longopts st =
                 Getopt.end_of_options argv (Getopt.rational st))
          \/ (exists a,
                nth_error argv (Getopt.optind st) = Some a
                /\ Getopt.nonoption a = true
                /\ Getopt.getopt_long argv optstring longopts st =
                   (Getopt.Done,
                    Getopt.moved (Getopt.rational st) (Getopt.optind st) "" None,
                    argv))
          \/ (exists a1 rest,
                nth_error argv (Getopt.optind st)
                = Some (String a1 (String "-" rest))
                /\ Getopt.getopt_long argv optstring longopts st =
                   (Getopt.long_opt argv longopts rest (Getopt.rational st),
                    argv))
          \/ (exists a1 c rest,
                nth_error argv (Getopt.optind st)
                = Some (String a1 (String c rest))
                /\ Getopt.getopt_long argv optstring longopts st =
                   (Getopt.short_opt argv optstring c rest (Getopt.rational st),
                    argv)))).
Proof.
  unfold Getopt.getopt_long.
  destruct (Getopt.nextchar st) as [|x rest]; [right | left; eauto].
  split; [reflexivity|]. cbn [Getopt.rational Getopt.optind].
  destruct (nth_error argv (Getopt.optind st)) as [a|]; [|left; now split].
  right. destruct (String.eqb_spec a "--") as [->|Hdash]; [left; now split|].
  right. destruct (Getopt.nonoption a) eqn:Hnon; [left; eauto|].
  right. destruct a as [|a1 [|a2 a]]; try discriminate Hnon.
  destruct (Ascii.eqb_spec a2 "-") as [->|_]; [left | right]; eauto.
Qed.

(** A call that returns an option consumes some of [argv], and leaves
    the array as it is. *)
Lemma getopt_long_consumes (optstring : string)
    (longopts : list Getopt.long_option) (st st' : Getopt.state) (c : ascii)
    (argv' : list string) :
  Getopt.getopt_long argv optstring longopts st = (Getopt.Opt c, st', argv') ->
  argv' = argv /\ (remaining argv st' < remaining argv st)%nat.
Proof.
  unfold remaining at 2.
  destruct (getopt_long_cases optstring longopts st)
    as [(x & rest & Hnext & ->)
       | (Hnext & [[_ ->] | [[_ ->] | [(a & _ & _ & ->)
                  | [(a1 & rest & Hnth & ->) | (a1 & x & rest & Hnth & ->)]]]])];
    rewrite Hnext.
  - intros H. injection H as H <-. split; [reflexivity|].
    apply short_opt_remaining in H. lia.
  - discriminate.
  - unfold Getopt.end_of_options.
    destruct (_ && _); [|destruct (_ =? _)%nat]; discriminate.
  - discriminate.
  - intros H. injection H as H <-. split; [reflexivity|].
    rewrite (argv_size_nth _ _ Hnth). cbn [String.length].
    apply long_opt_remaining in H. cbn [Getopt.rational Getopt.optind] in H. lia.
  - intros H. injection H as H <-. split; [reflexivity|].
    rewrite (argv_size_nth _ _ Hnth). cbn [String.length].
    apply short_opt_remaining in H. cbn [Getopt.rational Getopt.optind] in H. lia.
Qed.

(** The call that returns an option is a step of [short_opt] or of
    [long_opt]. *)
Lemma getopt_long_option (optstring : string)
    (longopts : list Getopt.long_option) (st st' : Getopt.state) (c : ascii)
    (argv' : list string) :
  Getopt.getopt_long argv optstring longopts st = (Getopt.Opt c, st', argv') ->
  argv' = argv
  /\ exists st0,
       ((st0 = st /\ Getopt.nextchar st <> "")
        \/ (st0 = Getopt.rational st /\ Getopt.nextchar st = ""))
       /\ ((exists x rest,
              Getopt.short_opt argv optstring x rest st0 = (Getopt.Opt c, st'))
           \/ (exists text,
                 Getopt.long_opt argv longopts text st0 = (Getopt.Opt c, st'))).
Proof.
  destruct (getopt_long_cases optstring longopts st)
    as [(x & rest & Hnext & ->)
       | (Hnext & [[_ ->] | [[_ ->] | [(a & _ & _ & ->)
                  | [(a1 & rest & Hnth & ->) | (a1 & x & rest & Hnth & ->)]]]])].
  - intros H. injection H as H <-. split; [reflexivity|]. exists st.
    split; [left; split; [reflexivity | now rewrite Hnext] | eauto].
  - discriminate.
  - unfold Getopt.end_of_options.
    destruct (_ && _); [|destruct (_ =? _)%nat]; discriminate.
  - discriminate.
  - intros H. injection H as H <-. split; [reflexivity|].
    exists (Getopt.rational st). split; [now right | eauto].
  - intros H. injection H as H <-. split; [reflexivity|].
    exists (Getopt.rational st). split; [now right | eauto].
Qed.

(** After -1 the scan is between elements of [argv]. *)
Lemma getopt_long_done (optstring : string)
    (longopts : list Getopt.long_option) (st st' : Getopt.state)
    (argv' : list string) :
  Getopt.getopt_long argv optstring longopts st = (Getopt.Done, st', argv') ->
  Getopt.nextchar st' = "" /\ Getopt.optarg st' = None.
Proof.
  destruct (getopt_long_cases optstring longopts st)
    as [(x & rest & Hnext & ->)
       | (Hnext & [[_ ->] | [[_ ->] | [(a & _ & _ & ->)
                  | [(a1 & rest & Hnth & ->) | (a1 & x & rest & Hnth & ->)]]]])].
  - intros H. injection H as H _. now apply short_opt_option in H.
  - intros H. injection H as <- _. now split.
  - unfold Getopt.end_of_options.
    destruct (_ && _); [|destruct (_ =? _)%nat];
      intros H; injection H as <- _; now split.
  - intros H. injection H as <- _. now split.
  - intros H. injection H as H _. now apply long_opt_option in H.
  - intros H. injection H as H _. now apply short_opt_option in H.
Qed.

(** The steps that read options leave [first_nonopt] and
    [last_nonopt] alone. *)
Lemma short_opt_keeps (optstring : string) (c : ascii) (rest : string)
    (st st' : Getopt.state) (r : Getopt.ret) :
  Getopt.short_opt argv optstring c rest st = (r, st') ->
  Getopt.first_nonopt st' = Getopt.first_nonopt st
  /\ Getopt.last_nonopt st' = Getopt.last_nonopt st.
Proof.
  unfold Getopt.short_opt.
  destruct (Getopt.short_spec optstring c) as [[|]|];
    [destruct rest; [destruct (nth_error argv _)|]|..];
    intros H; injection H as _ <-; now split.
Qed.

Lemma long_opt_keeps (longopts : list Getopt.long_option) (text : string)
    (st st' : Getopt.state) (r : Getopt.ret) :
  Getopt.long_opt argv longopts text st = (r, st') ->
  Getopt.first_nonopt st' = Getopt.first_nonopt st
  /\ Getopt.last_nonopt st' = Getopt.last_nonopt st.
Proof.
  unfold Getopt.long_opt. destruct (Getopt.split_eq text) as [key value].
  destruct (Getopt.find_long longopts key) as [o|];
    [destruct value, (Getopt.has_arg o); try destruct (nth_error argv _)|];
    intros H; injection H as _ <-; now split.
Qed.

(** While no non-option has been skipped ([first_nonopt] is
    [last_nonopt]) a call leaves the array as it is, and after an option
    nothing has been skipped yet. *)
Lemma getopt_long_unmoved (optstring : string)
    (longopts : list Getopt.long_option) (st st' : Getopt.state)
    (r : Getopt.ret) (argv' : list string) :
  Getopt.first_nonopt st = Getopt.last_nonopt st ->
  Getopt.getopt_long argv optstring longopts st = (r, st', argv') ->
  argv' = argv
  /\ (r <> Getopt.Done -> Getopt.first_nonopt st' = Getopt.last_nonopt st').
Proof.
  intros Heq.
  destruct (getopt_long_cases optstring longopts st)
    as [(x & rest & Hnext & ->)
       | (Hnext & [[_ ->] | [[_ ->] | [(a & _ & _ & ->)
                  | [(a1 & rest & Hnth & ->) | (a1 & x & rest & Hnth & ->)]]]])].
  - intros H. injection H as H <-. split; [reflexivity|]. intros _.
    apply short_opt_keeps in H as [-> ->]. exact Heq.
  - intros H. injection H as <- _ <-. now split.
  - unfold Getopt.end_of_options. cbn [Getopt.rational Getopt.first_nonopt
      Getopt.last_nonopt Getopt.optind]. rewrite Heq, Nat.eqb_refl.
    cbn [negb andb]. intros H. injection H as <- _ <-. now split.
  - intros H. injection H as <- _ <-. now split.
  - intros H. injection H as H <-. split; [reflexivity|]. intros _.
    apply long_opt_keeps in H as [-> ->].
    cbn [Getopt.rational Getopt.first_nonopt Getopt.last_nonopt]. now rewrite Heq.
  - intros H. injection H as H <-. split; [reflexivity|]. intros _.
    apply short_opt_keeps in H as [-> ->].
    cbn [Getopt.rational Getopt.first_nonopt Getopt.last_nonopt]. now rewrite Heq.
Qed.

End GetoptTermination.

(** ** What a scan does to the flags *)

Section Scans.

Variable argv : list string.
Variable optstring : string.
Variable longopts : list Getopt.long_option.
Variable cases : ascii -> option string -> switch_case.

(** The loop of a parser is the fold of its cases over the options the
    scan reports; what it returns does not depend on the flags. *)
Lemma getopt_while_eq (fuel : nat) :
  forall st fl,
    getopt_while fuel argv optstring longopts cases st fl =
    match scan_end fuel argv optstring longopts cases st with
    | Some (r, st') =>
        Some (mk_parse r st'
                (fold_left (apply_case cases)
                   (scan_options fuel argv optstring longopts cases st) fl)
                (scan_argv fuel argv optstring longopts cases st))
    | None => None
    end.
Proof.
  induction fuel as [|fuel IH]; intros st fl;
    cbn [getopt_while scan_end scan_options scan_argv]; [reflexivity|].
  destruct (Getopt.getopt_long argv optstring longopts st) as [[[|c] st'] argv']
    eqn:Hcall; [reflexivity|].
  apply getopt_long_consumes in Hcall as [-> _].
  destruct (cases c (Getopt.optarg st')) as [assign|] eqn:Hcase; [|reflexivity].
  rewrite IH. destruct (scan_end fuel argv optstring longopts cases st') as [[r st'']|];
    [|reflexivity].
  cbn [fold_left]. unfold apply_case at 3. cbn [fst snd]. now rewrite Hcase.
Qed.

(** A scan that starts with no non-option skipped leaves the array as
    it is. *)
Lemma scan_argv_unmoved (fuel : nat) :
  forall st, Getopt.first_nonopt st = Getopt.last_nonopt st ->
    scan_argv fuel argv optstring longopts cases st = argv.
Proof.
  induction fuel as [|fuel IH]; intros st Heq; cbn [scan_argv]; [reflexivity|].
  destruct (Getopt.getopt_long argv optstring longopts st) as [[r st'] argv']
    eqn:Hcall.
  destruct (getopt_long_unmoved argv _ _ _ _ _ _ Heq Hcall) as [-> Hkeep].
  destruct r as [|c]; [reflexivity|].
  destruct (cases c (Getopt.optarg st')); [|reflexivity].
  apply IH, Hkeep. discriminate.
Qed.

(** With more fuel than characters left, the scan finishes. *)
Lemma scan_end_total (fuel : nat) :
  forall st, (remaining argv st < fuel)%nat ->
    exists r st', scan_end fuel argv optstring longopts cases st = Some (r, st').
Proof.
  induction fuel as [|fuel IH]; intros st Hlt; [lia|]. cbn [scan_end].
  destruct (Getopt.getopt_long argv optstring longopts st) as [[[|c] st'] argv']
    eqn:Hcall; [eauto|].
  apply getopt_long_consumes in Hcall as [-> Hcall].
  destruct (cases c (Getopt.optarg st')); [|eauto].
  apply IH. lia.
Qed.

(** A scan returns -1, or [optind] on reaching a non-option, and is then
    between elements of [argv]. *)
Lemma scan_end_result (fuel : nat) :
  forall st r st',
    scan_end fuel argv optstring longopts cases st = Some (r, st') ->
    r = -1 \/ (r = Z.of_nat (Getopt.optind st') /\ Getopt.nextchar st' = "").
Proof.
  induction fuel as [|fuel IH]; intros st r st'; [discriminate|]. cbn [scan_end].
  destruct (Getopt.getopt_long argv optstring longopts st) as [[[|c] st1] argv']
    eqn:Hcall.
  - intros H. injection H as <- <-. right. split; [reflexivity|].
    now apply getopt_long_done in Hcall.
  - apply getopt_long_consumes in Hcall as [-> _].
    destruct (cases c (Getopt.optarg st1)).
    + apply IH.
    + intros H. injection H as <- <-. now left.
Qed.

Lemma scan_fuel_enough (st : Getopt.state) :
  Getopt.nextchar st = "" -> (remaining argv st < scan_fuel argv)%nat.
Proof.
  intros H. unfold remaining, scan_fuel. rewrite H.
  pose proof (argv_size_skipn argv (Getopt.optind st)). lia.
Qed.

End Scans.

(** ** The cases of the switches *)

Ltac by_char c := destruct c as [[] [] [] [] [] [] [] []].

Ltac split_ifs :=
  repeat match goal with
         | |- context [if ?b then _ else _] => destruct b
         end.

Section Folds.

Context {A : Type}.
Variable field : flags -> A.
Variable cases : ascii -> option string -> switch_case.

(** A member no case assigns keeps its value through a scan. *)
Lemma fold_preserves :
  (forall c a fl, field (apply_case cases fl (c, a)) = field fl) ->
  forall opts fl, field (fold_left (apply_case cases) opts fl) = field fl.
Proof.
  intros Hcase opts. induction opts as [|[c a] opts IH]; intros fl; cbn [fold_left];
    [reflexivity|].
  now rewrite IH, Hcase.
Qed.

(** A member only option [x] assigns holds what its last occurrence
    assigned. *)
Lemma fold_last_arg (x : ascii) (g : option string -> A) :
  (forall c a fl,
     field (apply_case cases fl (c, a)) =
     if Ascii.eqb c x then g a else field fl) ->
  forall opts fl,
    field (fold_left (apply_case cases) opts fl) =
    match last_arg x opts with
    | Some a => g a
    | None => field fl
    end.
Proof.
  intros Hcase opts. induction opts as [|[c a] opts IH]; intros fl;
    cbn [fold_left last_arg]; [reflexivity|].
  rewrite IH. destruct (last_arg x opts); [reflexivity|].
  rewrite Hcase. now destruct (Ascii.eqb c x).
Qed.

End Folds.

Lemma last_arg_given (x : ascii) (opts : list (ascii * option string)) :
  given x opts <-> exists a, last_arg x opts = Some a.
Proof.
  unfold given. induction opts as [|[c a] opts IH]; cbn [map fst In last_arg].
  - split; [intros [] | intros [a H]; discriminate].
  - split.
    + intros [->|Hin].
      * destruct (last_arg x opts); [eauto|]. rewrite Ascii.eqb_refl. eauto.
      * apply IH in Hin as [b ->]. eauto.
    + intros [b Hb]. destruct (last_arg x opts) as [b'|].
      * right. apply IH. eauto.
      * destruct (Ascii.eqb_spec c x); [now left | discriminate].
Qed.

Section Cases.

Variable K : constants.

Lemma record_case_max_rbc c a fl :
  max_rbc (apply_case record_case fl (c, a)) =
  if Ascii.eqb c "c" then MAX 1 (atoi (cstr a)) else max_rbc fl.
Proof. by_char c; reflexivity. Qed.

Lemma record_case_max_events c a fl :
  max_events (apply_case record_case fl (c, a)) =
  if Ascii.eqb c "e" then MAX 1 (atoi (cstr a)) else max_events fl.
Proof. by_char c; reflexivity. Qed.

Lemma record_case_ignore_sig c a fl :
  ignore_sig (apply_case record_case fl (c, a)) =
  if Ascii.eqb c "i" then MIN (_NSIG - 1) (MAX 1 (atoi (cstr a)))
  else ignore_sig fl.
Proof. by_char c; reflexivity. Qed.

Lemma record_case_frame c a fl :
  let fl' := apply_case record_case fl (c, a) in
  option_ fl' = option_ fl /\ checksum fl' = checksum fl
  /\ cpu_unbound fl' = cpu_unbound fl /\ raw_dump fl' = raw_dump fl.
Proof. by_char c; repeat split; reflexivity. Qed.

Lemma replay_case_frame c a fl :
  let fl' := apply_case replay_case fl (c, a) in
  option_ fl' = option_ fl /\ checksum fl' = checksum fl
  /\ cpu_unbound fl' = cpu_unbound fl /\ raw_dump fl' = raw_dump fl.
Proof. by_char c; repeat split; reflexivity. Qed.

Lemma dump_case_frame c a fl :
  let fl' := apply_case dump_case fl (c, a) in
  option_ fl' = option_ fl /\ checksum fl' = checksum fl
  /\ cpu_unbound fl' = cpu_unbound fl.
Proof. by_char c; repeat split; reflexivity. Qed.

Lemma dump_case_raw_dump c a fl :
  raw_dump (apply_case dump_case fl (c, a)) =
  if Ascii.eqb c "r" then true else raw_dump fl.
Proof. by_char c; reflexivity. Qed.

Lemma common_case_frame c a fl :
  let fl' := apply_case (common_case K) fl (c, a) in
  option_ fl' = option_ fl /\ raw_dump fl' = raw_dump fl.
Proof.
  by_char c; repeat split; try reflexivity;
    unfold apply_case; cbn; split_ifs; reflexivity.
Qed.

Lemma common_case_checksum c a fl :
  checksum (apply_case (common_case K) fl (c, a)) =
  if Ascii.eqb c "c" then checksum_mode K a else checksum fl.
Proof.
  by_char c; try reflexivity.
  unfold apply_case, checksum_mode; cbn; split_ifs; reflexivity.
Qed.

Lemma common_case_cpu_unbound c a fl :
  cpu_unbound (apply_case (common_case K) fl (c, a)) =
  if Ascii.eqb c "u" then true else cpu_unbound fl.
Proof.
  by_char c; try reflexivity.
  unfold apply_case; cbn; split_ifs; reflexivity.
Qed.

End Cases.

(** ** parse_args *)

Section ParseArgs.

Variable K : constants.
Variable argv : list string.

Lemma common_end_total :
  exists cmdi st, common_end K argv = Some (cmdi, st).
Proof.
  apply scan_end_total, scan_fuel_enough. reflexivity.
Qed.

Lemma command_scan_total (optstring : string)
    (longopts : list Getopt.long_option)
    (cases : ascii -> option string -> switch_case)
    (cmdi : Z) (st : Getopt.state) :
  common_end K argv = Some (cmdi, st) -> 0 <= cmdi ->
  exists r st',
    scan_end (scan_fuel argv) argv optstring longopts cases
      (set_optind (cmdi + 1) st) = Some (r, st').
Proof.
  intros Hend Hpos. apply scan_end_total, scan_fuel_enough.
  apply scan_end_result in Hend as [->|[_ Hnext]]; [lia|]. exact Hnext.
Qed.

(** [parse_args] always returns; it writes nothing but messages on
    [stderr]. *)
Lemma parse_args_parsed :
  exists r w',
    parse_args K argv initial_world = Ret r w'
    /\ parsed K argv r (w_flags w')
    /\ Forall is_stderr (w_events w').
Proof.
  destruct common_end_total as (cmdi & st & Hend).
  unfold parse_args, bind, modify_flags, run_parser, parse_common_args, ret, emit.
  cbn [initial_world w_flags w_getopt w_events].
  rewrite getopt_while_eq.
  fold (common_end K argv) (common_options K argv) (after_common K argv).
  rewrite Hend, scan_argv_unmoved by reflexivity.
  unfold get_argv. cbn [w_flags w_getopt w_events w_argv p_result p_flags p_getopt p_argv app].
  destruct (Z.gtb_spec 0 cmdi) as [Hneg|Hpos].
  { eexists _, _. split; [reflexivity|]. cbn. split; [now constructor 1 | constructor]. }
  destruct ((0 =? cmdi) || (cmdi >=? argc_of argv)).
  { eexists _, _. split; [reflexivity|]. cbn.
    split; [now constructor 1 | repeat constructor]. }
  assert (Hcmd : 0 <= cmdi) by lia.
  destruct (String.eqb "record" (arg argv cmdi)).
  { unfold parse_record_args. cbn [w_flags w_getopt w_events].
    rewrite getopt_while_eq.
    destruct (command_scan_total "+c:be:i:n" record_opts record_case _ _ Hend Hcmd)
      as (r & st' & ->).
    eexists _, _. split; [reflexivity|]. cbn [w_flags w_events].
    split; [|constructor]. constructor 2. unfold record_options. now rewrite Hend. }
  destruct (String.eqb "replay" (arg argv cmdi)).
  { unfold parse_replay_args. cbn [w_flags w_getopt w_events].
    rewrite getopt_while_eq.
    destruct (command_scan_total "+af:g:p:qs:x:" replay_opts replay_case _ _ Hend Hcmd)
      as (r & st' & ->).
    eexists _, _. split; [reflexivity|]. cbn [w_flags w_events].
    split; [|constructor]. constructor 3. unfold replay_options. now rewrite Hend. }
  destruct (String.eqb "dump" (arg argv cmdi)).
  { unfold parse_dump_args. cbn [w_flags w_getopt w_events].
    rewrite getopt_while_eq.
    destruct (command_scan_total "r" dump_opts dump_case _ _ Hend Hcmd)
      as (r & st' & ->).
    eexists _, _. split; [reflexivity|]. cbn [w_flags w_events].
    split; [|constructor]. constructor 4. unfold dump_options. now rewrite Hend. }
  destruct (String.eqb "help" (arg argv cmdi) || String.eqb "-h" (arg argv cmdi)
            || String.eqb "--help" (arg argv cmdi)).
  { eexists _, _. split; [reflexivity|]. cbn.
    split; [now constructor 1 | repeat constructor]. }
  eexists _, _. split; [reflexivity|]. cbn.
  split; [now constructor 1 | repeat constructor].
Qed.

End ParseArgs.

(** ** The flags after parse_args *)

Section ParsedFlags.

Variable K : constants.
Variable argv : list string.

Lemma after_common_option : option_ (after_common K argv) = INVALID.
Proof.
  unfold after_common.
  rewrite (fold_preserves option_ (common_case K)); [reflexivity|].
  intros c a fl. apply (common_case_frame K c a fl).
Qed.

Lemma after_common_raw_dump : raw_dump (after_common K argv) = false.
Proof.
  unfold after_common.
  rewrite (fold_preserves raw_dump (common_case K)); [reflexivity|].
  intros c a fl. apply (common_case_frame K c a fl).
Qed.

Lemma after_common_checksum :
  checksum (after_common K argv) =
  match last_arg "c" (common_options K argv) with
  | Some a => checksum_mode K a
  | None => CHECKSUM_NONE K
  end.
Proof.
  unfold after_common.
  now rewrite (fold_last_arg checksum (common_case K) "c" (checksum_mode K)
                 (common_case_checksum K)).
Qed.

Lemma after_common_cpu_unbound :
  cpu_unbound (after_common K argv) = true <-> given "u" (common_options K argv).
Proof.
  unfold after_common.
  rewrite (fold_last_arg cpu_unbound (common_case K) "u" (fun _ => true)
             (common_case_cpu_unbound K)).
  rewrite last_arg_given.
  destruct (last_arg "u" (common_options K argv)) as [a|].
  - split; eauto.
  - split; [discriminate | intros [a H]; discriminate].
Qed.

(** The command a parse ends with tells which parser ran. *)
Lemma parsed_option (r : Z) (fl : flags) :
  parsed K argv r fl ->
  match option_ fl with
  | INVALID => r = -1 /\ fl = after_common K argv
  | RECORD =>
      fl = fold_left (apply_case record_case) (record_options K argv)
             (set_option_ RECORD (after_common K argv))
  | REPLAY =>
      fl = fold_left (apply_case replay_case) (replay_options K argv)
             (set_option_ REPLAY (after_common K argv))
  | DUMP_EVENTS =>
      fl = fold_left (apply_case dump_case) (dump_options K argv)
             (set_option_ DUMP_EVENTS (after_common K argv))
  end.
Proof.
  intros [Hr Hfl | Hfl | Hfl | Hfl].
  - assert (H : option_ fl = INVALID) by (rewrite Hfl; apply after_common_option).
    rewrite H. now split.
  - assert (H : option_ fl = RECORD).
    { rewrite Hfl, (fold_preserves option_ record_case); [reflexivity|].
      intros c a f. apply (record_case_frame c a f). }
    now rewrite H.
  - assert (H : option_ fl = REPLAY).
    { rewrite Hfl, (fold_preserves option_ replay_case); [reflexivity|].
      intros c a f. apply (replay_case_frame c a f). }
    now rewrite H.
  - assert (H : option_ fl = DUMP_EVENTS).
    { rewrite Hfl, (fold_preserves option_ dump_case); [reflexivity|].
      intros c a f. apply (dump_case_frame c a f). }
    now rewrite H.
Qed.

(** The parsers of the commands leave [checksum] and [cpu_unbound] as
    the common options set them. *)
Lemma parsed_common_members (r : Z) (fl : flags) :
  parsed K argv r fl ->
  checksum fl = checksum (after_common K argv)
  /\ cpu_unbound fl = cpu_unbound (after_common K argv).
Proof.
  intros [Hr -> | -> | -> | ->]; [now split | ..]; split.
  - rewrite (fold_preserves checksum record_case); [reflexivity|].
    intros c a f. apply (record_case_frame c a f).
  - rewrite (fold_preserves cpu_unbound record_case); [reflexivity|].
    intros c a f. apply (record_case_frame c a f).
  - rewrite (fold_preserves checksum replay_case); [reflexivity|].
    intros c a f. apply (replay_case_frame c a f).
  - rewrite (fold_preserves cpu_unbound replay_case); [reflexivity|].
    intros c a f. apply (replay_case_frame c a f).
  - rewrite (fold_preserves checksum dump_case); [reflexivity|].
    intros c a f. apply (dump_case_frame c a f).
  - rewrite (fold_preserves cpu_unbound dump_case); [reflexivity|].
    intros c a f. apply (dump_case_frame c a f).
Qed.

(** [raw_dump] is set exactly by option [r] of the dump command. *)
Lemma parsed_raw_dump (r : Z) (fl : flags) :
  parsed K argv r fl ->
  raw_dump fl = true <->
  option_ fl = DUMP_EVENTS /\ given "r" (dump_options K argv).
Proof.
  intros Hp. pose proof (parsed_option r fl Hp) as Hopt.
  destruct (option_ fl) eqn:Hcmd.
  - destruct Hopt as [_ ->]. rewrite after_common_raw_dump.
    split; [discriminate | intros [H _]; discriminate].
  - rewrite Hopt, (fold_preserves raw_dump record_case);
      [|intros c a f; apply (record_case_frame c a f)].
    cbn [raw_dump set_option_]. rewrite after_common_raw_dump.
    split; [discriminate | intros [H _]; discriminate].
  - rewrite Hopt, (fold_preserves raw_dump replay_case);
      [|intros c a f; apply (replay_case_frame c a f)].
    cbn [raw_dump set_option_]. rewrite after_common_raw_dump.
    split; [discriminate | intros [H _]; discriminate].
  - rewrite Hopt.
    rewrite (fold_last_arg raw_dump dump_case "r" (fun _ => true)
               dump_case_raw_dump).
    rewrite last_arg_given.
    destruct (last_arg "r" (dump_options K argv)) as [a|].
    + split; eauto.
    + cbn [raw_dump set_option_]. rewrite after_common_raw_dump.
      split; [discriminate | intros [_ [a H]]; discriminate].
Qed.

End ParsedFlags.

(** ** Running the process step by step *)

Section Steps.

Context {A B : Type}.

Lemma bind_ret (a : A) (k : A -> M B) (w : world) :
  bind (ret a) k w = k a w.
Proof. reflexivity. Qed.

Lemma bind_emit (e : event) (k : unit -> M B) (w : world) :
  bind (emit e) k w = k tt (add_events w [e]).
Proof. reflexivity. Qed.

Lemma bind_stop (t : termination) (k : A -> M B) (w : world) :
  bind (stop t) k w = Stop t w.
Proof. reflexivity. Qed.

Lemma bind_FATAL (text : string) (k : A -> M B) (w : world) :
  bind (FATAL text) k w = Stop Fatal (add_events w [Stderr text]).
Proof. reflexivity. Qed.

Lemma bind_get_flags (k : flags -> M B) (w : world) :
  bind get_flags k w = k (w_flags w) w.
Proof. reflexivity. Qed.

Lemma bind_modify_flags (assign : flags -> flags) (k : unit -> M B) (w : world) :
  bind (modify_flags assign) k w =
  k tt (mk_world (assign (w_flags w)) (w_getopt w) (w_argv w) (w_events w)).
Proof. reflexivity. Qed.

Lemma bind_get_argv (k : list string -> M B) (w : world) :
  bind get_argv k w = k (w_argv w) w.
Proof. reflexivity. Qed.

Lemma bind_result (m : M A) (k : A -> M B) (w : world) :
  bind m k w =
  match m w with
  | Ret a w' => k a w'
  | Stop t w' => Stop t w'
  | OutOfFuel => OutOfFuel
  end.
Proof. reflexivity. Qed.

End Steps.

Lemma FATAL_result {A : Type} (text : string) (w : world) :
  @FATAL A text w = Stop Fatal (add_events w [Stderr text]).
Proof. reflexivity. Qed.

Lemma add_events_nil (w : world) : add_events w [] = w.
Proof. destruct w. unfold add_events. cbn. now rewrite app_nil_r. Qed.

Lemma add_events_add (w : world) (es1 es2 : list event) :
  add_events (add_events w es1) es2 = add_events w (es1 ++ es2).
Proof. unfold add_events. cbn. now rewrite app_assoc. Qed.

(** ** The stages of main *)

Section Stages.

Variable env : environment.

Lemma KERNEL_VERSION_below (major minor m : Z) :
  linux_version major minor -> 0 <= m <= 255 ->
  version_below major minor 3 m ->
  KERNEL_VERSION major minor 0 < KERNEL_VERSION 3 m 0.
Proof.
  intros [Hmaj Hmin] Hm Hbelow. unfold KERNEL_VERSION, to_uint32.
  rewrite !Z.shiftl_mul_pow2 by lia.
  change (2 ^ 16) with 65536. change (2 ^ 8) with 256.
  change (2 ^ 32) with 4294967296.
  rewrite !Z.mod_small; destruct Hbelow as [H | [-> H]]; lia.
Qed.

Lemma stop_add (w : world) (es : list event) :
  Forall is_early (w_events w) -> Forall is_early es ->
  Forall is_early (w_events (add_events w es)).
Proof. intros H1 H2. cbn. apply Forall_app. now split. Qed.

Lemma not_unmet (fl : flags) :
  (forall val, ptrace_scope_of env = Some val -> val <= 0) ->
  (forall major minor,
     kernel_of env = Some (major, minor) -> linux_version major minor ->
     ~ version_below major minor 3 4
     /\ (use_syscall_buffer fl = true -> ~ version_below major minor 3 5)) ->
  ~ unmet env fl.
Proof.
  intros Hscope Hkernel
    [val Hval Hpos | major minor Hker Hlin Hb | major minor Hker Hlin Hbuf Hb].
  - specialize (Hscope val Hval). lia.
  - now destruct (Hkernel major minor Hker Hlin) as [H _].
  - destruct (Hkernel major minor Hker Hlin) as [_ H]. now apply H.
Qed.

(** [assert_prerequisites] returns without a trace when no prerequisite
    is unmet, ends the process with [FATAL], or meets a release string
    it cannot read. *)
Lemma assert_prerequisites_cases (w : world) :
  match assert_prerequisites env w with
  | Ret _ w' => w' = w /\ ~ unmet env (w_flags w)
  | Stop Fatal w' => exists msg, w' = add_events w [Stderr msg]
  | Stop Undefined w' => w' = w /\ ~ unmet env (w_flags w)
  | _ => False
  end.
Proof.
  unfold assert_prerequisites.
  (* the value read from the ptrace_scope file *)
  assert (Hread :
    (exists val, read_int_file "/proc/sys/kernel/yama/ptrace_scope"
                   (ptrace_scope_file env) w = Ret val w
                 /\ forall v, ptrace_scope_of env = Some v -> v = val)
    \/ (exists msg, read_int_file "/proc/sys/kernel/yama/ptrace_scope"
                      (ptrace_scope_file env) w
                    = Stop Fatal (add_events w [Stderr msg]))).
  { unfold read_int_file, ptrace_scope_of.
    destruct (ptrace_scope_file env) as [content|];
      [|left; exists (-1); split; [reflexivity | discriminate]].
    destruct (fscanf_d content) as [n [val|]].
    - destruct (Z.eqb_spec n 1) as [->|Hn].
      + left. exists val. split; [reflexivity | congruence].
      + right. eexists.
        destruct n as [|[]|]; try reflexivity; congruence.
    - right. eexists. destruct n as [|[]|]; reflexivity. }
  destruct Hread as [(val & Hread & Hval) | (msg & Hread)];
    rewrite bind_result, Hread; [|eauto].
  destruct (Z.gtb_spec val 0) as [Hpos|Hle]; [rewrite bind_FATAL; eauto|].
  rewrite bind_ret.
  assert (Hscope : forall v, ptrace_scope_of env = Some v -> v <= 0).
  { intros v Hv. rewrite (Hval v Hv). exact Hle. }
  pose proof (not_unmet (w_flags w) Hscope) as Hmet. unfold kernel_of in Hmet.
  destruct (uname_release env) as [release|];
    [|split; [reflexivity | apply Hmet; discriminate]].
  destruct (release_version release) as [[major minor]|];
    [|split; [reflexivity | apply Hmet; discriminate]].
  destruct (Z.ltb_spec (KERNEL_VERSION major minor 0) (KERNEL_VERSION 3 4 0))
    as [Hold|Hnew]; [rewrite bind_FATAL; eauto|].
  rewrite bind_ret, bind_get_flags.
  destruct (use_syscall_buffer (w_flags w)) eqn:Hbuf; cbn [andb].
  - destruct (Z.ltb_spec (KERNEL_VERSION major minor 0) (KERNEL_VERSION 3 5 0))
      as [Hold|Hnew']; [rewrite FATAL_result; eauto|].
    split; [reflexivity|]. apply Hmet.
    intros major' minor' H Hlin. injection H as <- <-. split.
    + intros Hb. apply (KERNEL_VERSION_below _ _ 4 Hlin) in Hb; lia.
    + intros _ Hb. apply (KERNEL_VERSION_below _ _ 5 Hlin) in Hb; lia.
  - split; [reflexivity|]. apply Hmet.
    intros major' minor' H Hlin. injection H as <- <-. split.
    + intros Hb. apply (KERNEL_VERSION_below _ _ 4 Hlin) in Hb; lia.
    + discriminate.
Qed.

(** [check_performance_settings] writes at most a message. *)
Lemma check_performance_settings_cases (w : world) :
  match check_performance_settings env w with
  | Ret _ w' | Stop Fatal w' =>
      exists es, Forall is_early es /\ w' = add_events w es
  | _ => False
  end.
Proof.
  unfold check_performance_settings.
  destruct (governor_file env) as [[content|]|].
  - destruct (negb _).
    + eexists. split; [|reflexivity]. repeat constructor.
    + exists []. split; [constructor|]. unfold add_events. cbn.
      rewrite app_nil_r. now destruct w.
  - eexists. split; [|reflexivity]. repeat constructor.
  - exists []. split; [constructor|]. unfold add_events. cbn.
    rewrite app_nil_r. now destruct w.
Qed.

End Stages.

(** ** Every run of main *)

Section Runs.

Variable K : constants.
Variable env : environment.
Variable argv : list string.

Lemma stderr_early (es : list event) :
  Forall is_stderr es -> Forall is_early es.
Proof.
  apply Forall_impl. intros [] H; cbn in *; tauto.
Qed.

Lemma session_flags_option (fl : flags) :
  option_ (session_flags K env fl) = option_ fl.
Proof. unfold session_flags. now destruct (option_ fl) eqn:H. Qed.

Lemma session_flags_members (fl : flags) :
  cpu_unbound (session_flags K env fl) = cpu_unbound fl
  /\ use_syscall_buffer (session_flags K env fl) = use_syscall_buffer fl
  /\ raw_dump (session_flags K env fl) = raw_dump fl.
Proof. unfold session_flags. now destruct (option_ fl). Qed.

(** An accepted command line has a command. *)
Lemma accepted_command (argi : Z) (w0 : world) :
  parsed K argv argi (w_flags w0) ->
  rejected argv argi (w_flags w0) = false ->
  option_ (w_flags w0) <> INVALID.
Proof.
  intros Hp Hrej Hinv. apply parsed_option in Hp. rewrite Hinv in Hp.
  destruct Hp as [-> _]. discriminate Hrej.
Qed.

(** [start] starts the session of the command; the call returns when
    the session runs to completion. *)
Lemma start_cases (rr_exe : string) (args : list string) (w : world) :
  option_ (w_flags w) <> INVALID ->
  match start env rr_exe args w with
  | Ret _ w' =>
      exists after,
        w' = add_events w (Started (option_ (w_flags w)) args :: after)
        /\ forall e, In e after -> exists items, e = Stdout items
             /\ option_ (w_flags w) = DUMP_EVENTS
             /\ exists trace,
                  items = start_dumping (raw_dump (w_flags w)) trace args
  | Stop Fatal w' =>
      w' = add_events w [Started (option_ (w_flags w)) args]
      /\ ~ sessions_complete env
  | _ => False
  end.
Proof.
  intros Hcommand. unfold start. rewrite bind_get_flags.
  destruct (option_ (w_flags w)) eqn:Hopt; [contradiction | ..];
    rewrite bind_emit.
  - destruct (record env (w_flags w) rr_exe args) eqn:Hrec.
    + exists []. split; [reflexivity | intros e []].
    + split; [reflexivity|]. intros (H & _ & _).
      cbn in Hrec. rewrite H in Hrec. discriminate.
  - destruct (replay env (w_flags w) args) eqn:Hrep.
    + exists []. split; [reflexivity | intros e []].
    + split; [reflexivity|]. intros (_ & H & _).
      cbn in Hrep. rewrite H in Hrep. discriminate.
  - destruct (open_trace env args) as [trace|] eqn:Hopen.
    + eexists [_]. split.
      { unfold emit, add_events. cbn [w_flags w_getopt w_events].
        rewrite <- app_assoc. reflexivity. }
      intros e [<-|[]]. eexists. split; [reflexivity|]. split; [reflexivity|].
      now exists trace.
    + split; [reflexivity|]. intros (_ & _ & H). now apply (H args).
Qed.

(** The process always ends, in one of the five ways of [outcome]. *)
Theorem run_outcome :
  exists t w, run K env argv = Some (t, w) /\ outcome K env argv t w.
Proof.
  unfold run, main.
  fold (check_preload argv).
  destruct (check_preload argv) eqn:Hprobe.
  { eexists _, _. split; [reflexivity | now constructor]. }
  destruct (parse_args_parsed K argv) as (argi & w0 & Hparse & Hparsed & Hmsgs).
  apply stderr_early in Hmsgs.
  rewrite bind_result, Hparse, bind_get_flags. cbv beta.
  fold (rejected argv argi (w_flags w0)).
  destruct (rejected argv argi (w_flags w0)) eqn:Hrej.
  { unfold print_usage. rewrite bind_emit.
    eexists _, _. split; [reflexivity|].
    eapply out_usage; eauto. }
  pose proof (accepted_command argi w0 Hparsed Hrej) as Hcommand.
  (* assert_prerequisites *)
  rewrite bind_result.
  pose proof (assert_prerequisites_cases env w0) as Hpre.
  destruct (assert_prerequisites env w0) as [[] w1 | [status| |] w1 |];
    try contradiction.
  2:{ destruct Hpre as [msg ->]. eexists _, _. split; [reflexivity|].
      eapply out_stopped; eauto.
      apply stop_add; [assumption | repeat constructor]. }
  2:{ destruct Hpre as [-> Hmet]. eexists _, _. split; [reflexivity|].
      eapply out_stopped; eauto. intros H. contradiction. }
  destruct Hpre as [-> Hmet]. rewrite bind_get_flags. cbv beta.
  (* check_performance_settings *)
  rewrite bind_result.
  assert (Hperf :
    match (if negb (suppress_performance_warnings (w_flags w0))
           then check_performance_settings env else ret tt) w0 with
    | Ret _ w' | Stop Fatal w' =>
        exists es, Forall is_early es /\ w' = add_events w0 es
    | _ => False
    end).
  { destruct (negb _); [apply check_performance_settings_cases|].
    exists []. split; [constructor | now rewrite add_events_nil]. }
  match type of Hperf with match ?r with _ => _ end =>
    destruct r as [[] w1 | [status| |] w1 |] end; try contradiction.
  2:{ destruct Hperf as (es & Hes & ->). eexists _, _. split; [reflexivity|].
      eapply out_stopped; eauto. now apply stop_add. }
  destruct Hperf as (es1 & Hes1 & ->).
  (* the wait *)
  rewrite bind_result.
  assert (Hwait :
    match (if wait_secs (w_flags w0) >? 0
           then emit (Nanosleep (wait_secs (w_flags w0)));;
                (if nanosleep_fails env
                 then FATAL "Failed to wait requested duration" else ret tt)
           else ret tt) (add_events w0 es1) with
    | Ret _ w' | Stop Fatal w' =>
        exists es, Forall is_early es /\ w' = add_events w0 es
    | _ => False
    end).
  { destruct (_ >? 0).
    - rewrite bind_emit, add_events_add. destruct (nanosleep_fails env).
      + rewrite FATAL_result, add_events_add. eexists. split; [|reflexivity].
        repeat (apply Forall_app; split); try assumption; repeat constructor.
      + eexists. split; [|reflexivity].
        repeat (apply Forall_app; split); try assumption; repeat constructor.
    - exists es1. now split. }
  match type of Hwait with match ?r with _ => _ end =>
    destruct r as [[] w1 | [status| |] w1 |] end; try contradiction.
  2:{ destruct Hwait as (es & Hes & ->). eexists _, _. split; [reflexivity|].
      eapply out_stopped; eauto. now apply stop_add. }
  destruct Hwait as (early & Hearly & ->). clear es1 Hes1.
  (* the CPU binding *)
  rewrite bind_result.
  assert (Hcpu :
    match (if negb (cpu_unbound (w_flags w0))
           then emit (SetAffinity 0);;
                (if sched_setaffinity_fails env
                 then FATAL "Couldn't bind to CPU 0" else ret tt)
           else ret tt) (add_events w0 early) with
    | Ret _ w' =>
        w' = add_events w0 (early ++ binding (w_flags w0))
        /\ (cpu_unbound (w_flags w0) = false ->
            sched_setaffinity_fails env = false)
    | Stop Fatal w' =>
        w' = add_events w0
               (early ++ [SetAffinity 0; Stderr "Couldn't bind to CPU 0"])
        /\ cpu_unbound (w_flags w0) = false
        /\ sched_setaffinity_fails env = true
    | _ => False
    end).
  { unfold binding. destruct (cpu_unbound (w_flags w0)); cbn [negb].
    - rewrite app_nil_r. split; [reflexivity | discriminate].
    - rewrite bind_emit, add_events_add.
      destruct (sched_setaffinity_fails env).
      + rewrite FATAL_result, add_events_add, <- app_assoc. now repeat split.
      + now split. }
  match type of Hcpu with match ?r with _ => _ end =>
    destruct r as [[] w1 | [status| |] w1 |] end; try contradiction.
  2:{ destruct Hcpu as (-> & Hbound & Hfails). eexists _, _. split; [reflexivity|].
      eapply (out_unbound K env argv argi w0 _ (w_events w0 ++ early)); eauto.
      - apply Forall_app. now split.
      - cbn. now rewrite <- app_assoc. }
  destruct Hcpu as (-> & Hbind).
  (* the set-up of the record command *)
  rewrite bind_result.
  assert (Hsetup :
    match option_ (w_flags w0) with
    | RECORD =>
        (if use_syscall_buffer (w_flags w0)
         then emit (Setenv (SYSCALLBUF_ENABLED_ENV_VAR K) "1")
         else emit (Unsetenv (SYSCALLBUF_ENABLED_ENV_VAR K)));;
        modify_flags
          (set_syscall_buffer_lib_path (find_syscall_buffer_library K env))
    | _ => ret tt
    end (add_events w0 (early ++ binding (w_flags w0)))
    = Ret tt (mk_world (session_flags K env (w_flags w0)) (w_getopt w0)
                (w_argv w0)
                (w_events w0 ++ early ++ binding (w_flags w0)
                   ++ record_setup K (w_flags w0)))).
  { unfold session_flags, record_setup.
    destruct (option_ (w_flags w0));
      try (rewrite app_nil_r; reflexivity).
    destruct (use_syscall_buffer (w_flags w0)); rewrite bind_emit;
      unfold modify_flags, add_events; cbn [w_flags w_getopt w_argv w_events];
      now rewrite <- !app_assoc. }
  rewrite Hsetup. clear Hsetup.
  (* the session *)
  rewrite bind_get_argv. cbn [w_argv].
  rewrite bind_result.
  match goal with
  | |- context [start env ?exe ?args ?w] =>
      pose proof (start_cases exe args w) as Hstart;
      destruct (start env exe args w) as [[] w1 | [status| |] w1 |]
  end; cbn [w_flags] in Hstart; rewrite session_flags_option in Hstart;
    specialize (Hstart Hcommand); try contradiction.
  - destruct Hstart as (after & -> & Hafter). eexists _, _. split; [reflexivity|].
    eapply (out_session K env argv argi w0 _ _ (w_events w0 ++ early) after);
      eauto.
    + apply Forall_app. now split.
    + unfold add_events. cbn [w_events]. now rewrite <- !app_assoc.
    + intros e He. destruct (Hafter e He) as (items & -> & Hdump & trace & ->).
      destruct (session_flags_members (w_flags w0)) as (_ & _ & ->).
      eexists. split; [reflexivity|]. split; [assumption|]. now exists trace.
  - destruct Hstart as (-> & Hincomplete). eexists _, _. split; [reflexivity|].
    eapply (out_session K env argv argi w0 _ _ (w_events w0 ++ early) []);
      eauto.
    + apply Forall_app. now split.
    + unfold add_events. cbn [w_events]. now rewrite <- !app_assoc.
    + intros e [].
Qed.

Lemma run_inv (t : termination) (w : world) :
  run K env argv = Some (t, w) -> outcome K env argv t w.
Proof.
  destruct run_outcome as (t' & w' & Hrun & Hout).
  rewrite Hrun. intros H. injection H as <- <-. exact Hout.
Qed.

End Runs.

(** ** Facts the claims share *)

Section ClaimFacts.

Variable K : constants.
Variable argv : list string.

Lemma parse_args_inv (r : Z) (w : world) :
  parse_args K argv initial_world = Ret r w ->
  parsed K argv r (w_flags w) /\ Forall is_stderr (w_events w).
Proof.
  destruct (parse_args_parsed K argv) as (r' & w' & Hparse & Hparsed & Hmsgs).
  rewrite Hparse. intros H. injection H as <- <-. now split.
Qed.

Lemma MAX_lower (x : Z) : 1 <= MAX 1 x.
Proof. unfold MAX. destruct (Z.gtb_spec 1 x); lia. Qed.

Lemma MIN_MAX_range (x : Z) : 1 <= MIN (_NSIG - 1) (MAX 1 x) <= _NSIG - 1.
Proof.
  pose proof (MAX_lower x). unfold MIN, _NSIG in *.
  destruct (Z.ltb_spec (65 - 1) (MAX 1 x)); lia.
Qed.

(** The probe of the preload library is no command. *)
Lemma check_preload_no_command (r : Z) (w : world) :
  check_preload argv = true ->
  parse_args K argv initial_world = Ret r w -> r = -1.
Proof.
  unfold check_preload, arg. change (Z.to_nat 1) with 1%nat. intros Hprobe.
  destruct argv as [|a0 [|a1 rest]]; try discriminate.
  apply andb_true_iff in Hprobe as [_ Hprobe].
  apply String.eqb_eq in Hprobe. cbn [nth] in Hprobe. subst a1.
  unfold parse_args, bind, modify_flags, run_parser, parse_common_args, ret, emit.
  cbn [initial_world w_flags w_getopt w_events].
  rewrite getopt_while_eq, scan_argv_unmoved by reflexivity.
  unfold scan_fuel, get_argv. cbn [scan_end scan_options].
  cbn [Getopt.getopt_long Getopt.initial Getopt.rational Getopt.moved
       Getopt.nextchar Getopt.optind Getopt.first_nonopt Getopt.last_nonopt
       Nat.min nth_error].
  cbn [String.eqb Ascii.eqb Bool.eqb Getopt.nonoption negb Getopt.optind].
  cbn [p_result p_flags p_getopt p_argv w_argv w_flags w_getopt w_events].
  unfold Getopt.moved. cbn [Getopt.optind].
  change (Z.of_nat 1) with 1. change (0 >? 1) with false. change (0 =? 1) with false.
  cbv iota. cbn [orb].
  destruct (1 >=? _); [intros H'; now injection H' as <- _|].
  unfold arg. change (Z.to_nat 1) with 1%nat. cbn [nth].
  cbn [String.eqb Ascii.eqb Bool.eqb orb].
  intros H'. now injection H' as <- _.
Qed.

End ClaimFacts.

(** ** The events of a run *)

Section Events.

Lemma early_not_started (es : list event) :
  Forall is_early es -> ~ started es.
Proof.
  unfold started. rewrite Forall_forall, Exists_exists.
  intros Hall (e & Hin & He). specialize (Hall e Hin). now destruct e.
Qed.

Lemma early_not_bound (es : list event) (cpu : Z) :
  Forall is_early es -> ~ In (SetAffinity cpu) es.
Proof.
  rewrite Forall_forall. intros Hall Hin. exact (Hall _ Hin).
Qed.

Lemma started_app (es1 es2 : list event) :
  started (es1 ++ es2) <-> started es1 \/ started es2.
Proof. apply Exists_app. Qed.

Lemma record_setup_quiet (K : constants) (fl : flags) (e : event) :
  In e (record_setup K fl) ->
  ~ is_start e /\ (forall cpu, e <> SetAffinity cpu)
  /\ (forall items, e <> Stdout items).
Proof.
  unfold record_setup.
  destruct (option_ fl); try (intros []).
  destruct (use_syscall_buffer fl); intros [<-|[]];
    repeat split; (tauto || discriminate).
Qed.

(** The first start of a session in a list of events. *)
Lemma first_start (l1 l2 pre post : list event) (x y : event) :
  l1 ++ x :: l2 = pre ++ y :: post ->
  (forall e, In e l1 -> ~ is_start e) -> is_start y ->
  exists rest, pre = l1 ++ rest.
Proof.
  revert pre. induction l1 as [|a l1 IH]; intros pre Heq Hquiet Hy;
    [now exists pre|].
  destruct pre as [|b pre]; cbn in Heq; injection Heq as Hhead Htail.
  - subst y. exfalso. apply (Hquiet a); [now left | assumption].
  - subst b. destruct (IH pre Htail) as [rest ->]; [|assumption|now exists rest].
    intros e He. apply Hquiet. now right.
Qed.

(** The prerequisites depend on the flags through [use_syscall_buffer]
    only. *)
Lemma unmet_flags (env : environment) (fl fl' : flags) :
  use_syscall_buffer fl = use_syscall_buffer fl' ->
  unmet env fl -> unmet env fl'.
Proof.
  intros Hbuf [val Hval Hpos | major minor Hker Hlin Hb
               | major minor Hker Hlin Hon Hb].
  - eapply unmet_ptrace_scope; eauto.
  - eapply unmet_ptrace_support; eauto.
  - eapply unmet_syscall_filtering; eauto; congruence.
Qed.

End Events.

(** ** The lines of a dump *)

Section DumpLines.

Variable raw_dump : bool.

Lemma dump_loop_lines (a b : Z) (trace : list trace_frame) :
  forall out, exists frames,
    snd (dump_loop a b raw_dump trace out) = out ++ frame_lines raw_dump frames.
Proof.
  induction trace as [|f trace IH]; intros out; cbn [dump_loop].
  - exists []. cbn. now rewrite app_nil_r.
  - destruct (b <? global_time f).
    + exists []. cbn. now rewrite app_nil_r.
    + destruct ((a <=? global_time f) && (global_time f <=? b)); [|apply IH].
      destruct (IH (out ++ [FrameLine f raw_dump])) as [frames ->].
      exists (f :: frames). now rewrite <- app_assoc.
Qed.

Lemma dump_specs_lines (specs : list string) :
  forall trace out, exists frames,
    snd (dump_specs raw_dump specs trace out) = out ++ frame_lines raw_dump frames.
Proof.
  induction specs as [|spec specs IH]; intros trace out; cbn [dump_specs].
  - exists []. cbn. now rewrite app_nil_r.
  - unfold dump_events_matching. destruct (spec_bounds (Some spec)) as [a b].
    destruct (dump_loop_lines a b trace out) as [frames1 H1].
    destruct (dump_loop a b raw_dump trace out) as [trace' out']. cbn [snd] in H1.
    subst out'. destruct (IH trace' (out ++ frame_lines raw_dump frames1))
      as [frames2 ->].
    exists (frames1 ++ frames2). unfold frame_lines.
    now rewrite map_app, app_assoc.
Qed.

(** A dump is the header line followed by frame lines, all rendered with
    [raw_dump]. *)
Lemma start_dumping_lines (trace : TraceIfstream) (argv : list string) :
  exists frames,
    start_dumping raw_dump trace argv
    = Text dump_header :: frame_lines raw_dump frames.
Proof.
  unfold start_dumping. destruct (_ =? 1).
  - unfold dump_events_matching. cbn [spec_bounds].
    apply (dump_loop_lines 0 UINT_MAX trace [Text dump_header]).
  - apply (dump_specs_lines (tl argv) trace [Text dump_header]).
Qed.

End DumpLines.

(** ** The argument of an option *)

Section Optarg.

Variable argv : list string.
Variable optstring : string.
Variable longopts : list Getopt.long_option.

Lemma find_long_in (key : string) (o : Getopt.long_option) :
  Getopt.find_long longopts key = Some o -> In o longopts.
Proof.
  unfold Getopt.find_long.
  destruct (find _ longopts) as [o'|] eqn:Hfind.
  - intros H. injection H as <-. now apply find_some in Hfind.
  - destruct (filter _ longopts) as [|o' [|]] eqn:Hfilter; try discriminate.
    intros H. injection H as <-.
    assert (Hin : In o' (filter (fun o => String.prefix key (Getopt.name o))
                           longopts)) by (rewrite Hfilter; now left).
    now apply filter_In in Hin.
Qed.

(** [optarg] is null only after ['?'] or an option that takes no
    argument. *)
Lemma getopt_long_optarg (st st' : Getopt.state) (c : ascii)
    (argv' : list string) :
  Getopt.getopt_long argv optstring longopts st = (Getopt.Opt c, st', argv') ->
  Getopt.optarg st' = None ->
  c = "?"%char
  \/ Getopt.short_spec optstring c = Some false
  \/ exists o, In o longopts /\ Getopt.val o = c /\ Getopt.has_arg o = false.
Proof.
  intros Hcall Hnull.
  apply getopt_long_option in Hcall
    as (_ & st0 & _ & [(x & rest & Hstep) | (text & Hstep)]).
  - revert Hstep Hnull. unfold Getopt.short_opt.
    destruct (Getopt.short_spec optstring x) as [[|]|] eqn:Hspec.
    + destruct rest; [destruct (nth_error argv _)|];
        intros H; injection H as <- <-; cbn; (discriminate || auto).
    + intros H. injection H as <- <-. auto.
    + intros H. injection H as <- <-. auto.
  - revert Hstep Hnull. unfold Getopt.long_opt.
    destruct (Getopt.split_eq text) as [key value].
    destruct (Getopt.find_long longopts key) as [o|] eqn:Hfind;
      [|intros H; injection H as <- <-; auto].
    apply find_long_in in Hfind.
    destruct value as [v|], (Getopt.has_arg o) eqn:Harg;
      try destruct (nth_error argv (S (Getopt.optind st0)));
      intros H; injection H as <- <-; cbn; try discriminate; auto.
    all: intros _; right; right; now exists o.
Qed.

Variable cases : ascii -> option string -> switch_case.

Lemma scan_options_optarg (fuel : nat) :
  forall st c,
    In (c, None) (scan_options fuel argv optstring longopts cases st) ->
    c = "?"%char
    \/ Getopt.short_spec optstring c = Some false
    \/ exists o, In o longopts /\ Getopt.val o = c /\ Getopt.has_arg o = false.
Proof.
  induction fuel as [|fuel IH]; intros st c; cbn [scan_options]; [intros []|].
  destruct (Getopt.getopt_long argv optstring longopts st) as [[[|x] st'] argv']
    eqn:Hcall; [intros []|].
  destruct (cases x (Getopt.optarg st')); [|intros []].
  pose proof (getopt_long_consumes _ _ _ _ _ _ _ Hcall) as [-> _].
  intros [Heq|Hin]; [|now apply (IH st')].
  injection Heq as -> Hnull. exact (getopt_long_optarg _ _ _ _ Hcall Hnull).
Qed.

End Optarg.

Lemma last_arg_in (x : ascii) (opts : list (ascii * option string))
    (a : option string) :
  last_arg x opts = Some a -> In (x, a) opts.
Proof.
  induction opts as [|[c b] opts IH]; cbn [last_arg]; [discriminate|].
  destruct (last_arg x opts) as [found|].
  - intros H. right. now apply IH.
  - destruct (Ascii.eqb_spec c x) as [->|]; [|discriminate].
    intros H. injection H as ->. now left.
Qed.

(** The options whose arguments the claims are about always come with
    one. *)
Lemma record_options_optarg (K : constants) (argv : list string)
    (c : ascii) (a : option string) :
  c = "c"%char \/ c = "e"%char \/ c = "i"%char ->
  In (c, a) (record_options K argv) -> exists s, a = Some s.
Proof.
  intros Hc Hin. destruct a as [s|]; [now exists s | exfalso].
  unfold record_options in Hin.
  destruct (common_end K argv) as [[cmdi st]|]; [|destruct Hin].
  apply scan_options_optarg in Hin.
  destruct Hin as [-> | [Hspec | (o & Ho & Hval & Harg)]].
  - destruct Hc as [H|[H|H]]; discriminate.
  - destruct Hc as [-> | [-> | ->]]; discriminate.
  - cbn in Ho.
    repeat (destruct Ho as [<-|Ho];
            [unfold opt in *; cbn in Hval, Harg; try discriminate Harg; subst c;
             destruct Hc as [H|[H|H]]; discriminate H|]).
    destruct Ho.
Qed.

Lemma common_options_optarg (K : constants) (argv : list string)
    (a : option string) :
  In ("c"%char, a) (common_options K argv) -> exists s, a = Some s.
Proof.
  intros Hin. destruct a as [s|]; [now exists s | exfalso].
  apply scan_options_optarg in Hin.
  destruct Hin as [H | [Hspec | (o & Ho & Hval & Harg)]]; try discriminate.
  cbn in Ho.
  repeat (destruct Ho as [<-|Ho];
          [unfold opt in *; cbn in Hval, Harg; try discriminate Harg;
           discriminate Hval|]).
  destruct Ho.
Qed.

(** ** The order of the lines of a dump *)

Section DumpOrder.

Variable raw_dump : bool.

Lemma subsequence_app {A : Type} (l1 l1' l2 l2' : list A) :
  subsequence l1 l1' -> subsequence l2 l2' ->
  subsequence (l1 ++ l2) (l1' ++ l2').
Proof.
  induction 1 as [l|x l1 l1' _ IH|x l1 l1' _ IH]; intros H2; cbn.
  - induction l as [|x l IH]; [exact H2 | now apply sub_skip].
  - apply sub_skip. now apply IH.
  - apply sub_take. now apply IH.
Qed.

(** One scan prints some of the frames it reads, in their order. *)
Lemma dump_loop_order (a b : Z) (trace : list trace_frame) :
  forall out rest out',
    dump_loop a b raw_dump trace out = (rest, out') ->
    exists read frames,
      trace = read ++ rest
      /\ out' = out ++ frame_lines raw_dump frames
      /\ subsequence frames read.
Proof.
  induction trace as [|f trace IH]; intros out rest out'; cbn [dump_loop].
  - intros H. injection H as <- <-. exists [], []. cbn.
    rewrite app_nil_r. repeat split. constructor.
  - destruct (b <? global_time f).
    + intros H. injection H as <- <-. exists [f], []. cbn.
      rewrite app_nil_r. repeat split. constructor.
    + destruct ((a <=? global_time f) && (global_time f <=? b)); intros H;
        apply IH in H as (read & frames & -> & -> & Hsub).
      * exists (f :: read), (f :: frames). cbn. rewrite <- app_assoc.
        repeat split. now apply sub_take.
      * exists (f :: read), frames. repeat split. now apply sub_skip.
Qed.

Lemma dump_specs_order (specs : list string) :
  forall trace out rest out',
    dump_specs raw_dump specs trace out = (rest, out') ->
    exists read frames,
      trace = read ++ rest
      /\ out' = out ++ frame_lines raw_dump frames
      /\ subsequence frames read.
Proof.
  induction specs as [|spec specs IH]; intros trace out rest out';
    cbn [dump_specs].
  - intros H. injection H as <- <-. exists [], []. cbn.
    rewrite app_nil_r. repeat split. constructor.
  - unfold dump_events_matching. destruct (spec_bounds (Some spec)) as [a b].
    destruct (dump_loop a b raw_dump trace out) as [trace1 out1] eqn:Hscan.
    apply dump_loop_order in Hscan as (read1 & frames1 & -> & -> & Hsub1).
    intros H. apply IH in H as (read2 & frames2 & -> & -> & Hsub2).
    exists (read1 ++ read2), (frames1 ++ frames2).
    unfold frame_lines. rewrite map_app, !app_assoc. repeat split.
    now apply subsequence_app.
Qed.

(** Whatever the specs, the frames of a dump are frames of the trace, in
    trace order. *)
Lemma dump_in_trace_order (trace : TraceIfstream) (argv : list string) :
  subsequence (frames_of (start_dumping raw_dump trace argv)) trace.
Proof.
  assert (Hframes : forall frames,
            frames_of (Text dump_header :: frame_lines raw_dump frames) = frames).
  { intros frames. cbn. apply frames_of_lines. }
  unfold start_dumping. destruct (_ =? 1).
  - unfold dump_events_matching. cbn [spec_bounds].
    destruct (dump_loop 0 UINT_MAX raw_dump trace [Text dump_header])
      as [rest out] eqn:Hscan.
    apply dump_loop_order in Hscan as (read & frames & -> & -> & Hsub).
    cbn [snd app]. rewrite Hframes.
    rewrite <- (app_nil_r frames). apply subsequence_app; [assumption | constructor].
  - destruct (dump_specs raw_dump (tl argv) trace [Text dump_header])
      as [rest out] eqn:Hscan.
    apply dump_specs_order in Hscan as (read & frames & -> & -> & Hsub).
    cbn [snd app]. rewrite Hframes.
    rewrite <- (app_nil_r frames). apply subsequence_app; [assumption | constructor].
Qed.

End DumpOrder.

(** ** Examples *)

Example atoi_127 : atoi "127" = 127.
Proof. reflexivity. Qed.

Example atoi_signed : atoi "  -42abc" = -42.
Proof. reflexivity. Qed.

Example atoi_saturates : atoi "99999999999" = INT_MAX.
Proof. reflexivity. Qed.

Example sscanf_single : sscanf_u_dash_u "127" 0 UINT_MAX = (1, 127, UINT_MAX).
Proof. reflexivity. Qed.

Example sscanf_range : sscanf_u_dash_u "1000-5000" 0 UINT_MAX = (2, 1000, 5000).
Proof. reflexivity. Qed.

Example decimal_5000 : decimal 5000 = "5000".
Proof. reflexivity. Qed.

(** Two event numbers in a row: the second is lost as well. *)
Example dump_two_numbers :
  frames_of (start_dumping false adjacent_trace ["trace_0"; "1"; "2"])
  = [frame_at 1].
Proof. reflexivity. Qed.

(** With a frame between the specs nothing is lost. *)
Example dump_separate_specs :
  frames_of (start_dumping false adjacent_trace ["trace_0"; "1-2"; "4"])
  = map frame_at [1; 2; 4].
Proof. reflexivity. Qed.

Example release_3_13 : release_version "3.13.0-24-generic" = Some (3, 13).
Proof. reflexivity. Qed.

(** A kernel without syscall filtering ends the recording, unless the
    syscall buffer is turned off. *)
Example old_kernel_with_buffer :
  option_map fst
    (run sample_constants old_kernel_environment ["rr"; "record"; "ls"])
  = Some Fatal.
Proof. vm_compute. reflexivity. Qed.

Example old_kernel_without_buffer :
  option_map fst
    (run sample_constants old_kernel_environment ["rr"; "record"; "-n"; "ls"])
  = Some (Exited 0).
Proof. vm_compute. reflexivity. Qed.

(** A failing CPU binding ends the process before the session. *)
Example binding_fails :
  option_map (fun r => (fst r, w_events (snd r)))
    (run sample_constants unbindable_environment ["rr"; "replay"])
  = Some (Fatal, [SetAffinity 0; Stderr "Couldn't bind to CPU 0"]).
Proof. vm_compute. reflexivity. Qed.

Example common_options_sample :
  common_options sample_constants
    ["rr"; "-vu"; "--check"; "--checks=on-syscalls"; "record"; "-c"; "7"]
  = [("v"%char, None); ("u"%char, None)].
Proof. vm_compute. reflexivity. Qed.

(* ================================================================== *)
(** * Part III: the claims *)
(* ================================================================== *)

(** C1.  On a trace with strictly increasing [global_time], the dump with
    the single spec "127" prints (after the header) exactly the one frame
    whose time is 127, and the dump with the spec "1000-5000" prints every
    frame whose time lies in [1000, 5000], and no other frame. *)
Theorem dump_single_and_range
    (raw : bool) (trace : TraceIfstream) (dir : string) (f : trace_frame) :
  increasing trace -> In f trace -> global_time f = 127 ->
  start_dumping raw trace [dir; "127"] =
    [Text dump_header; FrameLine f raw]
  /\ start_dumping raw trace [dir; "1000-5000"] =
    Text dump_header :: frame_lines raw (filter (in_range 1000 5000) trace).
Proof.
  intros Hinc Hin Ht. split.
  - rewrite (dump_bounds raw trace dir "127" 127 127 Hinc eq_refl).
    now rewrite (filter_single 127 f trace Hinc Hin Ht).
  - exact (dump_bounds raw trace dir "1000-5000" 1000 5000 Hinc eq_refl).
Qed.

Lemma dump_single_and_range_witness :
  (increasing sample_trace /\ In (frame_at 127) sample_trace
   /\ global_time (frame_at 127) = 127)
  /\ start_dumping false sample_trace ["trace_0"; "127"] =
       [Text dump_header; FrameLine (frame_at 127) false]
  /\ start_dumping false sample_trace ["trace_0"; "1000-5000"] =
       Text dump_header :: frame_lines false (map frame_at [1000; 3000; 5000]).
Proof.
  assert (Hinc : increasing sample_trace).
  { unfold increasing, sample_trace. cbn. repeat (constructor; try reflexivity). }
  assert (Hin : In (frame_at 127) sample_trace) by (cbn; tauto).
  split; [now repeat split|].
  exact (dump_single_and_range false sample_trace "trace_0" (frame_at 127)
           Hinc Hin eq_refl).
Defined.

(** C2 (the code omits a frame).  With the adjacent specs "1-2" and "3-4",
    which are disjoint and increasing, the frame at time 3 is read by the
    scan for the first spec, which stops on it, and is never printed. *)
Theorem dump_adjacent_specs_lose_frame :
  frames_of (start_dumping false adjacent_trace ["trace_0"; "1-2"; "3-4"])
  = map frame_at [1; 2; 4].
Proof. reflexivity. Qed.

(** C3.  On a trace with strictly increasing [global_time], for bounds
    [a <= b] that are [uint32_t] values, keeping the frames with a time in
    [[a, b]] out of the dump without a spec gives the frames of the dump
    with the one spec [a-b], in the same order. *)
Theorem dump_filter_commutes
    (raw : bool) (trace : TraceIfstream) (dir : string) (a b : Z) :
  increasing trace -> wf_trace trace ->
  is_uint32 a -> is_uint32 b -> a <= b ->
  filter (in_range a b) (frames_of (start_dumping raw trace [dir])) =
  frames_of (start_dumping raw trace [dir; range_spec a b]).
Proof.
  intros Hinc Hwf Ha Hb _.
  rewrite (dump_all raw trace dir Hwf).
  rewrite (dump_bounds raw trace dir _ a b Hinc (spec_bounds_range a b Ha Hb)).
  cbn [frames_of]. now rewrite !frames_of_lines.
Qed.

Lemma dump_filter_commutes_witness :
  (increasing sample_trace /\ wf_trace sample_trace
   /\ is_uint32 127 /\ is_uint32 3000 /\ 127 <= 3000)
  /\ range_spec 127 3000 = "127-3000"
  /\ filter (in_range 127 3000)
       (frames_of (start_dumping true sample_trace ["trace_0"])) =
     frames_of (start_dumping true sample_trace ["trace_0"; "127-3000"]).
Proof.
  assert (Hinc : increasing sample_trace).
  { unfold increasing, sample_trace. cbn. repeat (constructor; try reflexivity). }
  assert (Hwf : wf_trace sample_trace).
  { unfold wf_trace, sample_trace, is_uint32, UINT_MAX. cbn.
    repeat (constructor; try (cbn; lia)). }
  assert (Ha : is_uint32 127) by (unfold is_uint32, UINT_MAX; lia).
  assert (Hb : is_uint32 3000) by (unfold is_uint32, UINT_MAX; lia).
  assert (Hab : 127 <= 3000) by lia.
  split; [now repeat split|]. split; [reflexivity|].
  exact (dump_filter_commutes true sample_trace "trace_0" 127 3000
           Hinc Hwf Ha Hb Hab).
Defined.

(** C4.  For the record command, whatever string [s] is passed to
    [-c/--num-cpu-ticks] or [-e/--num-events], the flag holds
    [MAX(1, atoi(s))] for the last such string after the parse: [max_rbc]
    and [max_events] are at least 1 whenever their option is given. *)
Theorem record_budgets_at_least_one
    (K : constants) (argv : list string) (argi : Z) (w : world) :
  parse_args K argv initial_world = Ret argi w ->
  option_ (w_flags w) = RECORD ->
  (forall a, last_arg "c" (record_options K argv) = Some a ->
     exists s, a = Some s /\ max_rbc (w_flags w) = MAX 1 (atoi s))
  /\ (forall a, last_arg "e" (record_options K argv) = Some a ->
        exists s, a = Some s /\ max_events (w_flags w) = MAX 1 (atoi s))
  /\ (given "c" (record_options K argv) -> 1 <= max_rbc (w_flags w))
  /\ (given "e" (record_options K argv) -> 1 <= max_events (w_flags w)).
Proof.
  intros Hparse Hrecord.
  apply parse_args_inv in Hparse as [Hparsed _].
  apply parsed_option in Hparsed. rewrite Hrecord in Hparsed.
  assert (Hrbc : forall a, last_arg "c" (record_options K argv) = Some a ->
            exists s, a = Some s /\ max_rbc (w_flags w) = MAX 1 (atoi s)).
  { intros a Ha.
    destruct (record_options_optarg K argv "c" a) as [s ->];
      [auto | now apply last_arg_in|].
    exists s. split; [reflexivity|]. rewrite Hparsed.
    rewrite (fold_last_arg max_rbc record_case "c"
               (fun a => MAX 1 (atoi (cstr a))) record_case_max_rbc).
    now rewrite Ha. }
  assert (Hev : forall a, last_arg "e" (record_options K argv) = Some a ->
            exists s, a = Some s /\ max_events (w_flags w) = MAX 1 (atoi s)).
  { intros a Ha.
    destruct (record_options_optarg K argv "e" a) as [s ->];
      [auto | now apply last_arg_in|].
    exists s. split; [reflexivity|]. rewrite Hparsed.
    rewrite (fold_last_arg max_events record_case "e"
               (fun a => MAX 1 (atoi (cstr a))) record_case_max_events).
    now rewrite Ha. }
  repeat split; try assumption.
  - intros Hgiven. apply last_arg_given in Hgiven as [a Ha].
    destruct (Hrbc a Ha) as (s & _ & ->). apply MAX_lower.
  - intros Hgiven. apply last_arg_given in Hgiven as [a Ha].
    destruct (Hev a Ha) as (s & _ & ->). apply MAX_lower.
Qed.

Lemma record_budgets_at_least_one_witness :
  (parse_args sample_constants sample_record_argv initial_world
     = Ret 6 sample_record_world
   /\ option_ (w_flags sample_record_world) = RECORD)
  /\ record_options sample_constants sample_record_argv
     = [("c"%char, Some "0"); ("e"%char, Some "-7")]
  /\ 1 <= max_rbc (w_flags sample_record_world)
  /\ 1 <= max_events (w_flags sample_record_world).
Proof.
  assert (Hparse : parse_args sample_constants sample_record_argv initial_world
                   = Ret 6 sample_record_world) by (vm_compute; reflexivity).
  assert (Hrecord : option_ (w_flags sample_record_world) = RECORD)
    by (vm_compute; reflexivity).
  destruct (record_budgets_at_least_one sample_constants sample_record_argv
              6 sample_record_world Hparse Hrecord) as (_ & _ & Hc & He).
  split; [now split|]. split; [vm_compute; reflexivity|]. split.
  - apply Hc. unfold given. vm_compute. tauto.
  - apply He. unfold given. vm_compute. tauto.
Defined.

(** C5.  A run that starts a session whose code runs to completion ends
    with exit status 0.  When a prerequisite is unmet (ptrace_scope above
    0, a kernel below 3.4, or, with the syscall buffer enabled, a kernel
    below 3.5) no session starts and the process ends in failure: by
    [FATAL], unless the command line was turned down before the check
    (usage and status 1, or the probe of the preload library). *)
Theorem exit_status
    (K : constants) (env : environment) (argv : list string)
    (t : termination) (w : world) :
  run K env argv = Some (t, w) ->
  (started (w_events w) -> sessions_complete env -> t = Exited 0)
  /\ (unmet env (w_flags w) ->
        ~ started (w_events w)
        /\ (t = Fatal
            \/ (t = Exited 1 /\ In (Stderr usage) (w_events w))
            \/ (t = Exited EX_CONFIG /\ check_preload argv = true))).
Proof.
  intros Hrun. apply run_inv in Hrun.
  destruct Hrun as
    [ Hprobe
    | argi w0 w Hparse Hrej Hflags Hevents
    | argi w0 w t Hparse Hrej Hflags Hearly Hunmet Ht
    | argi w0 w early Hparse Hrej Hmet Hflags Hbound Hfails Hearly Hevents
    | argi w0 w t early after Hparse Hrej Hmet Hbind Hearly Hevents Hafter
        Hflags Ht ].
  - split; [intros H; inversion H|].
    intros _. split; [intros H; inversion H | auto].
  - apply parse_args_inv in Hparse as [_ Hmsgs]. apply stderr_early in Hmsgs.
    assert (Hnone : ~ started (w_events w)).
    { rewrite Hevents. apply early_not_started, Forall_app.
      split; [assumption | repeat constructor]. }
    split; [intros H; contradiction|]. intros _. split; [assumption|].
    right. left. split; [reflexivity|]. rewrite Hevents. apply in_or_app.
    right. now left.
  - pose proof (early_not_started _ Hearly) as Hnone.
    split; [intros H; contradiction|]. intros Hun. split; [assumption|].
    left. apply Hunmet. eapply unmet_flags; [|exact Hun]. now rewrite Hflags.
  - split.
    + intros Hs. exfalso. rewrite Hevents in Hs.
      apply started_app in Hs as [Hs|Hs]; [now apply early_not_started in Hs|].
      unfold started in Hs. rewrite !Exists_cons, Exists_nil in Hs.
      cbn in Hs. tauto.
    + intros Hun. exfalso. apply Hmet. eapply unmet_flags; [|exact Hun].
      rewrite Hflags. reflexivity.
  - split.
    + intros _ Hcomplete. destruct Ht as [-> | [_ Hnot]]; [reflexivity|].
      contradiction.
    + intros Hun. exfalso. apply Hmet. eapply unmet_flags; [|exact Hun].
      rewrite Hflags. now destruct (session_flags_members K env (w_flags w0))
        as (_ & -> & _).
Qed.

Lemma exit_status_witness :
  (started (w_events (world_after_run sample_constants sample_environment
                        sample_record_argv))
   /\ sessions_complete sample_environment
   /\ run sample_constants sample_environment sample_record_argv
      = Some (Exited 0,
              world_after_run sample_constants sample_environment
                sample_record_argv))
  /\ (unmet restricted_environment
        (w_flags (world_after_run sample_constants restricted_environment
                    sample_record_argv))
      /\ run sample_constants restricted_environment sample_record_argv
         = Some (Fatal,
                 world_after_run sample_constants restricted_environment
                   sample_record_argv)
      /\ ~ started (w_events (world_after_run sample_constants
                                restricted_environment sample_record_argv))).
Proof.
  assert (Hok : run sample_constants sample_environment sample_record_argv
                = Some (Exited 0,
                        world_after_run sample_constants sample_environment
                          sample_record_argv))
    by (vm_compute; reflexivity).
  assert (Hfatal : run sample_constants restricted_environment
                     sample_record_argv
                   = Some (Fatal,
                           world_after_run sample_constants
                             restricted_environment sample_record_argv))
    by (vm_compute; reflexivity).
  assert (Hstarted : started (w_events (world_after_run sample_constants
                                          sample_environment sample_record_argv))).
  { apply Exists_exists. exists (Started RECORD ["ls"; "-l"]).
    split; [|exact I]. vm_compute. right. right. now left. }
  assert (Hcomplete : sessions_complete sample_environment).
  { repeat split; intros; discriminate. }
  assert (Hunmet : unmet restricted_environment
            (w_flags (world_after_run sample_constants restricted_environment
                        sample_record_argv))).
  { apply (unmet_ptrace_scope _ _ 1); [vm_compute; reflexivity | lia]. }
  split.
  - split; [assumption|]. split; [assumption|]. exact Hok.
  - split; [assumption|]. split; [exact Hfatal|].
    exact (proj1 (proj2 (exit_status _ _ _ _ _ Hfatal) Hunmet)).
Defined.

(** C6.  After the parse, the checksum mode is [CHECKSUM_NONE] when no
    [-c/--checksum] is given; otherwise the argument [s] of the last one
    decides: "on-syscalls" selects [CHECKSUM_SYSCALL], "on-all-events"
    selects [CHECKSUM_ALL], and any other string selects the integer
    [atoi(s)]. *)
Theorem checksum_modes
    (K : constants) (argv : list string) (r : Z) (w : world) :
  parse_args K argv initial_world = Ret r w ->
  (~ given "c" (common_options K argv) ->
     checksum (w_flags w) = CHECKSUM_NONE K)
  /\ (forall a, last_arg "c" (common_options K argv) = Some a ->
        exists s, a = Some s
          /\ checksum (w_flags w) =
             if String.eqb s "on-syscalls" then CHECKSUM_SYSCALL K
             else if String.eqb s "on-all-events" then CHECKSUM_ALL K
             else atoi s).
Proof.
  intros Hparse.
  apply parse_args_inv in Hparse as [Hparsed _].
  destruct (parsed_common_members K argv r _ Hparsed) as [-> _].
  rewrite after_common_checksum. split.
  - intros Hnone. destruct (last_arg "c" (common_options K argv)) as [a|] eqn:Ha;
      [|reflexivity].
    exfalso. apply Hnone. apply last_arg_given. eauto.
  - intros a Ha. rewrite Ha.
    destruct (common_options_optarg K argv a) as [s ->];
      [now apply last_arg_in|].
    exists s. split; [reflexivity|]. unfold checksum_mode. cbn [cstr].
    now rewrite (String.eqb_sym "on-syscalls"), (String.eqb_sym "on-all-events").
Qed.

Lemma checksum_modes_witness :
  parse_args sample_constants sample_record_argv initial_world
    = Ret 6 sample_record_world
  /\ last_arg "c" (common_options sample_constants sample_record_argv)
     = Some (Some "1234")
  /\ checksum (w_flags sample_record_world) = 1234.
Proof.
  assert (Hparse : parse_args sample_constants sample_record_argv initial_world
                   = Ret 6 sample_record_world) by (vm_compute; reflexivity).
  assert (Hlast : last_arg "c" (common_options sample_constants sample_record_argv)
                  = Some (Some "1234")) by (vm_compute; reflexivity).
  split; [assumption|]. split; [assumption|].
  destruct (checksum_modes sample_constants sample_record_argv 6
              sample_record_world Hparse) as (_ & Hmode).
  destruct (Hmode _ Hlast) as (s & Hs & ->). injection Hs as <-.
  reflexivity.
Defined.

(** C7.  Without [-u/--cpu-unbound] among the common options, every start
    of a session comes after the process has bound itself to CPU 0, and
    when that binding fails the process ends by [FATAL] with no session
    started.  With the option, the process never sets its CPU affinity. *)
Theorem cpu_binding
    (K : constants) (env : environment) (argv : list string)
    (t : termination) (w : world) :
  run K env argv = Some (t, w) ->
  (~ given "u" (common_options K argv) ->
     (forall pre command args post,
        w_events w = pre ++ Started command args :: post ->
        In (SetAffinity 0) pre)
     /\ (sched_setaffinity_fails env = true ->
         ~ started (w_events w)
         /\ (In (SetAffinity 0) (w_events w) -> t = Fatal)))
  /\ (given "u" (common_options K argv) ->
      forall cpu, ~ In (SetAffinity cpu) (w_events w)).
Proof.
  intros Hrun. apply run_inv in Hrun.
  assert (Hquiet : forall es : list event, Forall is_early es ->
            (forall pre command args post,
               es = pre ++ Started command args :: post ->
               In (SetAffinity 0) pre)
            /\ ~ started es
            /\ forall cpu, ~ In (SetAffinity cpu) es).
  { intros es Hes. split; [|split].
    - intros pre command args post ->. apply Forall_app in Hes as [_ Hes].
      inversion Hes as [|? ? H _]. destruct H.
    - now apply early_not_started.
    - intros cpu. now apply early_not_bound. }
  assert (Hoption : forall argi w0,
            parse_args K argv initial_world = Ret argi w0 ->
            cpu_unbound (w_flags w0) = true <-> given "u" (common_options K argv)).
  { intros argi w0 Hparse. apply parse_args_inv in Hparse as [Hparsed _].
    destruct (parsed_common_members K argv argi _ Hparsed) as [_ ->].
    apply after_common_cpu_unbound. }
  destruct Hrun as
    [ Hprobe
    | argi w0 w Hparse Hrej Hflags Hevents
    | argi w0 w t Hparse Hrej Hflags Hearly Hunmet Ht
    | argi w0 w early Hparse Hrej Hmet Hflags Hbound Hfails Hearly Hevents
    | argi w0 w t early after Hparse Hrej Hmet Hbind Hearly Hevents Hafter
        Hflags Ht ].
  - destruct (Hquiet [] (Forall_nil _)) as (H1 & H2 & H3).
    split; [intros _; split; [exact H1 | intros _; split; [exact H2|]] | auto].
    intros [].
  - apply parse_args_inv in Hparse as [_ Hmsgs]. apply stderr_early in Hmsgs.
    assert (Hearly : Forall is_early (w_events w)).
    { rewrite Hevents. apply Forall_app. split; [assumption | repeat constructor]. }
    destruct (Hquiet _ Hearly) as (H1 & H2 & H3).
    split; [intros _; split; [exact H1 | intros _; split; [exact H2|]] | auto].
    intros H. now apply H3 in H.
  - destruct (Hquiet _ Hearly) as (H1 & H2 & H3).
    split; [intros _; split; [exact H1 | intros _; split; [exact H2|]] | auto].
    intros H. now apply H3 in H.
  - split.
    + intros _. split.
      * intros pre command args post Heq. exfalso. rewrite Hevents in Heq.
        assert (Hs : started (early ++ [SetAffinity 0; Stderr "Couldn't bind to CPU 0"])).
        { rewrite Heq. apply started_app. right. now constructor. }
        apply started_app in Hs as [Hs|Hs]; [now apply early_not_started in Hs|].
        unfold started in Hs. rewrite !Exists_cons, Exists_nil in Hs.
        cbn in Hs. tauto.
      * intros _. split; [|reflexivity]. rewrite Hevents. intros Hs.
        apply started_app in Hs as [Hs|Hs]; [now apply early_not_started in Hs|].
        unfold started in Hs. rewrite !Exists_cons, Exists_nil in Hs.
        cbn in Hs. tauto.
    + intros Hu. apply (Hoption _ _ Hparse) in Hu. congruence.
  - split.
    + intros Hnot.
      assert (Hbound : cpu_unbound (w_flags w0) = false).
      { destruct (cpu_unbound (w_flags w0)) eqn:H; [|reflexivity].
        exfalso. apply Hnot, (Hoption _ _ Hparse), H. }
      split.
      * intros pre command args post Heq. rewrite Hevents in Heq.
        unfold binding in Heq. rewrite Hbound in Heq.
        rewrite !app_assoc in Heq. rewrite <- app_assoc in Heq. cbn [app] in Heq.
        apply first_start in Heq as [rest ->]; [|..|exact I].
        -- apply in_or_app. left. apply in_or_app. left. apply in_or_app.
           right. now left.
        -- intros e He. apply in_app_or in He as [He|He].
           ++ apply in_app_or in He as [He|[<-|[]]]; [|tauto].
              rewrite Forall_forall in Hearly. specialize (Hearly e He).
              now destruct e.
           ++ now apply record_setup_quiet in He.
      * intros Hfails. rewrite (Hbind Hbound) in Hfails. discriminate.
    + intros Hu cpu. apply (Hoption _ _ Hparse) in Hu.
      rewrite Hevents. unfold binding. rewrite Hu. cbn [app].
      intros Hin. apply in_app_or in Hin as [Hin|Hin];
        [now apply early_not_bound in Hin|].
      apply in_app_or in Hin as [Hin|[Hin|Hin]].
      * apply record_setup_quiet in Hin as (_ & Hin & _). now apply (Hin cpu).
      * discriminate.
      * destruct (Hafter _ Hin) as (items & Heq & _). discriminate.
Qed.

Lemma cpu_binding_witness :
  (~ given "u" (common_options sample_constants sample_record_argv)
   /\ w_events (world_after_run sample_constants sample_environment
                  sample_record_argv)
      = [SetAffinity 0; Setenv "_RR_USE_SYSCALLBUF" "1";
         Started RECORD ["ls"; "-l"]]
   /\ In (SetAffinity 0) [SetAffinity 0; Setenv "_RR_USE_SYSCALLBUF" "1"])
  /\ (given "u" (common_options sample_constants sample_unbound_argv)
      /\ w_events (world_after_run sample_constants sample_environment
                     sample_unbound_argv)
         = [Started REPLAY ["trace_0"]]
      /\ ~ In (SetAffinity 0)
             (w_events (world_after_run sample_constants sample_environment
                          sample_unbound_argv))).
Proof.
  assert (Hnot : ~ given "u" (common_options sample_constants sample_record_argv)).
  { unfold given. vm_compute. intros [H|[]]. discriminate. }
  assert (Hu : given "u" (common_options sample_constants sample_unbound_argv)).
  { unfold given. vm_compute. now left. }
  assert (Hbound : run sample_constants sample_environment sample_record_argv
                   = Some (Exited 0,
                           world_after_run sample_constants sample_environment
                             sample_record_argv))
    by (vm_compute; reflexivity).
  assert (Hfree : run sample_constants sample_environment sample_unbound_argv
                  = Some (Exited 0,
                          world_after_run sample_constants sample_environment
                            sample_unbound_argv))
    by (vm_compute; reflexivity).
  assert (Hevents : w_events (world_after_run sample_constants
                                sample_environment sample_record_argv)
                    = [SetAffinity 0; Setenv "_RR_USE_SYSCALLBUF" "1";
                       Started RECORD ["ls"; "-l"]])
    by (vm_compute; reflexivity).
  split; (split; [assumption|]; split; [vm_compute; reflexivity|]).
  - destruct (cpu_binding _ _ _ _ _ Hbound) as [Hbefore _].
    destruct (Hbefore Hnot) as [Hpinned _].
    exact (Hpinned [SetAffinity 0; Setenv "_RR_USE_SYSCALLBUF" "1"]
             RECORD ["ls"; "-l"] [] Hevents).
  - destruct (cpu_binding _ _ _ _ _ Hfree) as [_ Hnever].
    exact (Hnever Hu 0).
Defined.

(** C8.  What a dump writes is the header line, whose columns are in the
    order global_time, thread_time, tid, reason, entry/exit, hw_interrupts,
    page_faults, adapted_rbc, instructions and the registers, followed by
    frame lines only; every frame line lists its fields in that order, in
    raw form when [-r/--raw] is among the options of the dump command and
    in human-readable form otherwise. *)
Theorem dump_lines
    (K : constants) (env : environment) (argv : list string)
    (t : termination) (w : world) (items : FILE) :
  run K env argv = Some (t, w) ->
  In (Stdout items) (w_events w) ->
  words dump_header = field_order
  /\ (exists frames,
        items = Text dump_header :: frame_lines (raw_dump (w_flags w)) frames)
  /\ (forall line, In line (lines_of items) ->
        map fst (line_fields line) = field_order
        /\ (given "r" (dump_options K argv) -> line_form line = RawForm)
        /\ (~ given "r" (dump_options K argv) ->
            line_form line = HumanReadable)).
Proof.
  intros Hrun Hin. split; [reflexivity|]. apply run_inv in Hrun.
  assert (Hnone : forall es, Forall is_early es -> ~ In (Stdout items) es).
  { intros es Hes H. rewrite Forall_forall in Hes. exact (Hes _ H). }
  destruct Hrun as
    [ Hprobe
    | argi w0 w Hparse Hrej Hflags Hevents
    | argi w0 w t Hparse Hrej Hflags Hearly Hunmet Ht
    | argi w0 w early Hparse Hrej Hmet Hflags Hbound Hfails Hearly Hevents
    | argi w0 w t early after Hparse Hrej Hmet Hbind Hearly Hevents Hafter
        Hflags Ht ].
  - destruct Hin.
  - exfalso. apply parse_args_inv in Hparse as [_ Hmsgs].
    apply stderr_early in Hmsgs. rewrite Hevents in Hin.
    apply in_app_or in Hin as [Hin|[Hin|[]]]; [|discriminate].
    exact (Hnone _ Hmsgs Hin).
  - exfalso. exact (Hnone _ Hearly Hin).
  - exfalso. rewrite Hevents in Hin.
    apply in_app_or in Hin as [Hin|[Hin|[Hin|[]]]]; try discriminate.
    exact (Hnone _ Hearly Hin).
  - rewrite Hevents in Hin.
    apply in_app_or in Hin as [Hin|Hin]; [exfalso; exact (Hnone _ Hearly Hin)|].
    apply in_app_or in Hin as [Hin|Hin].
    { exfalso. unfold binding in Hin.
      destruct (cpu_unbound (w_flags w0)); [destruct Hin|].
      destruct Hin as [Hin|[]]. discriminate. }
    apply in_app_or in Hin as [Hin|Hin].
    { exfalso. apply record_setup_quiet in Hin as (_ & _ & Hin).
      now apply (Hin items). }
    destruct Hin as [Hin|Hin]; [discriminate|].
    destruct (Hafter _ Hin) as (items' & Heq & Hdump & trace & ->).
    injection Heq as ->.
    assert (Hraw : raw_dump (w_flags w) = raw_dump (w_flags w0)).
    { rewrite Hflags. now destruct (session_flags_members K env (w_flags w0))
        as (_ & _ & ->). }
    rewrite Hraw.
    destruct (start_dumping_lines (raw_dump (w_flags w0)) trace
                (skipn (Z.to_nat argi) (w_argv w0))) as [frames ->].
    split; [now exists frames|].
    apply parse_args_inv in Hparse as [Hparsed _].
    pose proof (parsed_raw_dump K argv argi _ Hparsed) as Hr.
    intros line Hline. cbn [lines_of] in Hline.
    assert (Hform : exists f, line = dump f (raw_dump (w_flags w0))).
    { clear - Hline. induction frames as [|f frames IH]; [destruct Hline|].
      destruct Hline as [<-|Hline]; [now exists f | now apply IH]. }
    destruct Hform as [f ->]. split; [reflexivity|]. split.
    + intros Hgiven. replace (raw_dump (w_flags w0)) with true; [reflexivity|].
      symmetry. apply Hr. now split.
    + intros Hnot. destruct (raw_dump (w_flags w0)) eqn:Hraw0; [|reflexivity].
      exfalso. apply Hnot. now apply Hr.
Qed.


Lemma dump_lines_witness :
  given "r" (dump_options sample_constants sample_dump_argv)
  /\ In (Stdout (Text dump_header
                   :: frame_lines true (map frame_at [127; 1000; 3000; 5000])))
        (w_events (world_after_run sample_constants sample_environment
                     sample_dump_argv))
  /\ map fst (line_fields (dump (frame_at 127) true)) = field_order
  /\ line_form (dump (frame_at 127) true) = RawForm.
Proof.
  assert (Hr : given "r" (dump_options sample_constants sample_dump_argv)).
  { unfold given. vm_compute. now left. }
  assert (Hrun : run sample_constants sample_environment sample_dump_argv
                 = Some (Exited 0,
                         world_after_run sample_constants sample_environment
                           sample_dump_argv))
    by (vm_compute; reflexivity).
  assert (Hin : In (Stdout (Text dump_header
                   :: frame_lines true (map frame_at [127; 1000; 3000; 5000])))
        (w_events (world_after_run sample_constants sample_environment
                     sample_dump_argv))).
  { vm_compute. right. right. now left. }
  split; [assumption|]. split; [assumption|].
  destruct (dump_lines _ _ _ _ _ _ Hrun Hin) as (_ & _ & Hlines).
  destruct (Hlines (dump (frame_at 127) true)) as (Hfields & Hraw & _);
    [now left|].
  split; [exact Hfields | exact (Hraw Hr)].
Defined.

(** C9.  For the record command, whatever string [s] is passed to
    [-i/--ignore-signal], [ignore_sig] holds
    [MIN(_NSIG - 1, MAX(1, atoi(s)))] for the last such string after the
    parse: it lies between 1 and [_NSIG - 1]. *)
Theorem ignore_sig_clamped
    (K : constants) (argv : list string) (argi : Z) (w : world) :
  parse_args K argv initial_world = Ret argi w ->
  option_ (w_flags w) = RECORD ->
  given "i" (record_options K argv) ->
  1 <= ignore_sig (w_flags w) <= _NSIG - 1
  /\ exists s, last_arg "i" (record_options K argv) = Some (Some s)
       /\ ignore_sig (w_flags w) = MIN (_NSIG - 1) (MAX 1 (atoi s)).
Proof.
  intros Hparse Hrecord Hgiven.
  apply parse_args_inv in Hparse as [Hparsed _].
  apply parsed_option in Hparsed. rewrite Hrecord in Hparsed.
  apply last_arg_given in Hgiven as [a Ha].
  destruct (record_options_optarg K argv "i" a) as [s ->];
    [auto | now apply last_arg_in|].
  assert (Hvalue : ignore_sig (w_flags w) = MIN (_NSIG - 1) (MAX 1 (atoi s))).
  { rewrite Hparsed.
    rewrite (fold_last_arg ignore_sig record_case "i"
               (fun a => MIN (_NSIG - 1) (MAX 1 (atoi (cstr a))))
               record_case_ignore_sig).
    now rewrite Ha. }
  split; [rewrite Hvalue; apply MIN_MAX_range | now exists s].
Qed.

Lemma ignore_sig_clamped_witness :
  (parse_args sample_constants sample_signal_argv initial_world
     = Ret 5 sample_signal_world
   /\ option_ (w_flags sample_signal_world) = RECORD
   /\ given "i" (record_options sample_constants sample_signal_argv))
  /\ record_options sample_constants sample_signal_argv
     = [("i"%char, Some "9999"); ("i"%char, Some "-3")]
  /\ 1 <= ignore_sig (w_flags sample_signal_world) <= _NSIG - 1.
Proof.
  assert (Hparse : parse_args sample_constants sample_signal_argv initial_world
                   = Ret 5 sample_signal_world) by (vm_compute; reflexivity).
  assert (Hrecord : option_ (w_flags sample_signal_world) = RECORD)
    by (vm_compute; reflexivity).
  assert (Hgiven : given "i" (record_options sample_constants sample_signal_argv)).
  { unfold given. vm_compute. tauto. }
  split; [now repeat split|]. split; [vm_compute; reflexivity|].
  exact (proj1 (ignore_sig_clamped sample_constants sample_signal_argv 5
                  sample_signal_world Hparse Hrecord Hgiven)).
Defined.

(** C10 (the code takes the command word for an argument).  The record
    and dump commands do start a session without a positional argument
    when ["--"] ends the common options.  On
    [rr record -n] no positional argument follows the options: the usage
    text is printed and the status is 1.  On [rr -- record -n] the scan of
    the record options reads [-n], reaches the end of [argv] and, as
    [getopt_long] was not started afresh after the ["--"] of the first
    scan, sets [optind] back to the word it remembers as skipped, the
    command word: [parse_args] returns 2, [main] takes [record] for the
    first positional argument, and starts recording [record -n] with exit
    status 0.  [rr -- dump] starts the dump of the trace [dump]
    likewise. *)
Theorem command_word_taken_as_argument :
  (exists w,
     run sample_constants sample_environment ["rr"; "record"; "-n"]
       = Some (Exited 1, w)
     /\ w_events w = [Stderr usage])
  /\ (exists w0,
        parse_args sample_constants ["rr"; "--"; "record"; "-n"] initial_world
          = Ret 2 w0
        /\ given "n" (record_options sample_constants
                        ["rr"; "--"; "record"; "-n"])
        /\ w_argv w0 = ["rr"; "--"; "record"; "-n"])
  /\ (exists w,
        run sample_constants sample_environment ["rr"; "--"; "record"; "-n"]
          = Some (Exited 0, w)
        /\ w_events w = [SetAffinity 0; Unsetenv "_RR_USE_SYSCALLBUF";
                         Started RECORD ["record"; "-n"]])
  /\ (exists w,
        run sample_constants sample_environment ["rr"; "dump"]
          = Some (Exited 1, w)
        /\ w_events w = [Stderr usage])
  /\ (exists w0,
        parse_args sample_constants ["rr"; "--"; "dump"] initial_world
          = Ret 2 w0
        /\ w_argv w0 = ["rr"; "--"; "dump"])
  /\ (exists w items,
        run sample_constants sample_environment ["rr"; "--"; "dump"]
          = Some (Exited 0, w)
        /\ w_events w = [SetAffinity 0; Started DUMP_EVENTS ["dump"];
                         Stdout items]).
Proof.
  split; [eexists; split; vm_compute; reflexivity|].
  split.
  { eexists. split; [vm_compute; reflexivity|].
    split; [unfold given; vm_compute; tauto | vm_compute; reflexivity]. }
  split; [eexists; split; vm_compute; reflexivity|].
  split; [eexists; split; vm_compute; reflexivity|].
  split; [eexists; split; vm_compute; reflexivity|].
  eexists _, _. split; vm_compute; reflexivity.
Qed.

(* ================================================================== *)
(** * Part IV: further properties *)
(* ================================================================== *)

(** ** One scan of the trace *)

Section DumpScan.

Variable raw_dump : bool.

(** What one scan reads, prints and leaves behind. *)
Lemma dump_loop_scan (a b : Z) (trace : list trace_frame) :
  forall out, exists before,
    Forall (fun f => global_time f <= b) before
    /\ snd (dump_loop a b raw_dump trace out) =
       out ++ frame_lines raw_dump
                (filter (fun f => a <=? global_time f) before)
    /\ ((trace = before /\ fst (dump_loop a b raw_dump trace out) = [])
        \/ exists g, b < global_time g
             /\ trace = before ++ g :: fst (dump_loop a b raw_dump trace out)).
Proof.
  induction trace as [|f trace IH]; intros out.
  - exists []. cbn. rewrite app_nil_r. repeat split; auto.
  - cbn [dump_loop]. destruct (b <? global_time f) eqn:Hend.
    + exists []. cbn. rewrite app_nil_r. repeat split; auto.
      right. exists f. split; [now apply Z.ltb_lt | reflexivity].
    + apply Z.ltb_ge in Hend.
      assert (Hle : (global_time f <=? b) = true) by now apply Z.leb_le.
      rewrite Hle, andb_true_r.
      destruct (a <=? global_time f) eqn:Hstart.
      * destruct (IH (out ++ [FrameLine f raw_dump]))
          as (before & Hall & Hout & Hrest).
        exists (f :: before). split; [now constructor|]. split.
        -- rewrite Hout. cbn [filter]. rewrite Hstart.
           cbn [frame_lines map]. now rewrite <- app_assoc.
        -- destruct Hrest as [[-> Hnil] | (g & Hg & Heq)].
           ++ now left.
           ++ right. exists g. split; [exact Hg|]. cbn. now rewrite <- Heq.
      * destruct (IH out) as (before & Hall & Hout & Hrest).
        exists (f :: before). split; [now constructor|]. split.
        -- rewrite Hout. cbn [filter]. now rewrite Hstart.
        -- destruct Hrest as [[-> Hnil] | (g & Hg & Heq)].
           ++ now left.
           ++ right. exists g. split; [exact Hg|]. cbn. now rewrite <- Heq.
Qed.

Lemma increasing_app (l1 l2 : list trace_frame) :
  increasing (l1 ++ l2) -> increasing l2.
Proof.
  induction l1 as [|f l1 IH]; [auto|].
  intros H. apply IH. exact (increasing_tail _ _ H).
Qed.

Lemma increasing_app_later (l1 l2 : list trace_frame) (g : trace_frame) :
  increasing (l1 ++ g :: l2) ->
  Forall (fun f => global_time f < global_time g) l1
  /\ Forall (fun f => global_time g < global_time f) l2.
Proof.
  induction l1 as [|f l1 IH]; intros H.
  - split; [constructor|]. exact (increasing_later _ _ H).
  - destruct (IH (increasing_tail _ _ H)) as [H1 H2]. split; [|exact H2].
    constructor; [|exact H1].
    pose proof (increasing_later _ _ H) as Hlater.
    rewrite Forall_forall in Hlater. apply Hlater, in_or_app. right. now left.
Qed.

Lemma filter_none (A : Type) (p : A -> bool) (l : list A) :
  Forall (fun x => p x = false) l -> filter p l = [].
Proof.
  induction 1 as [|x l Hx _ IH]; [reflexivity|]. cbn. now rewrite Hx.
Qed.

Lemma filter_same (A : Type) (p q : A -> bool) (l : list A) :
  Forall (fun x => p x = q x) l -> filter p l = filter q l.
Proof.
  induction 1 as [|x l Hx _ IH]; [reflexivity|]. cbn. now rewrite Hx, IH.
Qed.

End DumpScan.

(** ** Specs that are kept apart *)

Section Separated.

Variable raw_dump : bool.

Lemma in_ranges_below (ranges : list (Z * Z)) (trace : list trace_frame)
    (f : trace_frame) :
  separated trace ranges ->
  match ranges with
  | [] => True
  | (c, _) :: _ => global_time f < c
  end ->
  in_ranges ranges f = false.
Proof.
  induction ranges as [|[a b] rest IH]; [reflexivity|].
  cbn [separated]. intros (Hab & Hgap & Hsep) Hlt.
  cbn [in_ranges existsb fst snd]. fold (in_ranges rest f).
  rewrite IH; [|exact Hsep|].
  - unfold in_range. rewrite orb_false_r.
    replace (a <=? global_time f) with false by (symmetry; apply Z.leb_gt; lia).
    reflexivity.
  - destruct rest as [|[c d] rest']; [exact I|].
    destruct Hgap as (g & _ & Hg). lia.
Qed.

Lemma separated_suffix (pre post : list trace_frame) (ranges : list (Z * Z))
    (lo : Z) :
  Forall (fun f => global_time f < lo) pre ->
  match ranges with
  | [] => True
  | (c, _) :: _ => lo <= c
  end ->
  separated (pre ++ post) ranges -> separated post ranges.
Proof.
  intros Hpre. revert lo Hpre.
  induction ranges as [|[a b] rest IH]; intros lo Hpre Hlo; [auto|].
  cbn [separated]. intros (Hab & Hgap & Hsep).
  split; [exact Hab|].
  destruct rest as [|[c d] rest'].
  - split; [exact I|]. exact I.
  - destruct Hgap as (g & Hin & Hg). split.
    + exists g. split; [|exact Hg].
      apply in_app_or in Hin. destruct Hin as [Hin|Hin]; [|exact Hin].
      rewrite Forall_forall in Hpre. specialize (Hpre g Hin). lia.
    + apply (IH lo Hpre); [lia | exact Hsep].
Qed.

Lemma dump_specs_separated (ranges : list (Z * Z)) :
  forall trace out,
    increasing trace -> uint32_ranges ranges -> separated trace ranges ->
    snd (dump_specs raw_dump (range_specs ranges) trace out) =
    out ++ frame_lines raw_dump (filter (in_ranges ranges) trace).
Proof.
  induction ranges as [|[a b] rest IH]; intros trace out Hinc Hu Hsep.
  - cbn. rewrite filter_none; [now rewrite app_nil_r|].
    apply Forall_forall. reflexivity.
  - cbn [range_specs map dump_specs fst snd]. fold (range_specs rest).
    unfold dump_events_matching.
    inversion Hu as [|r rs [Ha Hb] Hu']; subst.
    rewrite (spec_bounds_range a b Ha Hb).
    destruct (dump_loop a b raw_dump trace out) as [trace' out'] eqn:Hloop.
    pose proof (dump_loop_filter raw_dump a b trace Hinc out) as Hout.
    destruct (dump_loop_scan raw_dump a b trace out)
      as (before & Hall & _ & Hrest).
    rewrite Hloop in Hout, Hrest. cbn [fst snd] in Hout, Hrest. subst out'.
    cbn [separated] in Hsep. destruct Hsep as (Hab & Hgap & Hsep).
    destruct Hrest as [[-> ->] | (g0 & Hg0 & Heq)].
    + (* the scan reached the end of the trace *)
      destruct rest as [|[c d] rest'].
      * cbn. f_equal. f_equal. apply filter_same, Forall_forall.
        intros f _. cbn. now rewrite orb_false_r.
      * destruct Hgap as (g & Hin & Hg).
        rewrite Forall_forall in Hall. specialize (Hall g Hin). lia.
    + subst trace.
      destruct (increasing_app_later _ _ _ Hinc) as [Hbefore Hafter].
      assert (Hlow : match rest with
                     | [] => True
                     | (c, _) :: _ => global_time g0 < c
                     end).
      { destruct rest as [|[c d] rest']; [exact I|].
        destruct Hgap as (g & Hin & Hg).
        apply in_app_or in Hin. destruct Hin as [Hin|[<-|Hin]].
        - rewrite Forall_forall in Hall. specialize (Hall g Hin). lia.
        - lia.
        - rewrite Forall_forall in Hafter. specialize (Hafter g Hin). lia. }
      assert (Hsep' : separated trace' rest).
      { change (before ++ g0 :: trace')
          with (before ++ [g0] ++ trace') in Hsep.
        rewrite app_assoc in Hsep.
        apply (separated_suffix (before ++ [g0]) trace' rest
                 (global_time g0 + 1)); [| |exact Hsep].
        - apply Forall_app. split.
          + eapply Forall_impl; [|exact Hbefore]. cbn. intros; lia.
          + constructor; [lia|constructor].
        - destruct rest as [|[c d] rest']; [exact I|]. lia. }
      rewrite IH; [|exact (increasing_tail _ _ (increasing_app _ _ Hinc))
                   |exact Hu'|exact Hsep'].
      rewrite <- app_assoc. f_equal. unfold frame_lines.
      rewrite <- map_app. f_equal.
      rewrite !filter_app. cbn [filter].
      assert (Hg0a : in_range a b g0 = false).
      { unfold in_range. replace (global_time g0 <=? b) with false
          by (symmetry; apply Z.leb_gt; lia). apply andb_false_r. }
      assert (Hg0r : in_ranges rest g0 = false).
      { apply (in_ranges_below rest trace'); [exact Hsep'|].
        destruct rest as [|[c d] rest']; [exact I|]. exact Hlow. }
      cbn [in_ranges existsb fst snd]. fold (in_ranges rest g0).
      rewrite Hg0a, Hg0r. cbn [orb].
      rewrite (filter_none _ (in_range a b) trace').
      2:{ eapply Forall_impl; [|exact Hafter]. cbn. intros f Hf.
          unfold in_range. replace (global_time f <=? b) with false
            by (symmetry; apply Z.leb_gt; lia). apply andb_false_r. }
      rewrite app_nil_r.
      rewrite (filter_same _ (in_ranges ((a, b) :: rest)) (in_range a b) before).
      2:{ rewrite Forall_forall in Hbefore |- *. intros f Hf.
          specialize (Hbefore f Hf). cbn [in_ranges existsb fst snd].
          fold (in_ranges rest f).
          rewrite (in_ranges_below rest trace'); [apply orb_false_r|exact Hsep'|].
          destruct rest as [|[c d] rest']; [exact I|]. lia. }
      f_equal. apply filter_same.
      eapply Forall_impl; [|exact Hafter]. cbn beta. intros f Hf.
      cbn [in_ranges existsb fst snd]. fold (in_ranges rest f).
      unfold in_range. replace (global_time f <=? b) with false
        by (symmetry; apply Z.leb_gt; lia).
      now rewrite andb_false_r.
Qed.

End Separated.

(** ** The dump *)

Lemma spec_bounds_number (n : Z) (rest : string) :
  0 <= n <= INT_MAX -> ends_number rest ->
  (forall r, rest = String "-" r -> forall v q, scan_u r <> Converted v q) ->
  spec_bounds (Some (decimal n ++ rest)%string) = (n, n).
Proof.
  intros Hn Hrest Hrange.
  assert (Hu : is_uint32 n) by (unfold is_uint32, INT_MAX, UINT_MAX in *; lia).
  assert (Hatoi : atoi (decimal n ++ rest) = n).
  { unfold atoi, strtol.
    destruct (decimal_head n rest) as (c & r & Heq & Hc). rewrite Heq.
    cbn [skip_space]. rewrite (isdigit_not_space c Hc).
    rewrite (isdigit_not_sign c r Hc). rewrite <- Heq.
    rewrite scan_number_decimal; [|lia|exact Hrest].
    unfold LONG_MAX, INT_MAX in *. rewrite Z.min_r by lia.
    unfold to_int32. rewrite Z.mod_small by lia. lia. }
  unfold spec_bounds, sscanf_u_dash_u.
  rewrite (scan_u_decimal n rest Hu Hrest).
  assert (Hsmall : to_uint32 n = n).
  { unfold to_uint32. apply Z.mod_small.
    unfold is_uint32, UINT_MAX in Hu. lia. }
  destruct rest as [|c r].
  - cbn [Z.gtb Z.compare]. now rewrite Hatoi, Hsmall.
  - destruct (Ascii.eqb_spec c "-") as [->|Hc].
    + destruct (scan_u r) as [| |v q] eqn:Hscan.
      * cbn [Z.gtb Z.compare]. now rewrite Hatoi, Hsmall.
      * cbn [Z.gtb Z.compare]. now rewrite Hatoi, Hsmall.
      * exfalso. exact (Hrange r eq_refl v q Hscan).
    + assert (Hone : match String c r with
                     | String "-" rest' =>
                         match scan_u rest' with
                         | Converted b _ => (2, n, b)
                         | _ => (1, n, UINT_MAX)
                         end
                     | _ => (1, n, UINT_MAX)
                     end = (1, n, UINT_MAX)).
      { destruct c as [[] [] [] [] [] [] [] []]; try reflexivity.
        now contradiction Hc. }
      rewrite Hone. cbn [Z.gtb Z.compare]. now rewrite Hatoi, Hsmall.
Qed.

Lemma spec_bounds_no_number (spec : string) :
  no_number spec -> spec_bounds (Some spec) = (0, 0).
Proof.
  unfold no_number. intros Hnone.
  assert (Hatoi : atoi spec = 0).
  { unfold atoi, strtol.
    destruct (scan_sign (skip_space spec)) as [neg s1]. cbn [snd] in Hnone.
    now rewrite Hnone. }
  unfold spec_bounds, sscanf_u_dash_u, scan_u.
  destruct (skip_space spec) as [|c r] eqn:Hskip.
  - cbn. now rewrite Hatoi.
  - destruct (scan_sign (String c r)) as [neg s2]. cbn [snd] in Hnone.
    rewrite Hnone. cbn. now rewrite Hatoi.
Qed.

(** X1: whatever the event specs are, the dump is the header followed by
    lines for frames of the trace, each frame at most once and in the
    order of the trace: the written frames are the trace with frames left
    out. *)
Theorem dump_is_header_and_subsequence
    (raw : bool) (trace : TraceIfstream) (argv : list string) :
  exists frames,
    start_dumping raw trace argv = Text dump_header :: frame_lines raw frames
    /\ subsequence frames trace.
Proof.
  unfold start_dumping.
  destruct (Z.of_nat (List.length argv) =? 1).
  - unfold dump_events_matching. destruct (spec_bounds None) as [a b].
    destruct (dump_loop a b raw trace [Text dump_header]) as [rest out'] eqn:H.
    destruct (dump_loop_order raw a b trace _ _ _ H)
      as (read & frames & -> & -> & Hsub).
    exists frames. split; [reflexivity|].
    rewrite <- (app_nil_r frames).
    apply subsequence_app; [exact Hsub | constructor].
  - destruct (dump_specs raw (tl argv) trace [Text dump_header])
      as [rest out'] eqn:H.
    destruct (dump_specs_order raw (tl argv) trace _ _ _ H)
      as (read & frames & -> & -> & Hsub).
    exists frames. split; [reflexivity|].
    rewrite <- (app_nil_r frames).
    apply subsequence_app; [exact Hsub | constructor].
Qed.

(** X2: one scan of [dump_events_matching] reads the trace up to the end
    of the trace or up to and including the first frame past the end bound
    of the spec; it prints the frames read before that one which are not
    below the start bound, and leaves the trace after the frame that ended
    the scan. *)
Theorem dump_scan_consumes_boundary
    (raw : bool) (trace : TraceIfstream) (out : FILE) (spec : option string) :
  exists before,
    Forall (fun f => global_time f <= snd (spec_bounds spec)) before
    /\ snd (dump_events_matching raw trace out spec) =
       out ++ frame_lines raw
                (filter (fun f => fst (spec_bounds spec) <=? global_time f)
                   before)
    /\ ((trace = before /\ fst (dump_events_matching raw trace out spec) = [])
        \/ exists g,
             snd (spec_bounds spec) < global_time g
             /\ trace =
                before ++ g :: fst (dump_events_matching raw trace out spec)).
Proof.
  unfold dump_events_matching. destruct (spec_bounds spec) as [a b].
  cbn [fst snd]. apply dump_loop_scan.
Qed.

(** X3: when the trace is increasing and the specs are non-empty ranges in
    increasing order with a frame of the trace strictly between each range
    and the next, the dump prints exactly the frames that match some spec,
    in trace order. *)
Theorem dump_separated_specs
    (raw : bool) (trace : TraceIfstream) (dir : string)
    (ranges : list (Z * Z)) :
  increasing trace -> uint32_ranges ranges -> separated trace ranges ->
  ranges <> [] ->
  start_dumping raw trace (dir :: range_specs ranges) =
  Text dump_header :: frame_lines raw (filter (in_ranges ranges) trace).
Proof.
  intros Hinc Hu Hsep Hne. unfold start_dumping.
  destruct ranges as [|r ranges]; [now contradiction Hne|].
  replace (Z.of_nat (List.length (dir :: range_specs (r :: ranges))) =? 1)
    with false.
  2:{ symmetry. apply Z.eqb_neq. cbn [List.length range_specs map]. lia. }
  cbn [tl]. now rewrite dump_specs_separated.
Qed.

Lemma dump_separated_specs_witness :
  (increasing (map frame_at [1; 2; 3; 4; 5])
   /\ uint32_ranges [(1, 2); (4, 5)]
   /\ separated (map frame_at [1; 2; 3; 4; 5]) [(1, 2); (4, 5)]
   /\ [(1, 2); (4, 5)] <> @nil (Z * Z))
  /\ range_specs [(1, 2); (4, 5)] = ["1-2"; "4-5"]
  /\ start_dumping false (map frame_at [1; 2; 3; 4; 5])
       ["trace_0"; "1-2"; "4-5"] =
     Text dump_header :: frame_lines false (map frame_at [1; 2; 4; 5]).
Proof.
  assert (Hinc : increasing (map frame_at [1; 2; 3; 4; 5])).
  { unfold increasing. cbn.
    repeat (constructor; try (cbn; lia)). }
  assert (Hu : uint32_ranges [(1, 2); (4, 5)]).
  { repeat constructor; cbn; unfold UINT_MAX; lia. }
  assert (Hsep : separated (map frame_at [1; 2; 3; 4; 5]) [(1, 2); (4, 5)]).
  { cbn. repeat split; try lia.
    exists (frame_at 3). cbn. split; [tauto | lia]. }
  assert (Hne : [(1, 2); (4, 5)] <> @nil (Z * Z)) by discriminate.
  split; [exact (conj Hinc (conj Hu (conj Hsep Hne)))|].
  split; [reflexivity|].
  exact (dump_separated_specs false _ "trace_0" _ Hinc Hu Hsep Hne).
Defined.

(** X4: an event spec that starts with a number no larger than [INT_MAX]
    and is not a full range selects that single event: text after the
    number is ignored, and so is a dash that no second number follows. *)
Theorem dump_number_with_trailing_text
    (raw : bool) (trace : TraceIfstream) (dir : string) (n : Z)
    (rest : string) :
  increasing trace -> 0 <= n <= INT_MAX -> ends_number rest ->
  (forall r, rest = String "-" r -> forall v q, scan_u r <> Converted v q) ->
  start_dumping raw trace [dir; (decimal n ++ rest)%string] =
  Text dump_header :: frame_lines raw (filter (in_range n n) trace).
Proof.
  intros Hinc Hn Hrest Hrange.
  apply dump_bounds; [exact Hinc|].
  now apply spec_bounds_number.
Qed.

Lemma dump_number_with_trailing_text_witness :
  (increasing sample_trace /\ 0 <= 1000 <= INT_MAX /\ ends_number "-"
   /\ (forall r, "-" = String "-" r ->
         forall v q, scan_u r <> Converted v q))
  /\ (decimal 1000 ++ "-")%string = "1000-"
  /\ start_dumping true sample_trace ["trace_0"; "1000-"] =
     [Text dump_header; FrameLine (frame_at 1000) true].
Proof.
  assert (Hinc : increasing sample_trace).
  { unfold increasing. cbn. repeat (constructor; try (cbn; lia)). }
  assert (Hn : 0 <= 1000 <= INT_MAX) by (unfold INT_MAX; lia).
  assert (Hrest : ends_number "-") by reflexivity.
  assert (Hrange : forall r, "-" = String "-" r ->
            forall v q, scan_u r <> Converted v q).
  { intros r Heq. injection Heq as <-. discriminate. }
  split; [exact (conj Hinc (conj Hn (conj Hrest Hrange)))|].
  split; [reflexivity|].
  exact (dump_number_with_trailing_text true sample_trace "trace_0" 1000 "-"
           Hinc Hn Hrest Hrange).
Defined.

(** X5: an event spec that holds no number (the empty string, a word)
    is read as event 0: on an increasing trace the dump prints the frames
    whose [global_time] is 0 and no others. *)
Theorem dump_spec_without_number
    (raw : bool) (trace : TraceIfstream) (dir spec : string) :
  increasing trace -> no_number spec ->
  start_dumping raw trace [dir; spec] =
  Text dump_header :: frame_lines raw (filter (in_range 0 0) trace).
Proof.
  intros Hinc Hnone. apply dump_bounds; [exact Hinc|].
  now apply spec_bounds_no_number.
Qed.

Lemma dump_spec_without_number_witness :
  (increasing sample_trace /\ no_number "all")
  /\ start_dumping false sample_trace ["trace_0"; "all"] = [Text dump_header].
Proof.
  assert (Hinc : increasing sample_trace).
  { unfold increasing. cbn. repeat (constructor; try (cbn; lia)). }
  assert (Hnone : no_number "all") by reflexivity.
  split; [exact (conj Hinc Hnone)|].
  exact (dump_spec_without_number false sample_trace "trace_0" "all" Hinc Hnone).
Defined.

(** ** The start-up checks *)

Section Files.

Lemma fscanf_d_decimal (n : Z) (rest : string) :
  0 <= n <= INT_MAX -> ends_number rest ->
  fscanf_d (decimal n ++ rest) = (1, Some n).
Proof.
  intros Hn Hrest. unfold fscanf_d.
  destruct (decimal_head n rest) as (c & r & Heq & Hc). rewrite Heq.
  cbn [skip_space]. rewrite (isdigit_not_space c Hc).
  rewrite (isdigit_not_sign c r Hc). rewrite <- Heq.
  rewrite scan_number_decimal; [|lia|exact Hrest].
  unfold LONG_MAX, INT_MAX in *. rewrite Z.min_r by lia.
  unfold to_int32. rewrite Z.mod_small by lia. do 2 f_equal. lia.
Qed.

Lemma fscanf_d_negative (n : Z) (rest : string) :
  0 <= n <= - INT_MIN -> ends_number rest ->
  fscanf_d (String "-" (decimal n ++ rest)) = (1, Some (- n)).
Proof.
  intros Hn Hrest. unfold fscanf_d.
  change (skip_space (String "-" (decimal n ++ rest)))
    with (String "-" (decimal n ++ rest)).
  cbv beta iota.
  change (scan_sign (String "-" (decimal n ++ rest)))
    with (true, (decimal n ++ rest)%string).
  cbv beta iota.
  rewrite scan_number_decimal; [|lia|exact Hrest].
  unfold LONG_MIN, INT_MIN in *. rewrite Z.max_r by lia.
  unfold to_int32.
  replace (- n + 2 ^ 31) with (2 ^ 31 - n) by lia.
  rewrite Z.mod_small by lia. do 2 f_equal. lia.
Qed.

Lemma fscanf_d_no_number (content : string) :
  no_number content -> exists n, fscanf_d content = (n, None).
Proof.
  unfold no_number, fscanf_d. intros Hnone.
  destruct (skip_space content) as [|c r]; [eauto|].
  destruct (scan_sign (String c r)) as [neg s2]. cbn [snd] in Hnone.
  rewrite Hnone. eauto.
Qed.

End Files.

(** X6: [read_int_file] returns -1 when the file cannot be opened and the
    number at the head of the file otherwise (white space before it and
    anything after it are ignored); a file that holds no number ends the
    process with a message that names the file. *)
Theorem read_int_file_results (filename : string) (w : world) :
  read_int_file filename None w = Ret (-1) w
  /\ (forall n rest, 0 <= n <= INT_MAX -> ends_number rest ->
        read_int_file filename (Some (decimal n ++ rest)%string) w = Ret n w)
  /\ (forall n rest, 0 <= n <= - INT_MIN -> ends_number rest ->
        read_int_file filename (Some (String "-" (decimal n ++ rest))) w
        = Ret (- n) w)
  /\ (forall content, no_number content ->
        read_int_file filename (Some content) w
        = Stop Fatal (add_events w [Stderr (scan_failure_message filename)])).
Proof.
  split; [reflexivity|]. split; [|split].
  - intros n rest Hn Hrest. unfold read_int_file.
    now rewrite fscanf_d_decimal.
  - intros n rest Hn Hrest. unfold read_int_file.
    now rewrite fscanf_d_negative.
  - intros content Hnone. unfold read_int_file.
    destruct (fscanf_d_no_number content Hnone) as [n ->].
    destruct n as [|[]|]; apply FATAL_result.
Qed.

Lemma read_int_file_results_witness :
  read_int_file "ptrace_scope" (Some (decimal 2 ++ newline)%string)
    initial_world = Ret 2 initial_world
  /\ read_int_file "ptrace_scope" (Some "") initial_world
     = Stop Fatal
         (add_events initial_world
            [Stderr "Failed to scan integer from ptrace_scope"]).
Proof.
  pose proof (read_int_file_results "ptrace_scope" initial_world)
    as (_ & Hnum & _ & Hnone).
  split.
  - apply Hnum; [unfold INT_MAX; lia | reflexivity].
  - apply Hnone. reflexivity.
Defined.

Section Prerequisites.

Variable env : environment.

Lemma read_ptrace_scope (w : world) (val : Z) :
  ptrace_scope_of env = Some val ->
  read_int_file "/proc/sys/kernel/yama/ptrace_scope" (ptrace_scope_file env) w
  = Ret val w.
Proof.
  unfold ptrace_scope_of, read_int_file.
  destruct (ptrace_scope_file env) as [content|]; [|discriminate].
  destruct (fscanf_d content) as [n [v|]]; [|destruct n as [|[]|]; discriminate].
  destruct n as [|[]|]; try discriminate. now intros [= ->].
Qed.

Lemma KERNEL_VERSION_not_below (major minor m : Z) :
  0 <= major <= 65535 -> 0 <= minor <= 255 -> 0 <= m <= 255 ->
  ~ version_below major minor 3 m ->
  (KERNEL_VERSION major minor 0 <? KERNEL_VERSION 3 m 0) = false.
Proof.
  intros Hmaj Hmin Hm Hnot. apply Z.ltb_ge.
  unfold KERNEL_VERSION, to_uint32.
  rewrite !Z.shiftl_mul_pow2 by lia.
  change (2 ^ 16) with 65536. change (2 ^ 8) with 256.
  change (2 ^ 32) with 4294967296.
  unfold version_below in Hnot.
  rewrite !Z.mod_small by lia. lia.
Qed.

End Prerequisites.

(** X7: [assert_prerequisites] returns, and writes nothing, when the
    ptrace_scope file is missing or holds a number that is not positive,
    and [uname] fails or reports a kernel that is not below 3.4, nor below
    3.5 when the syscall buffer is in use. *)
Theorem prerequisites_met (env : environment) (w : world) :
  ptrace_scope_file env = None
  \/ (exists val, ptrace_scope_of env = Some val /\ val <= 0) ->
  uname_release env = None
  \/ (exists major minor,
        kernel_of env = Some (major, minor)
        /\ 0 <= major <= 65535 /\ 0 <= minor <= 255
        /\ ~ version_below major minor 3
               (if use_syscall_buffer (w_flags w) then 5 else 4)) ->
  assert_prerequisites env w = Ret tt w.
Proof.
  intros Hscope Hkernel. unfold assert_prerequisites.
  assert (Hread : exists val,
            read_int_file "/proc/sys/kernel/yama/ptrace_scope"
              (ptrace_scope_file env) w = Ret val w /\ val <= 0).
  { destruct Hscope as [Hnone | (val & Hval & Hle)].
    - rewrite Hnone. exists (-1). split; [reflexivity | lia].
    - exists val. split; [now apply read_ptrace_scope | exact Hle]. }
  destruct Hread as (val & Hread & Hle).
  rewrite bind_result, Hread.
  replace (val >? 0) with false by (symmetry; rewrite Z.gtb_ltb; apply Z.ltb_ge; lia).
  rewrite bind_ret.
  destruct Hkernel as [Hnone | (major & minor & Hker & Hmaj & Hmin & Hnot)].
  - now rewrite Hnone.
  - unfold kernel_of in Hker.
    destruct (uname_release env) as [release|]; [|discriminate].
    rewrite Hker.
    assert (H4 : ~ version_below major minor 3 4).
    { intros H. apply Hnot. unfold version_below in *.
      destruct (use_syscall_buffer (w_flags w)); lia. }
    rewrite (KERNEL_VERSION_not_below major minor 4) by (assumption || lia).
    rewrite bind_ret, bind_get_flags.
    destruct (use_syscall_buffer (w_flags w)); [|reflexivity].
    now rewrite (KERNEL_VERSION_not_below major minor 5) by (assumption || lia).
Qed.

Lemma prerequisites_met_witness :
  (ptrace_scope_file old_kernel_environment = None
   \/ (exists val, ptrace_scope_of old_kernel_environment = Some val
                   /\ val <= 0))
  /\ kernel_of old_kernel_environment = Some (3, 4)
  /\ use_syscall_buffer (w_flags initial_world) = false
  /\ assert_prerequisites old_kernel_environment initial_world
     = Ret tt initial_world.
Proof.
  assert (Hscope : ptrace_scope_file old_kernel_environment = None
            \/ (exists val, ptrace_scope_of old_kernel_environment = Some val
                            /\ val <= 0)).
  { right. exists 0. split; [reflexivity | lia]. }
  assert (Hkernel : uname_release old_kernel_environment = None
            \/ (exists major minor,
                  kernel_of old_kernel_environment = Some (major, minor)
                  /\ 0 <= major <= 65535 /\ 0 <= minor <= 255
                  /\ ~ version_below major minor 3
                         (if use_syscall_buffer (w_flags initial_world)
                          then 5 else 4))).
  { right. exists 3, 4. split; [reflexivity|].
    split; [lia|]. split; [lia|]. cbn. unfold version_below. lia. }
  split; [exact Hscope|]. split; [reflexivity|]. split; [reflexivity|].
  exact (prerequisites_met old_kernel_environment initial_world Hscope Hkernel).
Defined.

(** X8: a positive number in the ptrace_scope file ends the process with
    the message that shows the number; the kernel version is not looked at
    before. *)
Theorem ptrace_scope_restricted (env : environment) (w : world) (val : Z) :
  ptrace_scope_of env = Some val -> 0 < val ->
  assert_prerequisites env w
  = Stop Fatal (add_events w [Stderr (ptrace_scope_message val)]).
Proof.
  intros Hval Hpos. unfold assert_prerequisites.
  rewrite bind_result, (read_ptrace_scope env w val Hval).
  replace (val >? 0) with true by (symmetry; rewrite Z.gtb_ltb; apply Z.ltb_lt; lia).
  now rewrite bind_FATAL.
Qed.

Lemma ptrace_scope_restricted_witness :
  (ptrace_scope_of restricted_environment = Some 1 /\ 0 < 1)
  /\ assert_prerequisites restricted_environment initial_world
     = Stop Fatal
         (add_events initial_world
            [Stderr "Can't write to process memory; ptrace_scope is 1"]).
Proof.
  assert (Hval : ptrace_scope_of restricted_environment = Some 1)
    by reflexivity.
  assert (Hpos : 0 < 1) by lia.
  split; [exact (conj Hval Hpos)|].
  exact (ptrace_scope_restricted restricted_environment initial_world 1
           Hval Hpos).
Defined.

(** ** The frequency governor *)

Section Governor.

Lemma c_string_nul_free (s : string) : nul_free s = true -> c_string s = s.
Proof.
  induction s as [|c r IH]; [reflexivity|]. cbn [nul_free c_string].
  intros H. apply andb_true_iff in H as [Hc Hr].
  apply negb_true_iff in Hc. rewrite Hc. now rewrite IH.
Qed.

Lemma substring_all (s : string) :
  forall n, (String.length s <= n)%nat -> substring 0 n s = s.
Proof.
  induction s as [|c r IH]; intros n Hn.
  - now destruct n.
  - destruct n as [|n]; [cbn in Hn; lia|].
    cbn [substring]. rewrite IH; [reflexivity|]. cbn in Hn. lia.
Qed.

Lemma drop_last_line (g : string) (c : ascii) :
  drop_last (g ++ String c "") = g.
Proof.
  induction g as [|x g IH]; [reflexivity|].
  cbn [append drop_last]. rewrite IH.
  destruct g; reflexivity.
Qed.

Lemma length_app (s1 s2 : string) :
  String.length (s1 ++ s2) = (String.length s1 + String.length s2)%nat.
Proof.
  induction s1 as [|c r IH]; [reflexivity|]. cbn. now rewrite IH.
Qed.

End Governor.

(** X9: when the governor file holds a line, [governor] followed by one
    more character (the line feed the code eats), the check is silent for
    the governor [performance] and otherwise writes the warning, which
    quotes the governor of the file.  The last character is dropped
    whatever it is. *)
Theorem governor_warning_for_other_governors
    (env : environment) (w : world) (governor : string) (last : ascii) :
  governor_file env = Some (Some (governor ++ String last "")%string) ->
  nul_free (governor ++ String last "") = true ->
  (String.length governor < PATH_MAX - 1)%nat ->
  check_performance_settings env w =
  if String.eqb "performance" governor then Ret tt w
  else Ret tt (add_events w [Stderr (governor_warning governor)]).
Proof.
  intros Hfile Hnul Hlen. unfold check_performance_settings.
  rewrite Hfile.
  rewrite substring_all.
  2:{ rewrite length_app. cbn [String.length]. lia. }
  rewrite (c_string_nul_free _ Hnul), drop_last_line.
  now destruct (String.eqb "performance" governor).
Qed.

Lemma governor_warning_for_other_governors_witness :
  (governor_file sample_environment
     = Some (Some ("performance" ++ String (ascii_of_nat 10) "")%string)
   /\ nul_free ("performance" ++ String (ascii_of_nat 10) "") = true
   /\ (String.length "performance" < PATH_MAX - 1)%nat)
  /\ check_performance_settings sample_environment initial_world
     = Ret tt initial_world.
Proof.
  assert (Hfile : governor_file sample_environment
            = Some (Some ("performance" ++ String (ascii_of_nat 10) "")%string))
    by reflexivity.
  assert (Hnul : nul_free ("performance" ++ String (ascii_of_nat 10) "") = true)
    by reflexivity.
  assert (Hlen : (String.length "performance" < PATH_MAX - 1)%nat).
  { unfold PATH_MAX. cbn [String.length]. lia. }
  split; [exact (conj Hfile (conj Hnul Hlen))|].
  exact (governor_warning_for_other_governors sample_environment initial_world
           "performance" (ascii_of_nat 10) Hfile Hnul Hlen).
Defined.

(** A governor file that ends without a line feed loses the last letter of
    the governor: the check warns about [performanc]. *)
Example governor_without_line_feed :
  check_performance_settings
    (with_governor (Some (Some "performance")) sample_environment)
    initial_world
  = Ret tt (add_events initial_world [Stderr (governor_warning "performanc")]).
Proof. vm_compute. reflexivity. Qed.

(** ** The flags the options set *)

Ltac case_frame :=
  let c := fresh "c" in
  intros c ? ?; by_char c; try reflexivity;
  unfold apply_case; cbn; split_ifs; reflexivity.

Section LastWins.

Context {A : Type}.
Variable field : flags -> A.
Variable cases : ascii -> option string -> switch_case.

(** Options that do not assign a member leave it as it is. *)
Lemma fold_untouched (assigns : ascii -> bool)
    (opts : list (ascii * option string)) :
  (forall c a f, assigns c = false ->
     field (apply_case cases f (c, a)) = field f) ->
  Forall (fun p => assigns (fst p) = false) opts ->
  forall fl, field (fold_left (apply_case cases) opts fl) = field fl.
Proof.
  intros Hframe Hopts.
  induction Hopts as [|[c a] opts Hc _ IH]; intros fl; [reflexivity|].
  cbn [fold_left]. rewrite IH. now apply Hframe.
Qed.

(** After the last option that assigns a member, the member keeps what
    that option assigned. *)
Lemma fold_after_last (assigns : ascii -> bool)
    (pre post : list (ascii * option string)) (o : ascii * option string)
    (fl : flags) :
  (forall c a f, assigns c = false ->
     field (apply_case cases f (c, a)) = field f) ->
  Forall (fun p => assigns (fst p) = false) post ->
  field (fold_left (apply_case cases) (pre ++ o :: post) fl) =
  field (apply_case cases (fold_left (apply_case cases) pre fl) o).
Proof.
  intros Hframe Hpost. rewrite fold_left_app. cbn [fold_left].
  now apply (fold_untouched assigns).
Qed.

Variable P : A -> Prop.
Variables x y : ascii.
Hypothesis Hxy : x <> y.
Hypothesis Hx : forall a fl, P (field (apply_case cases fl (x, a))).
Hypothesis Hy : forall a fl, ~ P (field (apply_case cases fl (y, a))).
Hypothesis Hother : forall c a fl,
  c <> x -> c <> y -> field (apply_case cases fl (c, a)) = field fl.

(** Of two options that assign a member, the last one given decides. *)
Lemma fold_last_of_two (opts : list (ascii * option string)) (fl : flags) :
  ~ P (field fl) ->
  P (field (fold_left (apply_case cases) opts fl)) <->
  exists pre a post, opts = pre ++ (x, a) :: post /\ ~ given y post.
Proof.
  intros Hinit. induction opts as [|[c a] opts IH] using rev_ind.
  - cbn. split; [tauto|]. intros (pre & a & post & H & _).
    now destruct pre.
  - rewrite fold_left_app. cbn [fold_left].
    destruct (Ascii.eqb_spec c x) as [->|Hcx].
    { split; [intros _ | intros _; apply Hx].
      exists opts, a, []. split; [reflexivity|]. intros []. }
    destruct (Ascii.eqb_spec c y) as [->|Hcy].
    { split; [intros H; now apply Hy in H|].
      intros (pre & a' & post & Heq & Hnot). exfalso.
      destruct post as [|p post _] using rev_ind.
      - apply app_inj_tail in Heq as [_ Heq]. congruence.
      - change (pre ++ (x, a') :: post ++ [p])
          with (pre ++ ((x, a') :: post) ++ [p]) in Heq.
        rewrite app_assoc in Heq. apply app_inj_tail in Heq as [_ <-].
        apply Hnot. unfold given. rewrite map_app. apply in_or_app.
        right. now left. }
    rewrite Hother by assumption. rewrite IH. split.
    + intros (pre & a' & post & -> & Hnot).
      exists pre, a', (post ++ [(c, a)]). split.
      * now rewrite <- app_assoc.
      * unfold given in *. rewrite map_app. intros Hin.
        apply in_app_or in Hin as [Hin|[Hin|[]]]; [tauto|].
        cbn in Hin. congruence.
    + intros (pre & a' & post & Heq & Hnot).
      destruct post as [|p post _] using rev_ind.
      * apply app_inj_tail in Heq as [_ Heq]. congruence.
      * change (pre ++ (x, a') :: post ++ [p])
          with (pre ++ ((x, a') :: post) ++ [p]) in Heq.
        rewrite app_assoc in Heq. apply app_inj_tail in Heq as [-> <-].
        exists pre, a', post. split; [reflexivity|].
        intros Hin. apply Hnot. unfold given in *. rewrite map_app.
        apply in_or_app. now left.
Qed.

End LastWins.

Section SetOnce.

Variable field : flags -> bool.
Variable cases : ascii -> option string -> switch_case.
Variable sets : ascii -> bool.
Hypothesis Hcase : forall c a fl,
  field (apply_case cases fl (c, a)) = sets c || field fl.

(** A switch that options only turn on is on when one of them is given. *)
Lemma fold_set_once (opts : list (ascii * option string)) :
  forall fl,
    field (fold_left (apply_case cases) opts fl) =
    existsb sets (map fst opts) || field fl.
Proof.
  induction opts as [|[c a] opts IH]; intros fl; [reflexivity|].
  cbn [fold_left map fst existsb]. rewrite IH, Hcase.
  destruct (sets c), (existsb sets (map fst opts)), (field fl); reflexivity.
Qed.

End SetOnce.

Lemma not_given_forall (cs : list ascii)
    (opts : list (ascii * option string)) :
  (forall c, In c cs -> ~ given c opts) ->
  Forall (fun p => existsb (Ascii.eqb (fst p)) cs = false) opts.
Proof.
  intros Hnot. apply Forall_forall. intros [c a] Hin. cbn [fst].
  destruct (existsb (Ascii.eqb c) cs) eqn:Hex; [|reflexivity].
  apply existsb_exists in Hex as (c' & Hc' & Heq).
  apply Ascii.eqb_eq in Heq. subst c'.
  exfalso. apply (Hnot c Hc'). unfold given.
  apply in_map_iff. now exists (c, a).
Qed.

Section CommandFlags.

Variable K : constants.
Variable argv : list string.

(** A member the parsers of the commands never assign is as the common
    options left it. *)
Lemma parsed_keeps {A : Type} (field : flags -> A) (r : Z) (fl : flags) :
  parsed K argv r fl ->
  (forall v f, field (set_option_ v f) = field f) ->
  (forall c a f, field (apply_case record_case f (c, a)) = field f) ->
  (forall c a f, field (apply_case replay_case f (c, a)) = field f) ->
  (forall c a f, field (apply_case dump_case f (c, a)) = field f) ->
  field fl = field (after_common K argv).
Proof.
  intros [Hr -> | -> | -> | ->] Hset Hrec Hrep Hdump; [reflexivity|..].
  - now rewrite (fold_preserves field record_case Hrec), Hset.
  - now rewrite (fold_preserves field replay_case Hrep), Hset.
  - now rewrite (fold_preserves field dump_case Hdump), Hset.
Qed.

Lemma after_common_keeps {A : Type} (field : flags -> A) :
  (forall c a f, field (apply_case (common_case K) f (c, a)) = field f) ->
  field (after_common K argv) = field (set_defaults K flags_zero).
Proof.
  intros H. unfold after_common. now rewrite (fold_preserves field _ H).
Qed.

Lemma parsed_replay_flags (r : Z) (fl : flags) :
  parsed K argv r fl -> option_ fl = REPLAY ->
  fl = fold_left (apply_case replay_case) (replay_options K argv)
         (set_option_ REPLAY (after_common K argv)).
Proof.
  intros Hp Hcmd. pose proof (parsed_option K argv r fl Hp) as H.
  now rewrite Hcmd in H.
Qed.

Lemma parsed_record_flags (r : Z) (fl : flags) :
  parsed K argv r fl -> option_ fl = RECORD ->
  fl = fold_left (apply_case record_case) (record_options K argv)
         (set_option_ RECORD (after_common K argv)).
Proof.
  intros Hp Hcmd. pose proof (parsed_option K argv r fl Hp) as H.
  now rewrite Hcmd in H.
Qed.

(** Only the parser of the record command assigns [use_syscall_buffer]. *)
Lemma parsed_use_syscall_buffer (r : Z) (fl : flags) :
  parsed K argv r fl -> option_ fl <> RECORD ->
  use_syscall_buffer fl = true.
Proof.
  intros Hp Hcmd. pose proof (parsed_option K argv r fl Hp) as H.
  assert (Hcommon : use_syscall_buffer (after_common K argv) = true).
  { rewrite (after_common_keeps use_syscall_buffer); [reflexivity|].
    case_frame. }
  destruct (option_ fl).
  - destruct H as [_ ->]. exact Hcommon.
  - now contradiction Hcmd.
  - rewrite H, (fold_preserves use_syscall_buffer replay_case);
      [exact Hcommon | case_frame].
  - rewrite H, (fold_preserves use_syscall_buffer dump_case);
      [exact Hcommon | case_frame].
Qed.

End CommandFlags.

Section OptionArguments.

Variable K : constants.
Variable argv : list string.

(** The options of the replay command that take an argument always come
    with one. *)
Lemma replay_options_optarg (c : ascii) (a : option string) :
  In c ["f"; "g"; "p"; "s"; "x"]%char ->
  In (c, a) (replay_options K argv) -> exists s, a = Some s.
Proof.
  intros Hc Hin. destruct a as [s|]; [now exists s | exfalso].
  unfold replay_options in Hin.
  destruct (common_end K argv) as [[cmdi st]|]; [|destruct Hin].
  apply scan_options_optarg in Hin.
  cbn [In] in Hc.
  destruct Hin as [-> | [Hspec | (o & Ho & Hval & Harg)]].
  - intuition discriminate.
  - intuition (subst c; discriminate).
  - cbn in Ho.
    repeat (destruct Ho as [<-|Ho];
            [unfold opt in *; cbn in Hval, Harg; try discriminate Harg; subst c;
             intuition discriminate|]).
    destruct Ho.
Qed.

(** So do the common options that take one. *)
Lemma common_options_arguments (c : ascii) (a : option string) :
  In c ["c"; "d"; "t"; "w"]%char ->
  In (c, a) (common_options K argv) -> exists s, a = Some s.
Proof.
  intros Hc Hin. destruct a as [s|]; [now exists s | exfalso].
  apply scan_options_optarg in Hin.
  cbn [In] in Hc.
  destruct Hin as [-> | [Hspec | (o & Ho & Hval & Harg)]].
  - intuition discriminate.
  - intuition (subst c; discriminate).
  - cbn in Ho.
    repeat (destruct Ho as [<-|Ho];
            [unfold opt in *; cbn in Hval, Harg; try discriminate Harg; subst c;
             intuition discriminate|]).
    destruct Ho.
Qed.

End OptionArguments.

Lemma last_arg_not_given (c : ascii) (opts : list (ascii * option string)) :
  ~ given c opts -> last_arg c opts = None.
Proof.
  intros Hnot. destruct (last_arg c opts) as [a|] eqn:H; [|reflexivity].
  exfalso. apply Hnot, last_arg_given. eauto.
Qed.

(** X10: [use_syscall_buffer] is on after every parse except that of a
    record command whose last option among [-n] and [-b] (or their long
    forms) is [-n]; no option of the other commands and no common option
    turns it off. *)
Theorem syscall_buffer_switch
    (K : constants) (argv : list string) (r : Z) (w : world) :
  parse_args K argv initial_world = Ret r w ->
  use_syscall_buffer (w_flags w) = false <->
  option_ (w_flags w) = RECORD
  /\ exists pre a post,
       record_options K argv = pre ++ ("n"%char, a) :: post
       /\ ~ given "b" post.
Proof.
  intros Hparse. apply parse_args_inv in Hparse as [Hp _].
  destruct (option_ (w_flags w)) eqn:Hcmd.
  1,3,4: rewrite (parsed_use_syscall_buffer K argv r _ Hp) by congruence;
         split; [discriminate | intros [H _]; discriminate].
  rewrite (parsed_record_flags K argv r _ Hp Hcmd) at 1.
  rewrite (fold_last_of_two use_syscall_buffer record_case
             (fun v => v = false) "n" "b").
  - split; [intros H; now split | now intros [_ H]].
  - discriminate.
  - reflexivity.
  - discriminate.
  - intros c a fl Hn Hb. by_char c; try reflexivity; now contradiction.
  - cbv beta. cbn [use_syscall_buffer set_option_].
    rewrite (after_common_keeps K argv use_syscall_buffer ltac:(case_frame)).
    discriminate.
Qed.

Lemma syscall_buffer_switch_witness :
  parse_args sample_constants sample_buffer_argv initial_world
    = Ret 7 sample_buffer_world
  /\ record_options sample_constants sample_buffer_argv
     = [("n"%char, None); ("b"%char, None)] ++ ("n"%char, None)
         :: [("c"%char, Some "9")]
  /\ use_syscall_buffer (w_flags sample_buffer_world) = false.
Proof.
  assert (Hparse : parse_args sample_constants sample_buffer_argv initial_world
                   = Ret 7 sample_buffer_world) by (vm_compute; reflexivity).
  assert (Hcmd : option_ (w_flags sample_buffer_world) = RECORD)
    by (vm_compute; reflexivity).
  assert (Hopts : record_options sample_constants sample_buffer_argv
                  = [("n"%char, None); ("b"%char, None)] ++ ("n"%char, None)
                      :: [("c"%char, Some "9")]) by (vm_compute; reflexivity).
  assert (Hnot : ~ given "b" [("c"%char, Some "9")]).
  { unfold given. cbn [map fst In]. intros [H|[]]. discriminate H. }
  split; [exact Hparse|]. split; [exact Hopts|].
  exact (proj2 (syscall_buffer_switch sample_constants sample_buffer_argv 7
                  sample_buffer_world Hparse)
           (conj Hcmd
              (ex_intro _ [("n"%char, None); ("b"%char, None)]
                 (ex_intro _ None
                    (ex_intro _ [("c"%char, Some "9")] (conj Hopts Hnot)))))).
Defined.

(** X11: after the parse of a replay command the debugger is not launched
    exactly when [-a] or [-s] was given; [dbgport] is the number of the
    last [-s], and -1 without one; the output is redirected unless [-q]
    was given. *)
Theorem replay_debugger_flags
    (K : constants) (argv : list string) (r : Z) (w : world) :
  parse_args K argv initial_world = Ret r w ->
  option_ (w_flags w) = REPLAY ->
  (dont_launch_debugger (w_flags w) = true <->
   given "a" (replay_options K argv) \/ given "s" (replay_options K argv))
  /\ (forall a, last_arg "s" (replay_options K argv) = Some a ->
        exists s, a = Some s /\ dbgport (w_flags w) = atoi s)
  /\ (~ given "s" (replay_options K argv) -> dbgport (w_flags w) = -1)
  /\ (redirect (w_flags w) = false <-> given "q" (replay_options K argv)).
Proof.
  intros Hparse Hcmd. apply parse_args_inv in Hparse as [Hp _].
  pose proof (parsed_replay_flags K argv r _ Hp Hcmd) as Hfl.
  assert (Hport : dbgport (w_flags w) =
            match last_arg "s" (replay_options K argv) with
            | Some a => atoi (cstr a)
            | None => -1
            end).
  { rewrite Hfl at 1.
    rewrite (fold_last_arg dbgport replay_case "s" (fun a => atoi (cstr a)))
      by (intros c a fl; by_char c; reflexivity).
    destruct (last_arg "s" (replay_options K argv)); [reflexivity|].
    cbn [dbgport set_option_].
    now rewrite (after_common_keeps K argv dbgport ltac:(case_frame)). }
  split; [|split; [|split]].
  - rewrite Hfl at 1.
    rewrite (fold_set_once dont_launch_debugger replay_case
               (fun c => Ascii.eqb c "a" || Ascii.eqb c "s"))
      by (intros c a fl; by_char c; reflexivity).
    cbn [dont_launch_debugger set_option_].
    rewrite (after_common_keeps K argv dont_launch_debugger ltac:(case_frame)).
    cbn [dont_launch_debugger set_defaults flags_zero
           set_suppress_performance_warnings set_use_syscall_buffer
           set_redirect set_dump_on set_dump_at set_dbgport set_checksum
           set_max_events set_max_rbc].
    rewrite orb_false_r, existsb_exists. unfold given. split.
    + intros (c & Hin & Hc). apply orb_true_iff in Hc as [Hc|Hc];
        apply Ascii.eqb_eq in Hc; subst c; auto.
    + intros [H|H]; eexists; (split; [exact H | reflexivity]).
  - intros a Ha. rewrite Hport, Ha.
    destruct (replay_options_optarg K argv "s" a) as [s ->];
      [cbn; auto 10 | now apply last_arg_in | now exists s].
  - intros Hnot. now rewrite Hport, (last_arg_not_given _ _ Hnot).
  - rewrite Hfl at 1.
    rewrite (fold_last_arg redirect replay_case "q" (fun _ => false))
      by (intros c a fl; by_char c; reflexivity).
    rewrite last_arg_given.
    destruct (last_arg "q" (replay_options K argv)) as [a|].
    + split; eauto.
    + cbn [redirect set_option_].
      rewrite (after_common_keeps K argv redirect ltac:(case_frame)).
      split; [discriminate | intros [a H]; discriminate].
Qed.

Lemma replay_debugger_flags_witness :
  (parse_args sample_constants sample_replay_argv initial_world
     = Ret 13 sample_replay_world
   /\ option_ (w_flags sample_replay_world) = REPLAY)
  /\ map fst (replay_options sample_constants sample_replay_argv)
     = ["s"; "f"; "p"; "a"; "g"]%char
  /\ dont_launch_debugger (w_flags sample_replay_world) = true.
Proof.
  assert (Hparse : parse_args sample_constants sample_replay_argv initial_world
                   = Ret 13 sample_replay_world) by (vm_compute; reflexivity).
  assert (Hcmd : option_ (w_flags sample_replay_world) = REPLAY)
    by (vm_compute; reflexivity).
  assert (Hopts : map fst (replay_options sample_constants sample_replay_argv)
                  = ["s"; "f"; "p"; "a"; "g"]%char) by (vm_compute; reflexivity).
  assert (Hgiven : given "a" (replay_options sample_constants sample_replay_argv)).
  { unfold given. rewrite Hopts. cbn [In]. tauto. }
  split; [exact (conj Hparse Hcmd)|]. split; [exact Hopts|].
  exact (proj2 (proj1 (replay_debugger_flags sample_constants
                         sample_replay_argv 13 sample_replay_world
                         Hparse Hcmd))
           (or_introl Hgiven)).
Defined.

Lemma not_given_two (x y : ascii) (opts : list (ascii * option string)) :
  ~ given x opts -> ~ given y opts ->
  Forall (fun p => existsb (Ascii.eqb (fst p)) [x; y] = false) opts.
Proof.
  intros Hx Hy. apply not_given_forall.
  intros c [<-|[<-|[]]]; assumption.
Qed.

(** X12: of the replay options [-f] and [-p] the last one given decides
    both the target process and how it is created, and of [-a] and [-g]
    the last one given decides the target event; without them the members
    keep their zero values. *)
Theorem replay_last_option_wins
    (K : constants) (argv : list string) (r : Z) (w : world) :
  parse_args K argv initial_world = Ret r w ->
  option_ (w_flags w) = REPLAY ->
  (forall pre c a post,
     replay_options K argv = pre ++ (c, a) :: post ->
     c = "f"%char \/ c = "p"%char ->
     ~ given "f" post -> ~ given "p" post ->
     exists s, a = Some s
       /\ target_process (w_flags w) = atoi s
       /\ process_created_how (w_flags w) =
          if Ascii.eqb c "f" then CREATED_FORK else CREATED_EXEC)
  /\ (~ given "f" (replay_options K argv) ->
      ~ given "p" (replay_options K argv) ->
      target_process (w_flags w) = 0
      /\ process_created_how (w_flags w) = CREATED_NONE)
  /\ (forall pre a post,
        replay_options K argv = pre ++ ("g"%char, a) :: post ->
        ~ given "a" post -> ~ given "g" post ->
        exists s, a = Some s /\ goto_event (w_flags w) = GotoEvent (atoi s))
  /\ (forall pre a post,
        replay_options K argv = pre ++ ("a"%char, a) :: post ->
        ~ given "g" post -> goto_event (w_flags w) = GotoMax)
  /\ (~ given "a" (replay_options K argv) ->
      ~ given "g" (replay_options K argv) ->
      goto_event (w_flags w) = GotoEvent 0).
Proof.
  intros Hparse Hcmd. apply parse_args_inv in Hparse as [Hp _].
  pose proof (parsed_replay_flags K argv r _ Hp Hcmd) as Hfl.
  set (target := fun fl => (target_process fl, process_created_how fl)).
  assert (Htarget : forall c a f,
            existsb (Ascii.eqb c) ["f"; "p"]%char = false ->
            target (apply_case replay_case f (c, a)) = target f).
  { intros c a f H. by_char c; try reflexivity; cbn in H; discriminate H. }
  assert (Hgoto : forall c a f,
            existsb (Ascii.eqb c) ["a"; "g"]%char = false ->
            goto_event (apply_case replay_case f (c, a)) = goto_event f).
  { intros c a f H. by_char c; try reflexivity; cbn in H; discriminate H. }
  split; [|split; [|split; [|split]]].
  - intros pre c a post Hopts Hc Hf Hpost.
    destruct (replay_options_optarg K argv c a) as [s ->].
    { destruct Hc as [-> | ->]; cbn; auto 10. }
    { rewrite Hopts. apply in_or_app. right. now left. }
    exists s. split; [reflexivity|].
    assert (H : target (w_flags w) =
                (atoi s, if Ascii.eqb c "f" then CREATED_FORK else CREATED_EXEC)).
    { rewrite Hfl, Hopts.
      rewrite (fold_after_last target replay_case _ pre post (c, Some s) _
                 Htarget (not_given_two _ _ _ Hf Hpost)).
      destruct Hc as [-> | ->]; reflexivity. }
    unfold target in H. now injection H.
  - intros Hf Hpost.
    assert (H : target (w_flags w) = (0, CREATED_NONE)).
    { rewrite Hfl.
      rewrite (fold_untouched target replay_case _ _ Htarget
                 (not_given_two _ _ _ Hf Hpost)).
      unfold target. cbn [target_process process_created_how set_option_].
      rewrite (after_common_keeps K argv target_process ltac:(case_frame)).
      now rewrite (after_common_keeps K argv process_created_how
                     ltac:(case_frame)). }
    unfold target in H. now injection H.
  - intros pre a post Hopts Ha Hg.
    destruct (replay_options_optarg K argv "g" a) as [s ->].
    { cbn. auto 10. }
    { rewrite Hopts. apply in_or_app. right. now left. }
    exists s. split; [reflexivity|].
    rewrite Hfl, Hopts.
    now rewrite (fold_after_last goto_event replay_case _ pre post _ _
                   Hgoto (not_given_two _ _ _ Ha Hg)).
  - intros pre a post Hopts Hg.
    rewrite Hfl at 1.
    apply (fold_last_of_two goto_event replay_case
             (fun v => v = GotoMax) "a" "g").
    + discriminate.
    + reflexivity.
    + discriminate.
    + intros c a' fl Hca Hcg. by_char c; try reflexivity; now contradiction.
    + cbv beta. cbn [goto_event set_option_].
      rewrite (after_common_keeps K argv goto_event ltac:(case_frame)).
      discriminate.
    + now exists pre, a, post.
  - intros Ha Hg. rewrite Hfl.
    rewrite (fold_untouched goto_event replay_case _ _ Hgoto
               (not_given_two _ _ _ Ha Hg)).
    cbn [goto_event set_option_].
    now rewrite (after_common_keeps K argv goto_event ltac:(case_frame)).
Qed.

Lemma replay_last_option_wins_witness :
  (parse_args sample_constants sample_replay_argv initial_world
     = Ret 13 sample_replay_world
   /\ option_ (w_flags sample_replay_world) = REPLAY)
  /\ replay_options sample_constants sample_replay_argv
     = [("s"%char, Some "4000"); ("f"%char, Some "11")]
         ++ ("p"%char, Some "12")
         :: [("a"%char, None); ("g"%char, Some "50")]
  /\ exists s, Some "12" = Some s
       /\ target_process (w_flags sample_replay_world) = atoi s
       /\ process_created_how (w_flags sample_replay_world) = CREATED_EXEC.
Proof.
  assert (Hparse : parse_args sample_constants sample_replay_argv initial_world
                   = Ret 13 sample_replay_world) by (vm_compute; reflexivity).
  assert (Hcmd : option_ (w_flags sample_replay_world) = REPLAY)
    by (vm_compute; reflexivity).
  assert (Hopts : replay_options sample_constants sample_replay_argv
                  = [("s"%char, Some "4000"); ("f"%char, Some "11")]
                      ++ ("p"%char, Some "12")
                      :: [("a"%char, None); ("g"%char, Some "50")])
    by (vm_compute; reflexivity).
  assert (Hf : ~ given "f" [("a"%char, @None string); ("g"%char, Some "50")]).
  { unfold given. cbn [map fst In]. intros [H|[H|[]]]; discriminate H. }
  assert (Hpost : ~ given "p" [("a"%char, @None string); ("g"%char, Some "50")]).
  { unfold given. cbn [map fst In]. intros [H|[H|[]]]; discriminate H. }
  split; [exact (conj Hparse Hcmd)|]. split; [exact Hopts|].
  exact (proj1 (replay_last_option_wins sample_constants sample_replay_argv 13
                  sample_replay_world Hparse Hcmd)
           _ "p"%char (Some "12") _ Hopts (or_intror eq_refl) Hf Hpost).
Defined.

Section CommonFlags.

Variable K : constants.
Variable argv : list string.

(** A switch of the common options: only its option turns it on. *)
Lemma switch_of_common_options (field : flags -> bool) (x : ascii) (r : Z) (fl : flags) :
  parsed K argv r fl ->
  (forall v f, field (set_option_ v f) = field f) ->
  (forall c a f, field (apply_case record_case f (c, a)) = field f) ->
  (forall c a f, field (apply_case replay_case f (c, a)) = field f) ->
  (forall c a f, field (apply_case dump_case f (c, a)) = field f) ->
  (forall c a f, field (apply_case (common_case K) f (c, a)) =
                 if Ascii.eqb c x then true else field f) ->
  field (set_defaults K flags_zero) = false ->
  field fl = true <-> given x (common_options K argv).
Proof.
  intros Hp Hset Hrec Hrep Hdump Hcase Hzero.
  rewrite (parsed_keeps K argv field r fl Hp Hset Hrec Hrep Hdump).
  unfold after_common.
  rewrite (fold_last_arg field (common_case K) x (fun _ => true) Hcase).
  rewrite last_arg_given.
  destruct (last_arg x (common_options K argv)) as [a|].
  - split; eauto.
  - rewrite Hzero. split; [discriminate | intros [a H]; discriminate].
Qed.

(** A number of the common options: the argument of the last occurrence
    of its option, or the default. *)
Lemma number_of_common_options (field : flags -> Z) (x : ascii) (r : Z) (fl : flags) :
  parsed K argv r fl ->
  (forall v f, field (set_option_ v f) = field f) ->
  (forall c a f, field (apply_case record_case f (c, a)) = field f) ->
  (forall c a f, field (apply_case replay_case f (c, a)) = field f) ->
  (forall c a f, field (apply_case dump_case f (c, a)) = field f) ->
  (forall c a f, field (apply_case (common_case K) f (c, a)) =
                 if Ascii.eqb c x then atoi (cstr a) else field f) ->
  In x ["c"; "d"; "t"; "w"]%char ->
  (forall a, last_arg x (common_options K argv) = Some a ->
     exists s, a = Some s /\ field fl = atoi s)
  /\ (~ given x (common_options K argv) ->
      field fl = field (set_defaults K flags_zero)).
Proof.
  intros Hp Hset Hrec Hrep Hdump Hcase Hx.
  rewrite (parsed_keeps K argv field r fl Hp Hset Hrec Hrep Hdump).
  unfold after_common.
  rewrite (fold_last_arg field (common_case K) x (fun a => atoi (cstr a)) Hcase).
  split.
  - intros a Ha. rewrite Ha.
    destruct (common_options_arguments K argv x a) as [s ->];
      [exact Hx | now apply last_arg_in | now exists s].
  - intros Hnot. now rewrite (last_arg_not_given _ _ Hnot).
Qed.

End CommonFlags.

(** X13: the switches of the common options are on after the parse
    exactly when their option was given before the command word; the
    options after the command word, [-f] and [-s] of the replay command
    among them, do not touch them. *)
Theorem common_switches
    (K : constants) (argv : list string) (r : Z) (w : world) :
  parse_args K argv initial_world = Ret r w ->
  (force_enable_debugger (w_flags w) = true
   <-> given "f" (common_options K argv))
  /\ (check_cached_mmaps (w_flags w) = true
      <-> given "k" (common_options K argv))
  /\ (mark_stdio (w_flags w) = true <-> given "m" (common_options K argv))
  /\ (suppress_performance_warnings (w_flags w) = true
      <-> given "s" (common_options K argv))
  /\ (verbose (w_flags w) = true <-> given "v" (common_options K argv)).
Proof.
  intros Hparse. apply parse_args_inv in Hparse as [Hp _].
  repeat split;
    try (apply (switch_of_common_options K argv _ _ r _ Hp);
         [reflexivity | case_frame | case_frame | case_frame | case_frame
          | reflexivity]).
  all: apply (switch_of_common_options K argv _ _ r _ Hp);
    [reflexivity | case_frame | case_frame | case_frame | case_frame
     | reflexivity].
Qed.

Lemma common_switches_witness :
  parse_args sample_constants sample_replay_argv initial_world
    = Ret 13 sample_replay_world
  /\ map fst (common_options sample_constants sample_replay_argv)
     = ["f"; "s"; "w"]%char
  /\ force_enable_debugger (w_flags sample_replay_world) = true.
Proof.
  assert (Hparse : parse_args sample_constants sample_replay_argv initial_world
                   = Ret 13 sample_replay_world) by (vm_compute; reflexivity).
  assert (Hopts : map fst (common_options sample_constants sample_replay_argv)
                  = ["f"; "s"; "w"]%char) by (vm_compute; reflexivity).
  assert (Hgiven : given "f" (common_options sample_constants sample_replay_argv)).
  { unfold given. rewrite Hopts. cbn [In]. tauto. }
  split; [exact Hparse|]. split; [exact Hopts|].
  exact (proj2 (proj1 (common_switches sample_constants sample_replay_argv 13
                         sample_replay_world Hparse))
           Hgiven).
Defined.

(** X14: [dump_on], [dump_at] and [wait_secs] hold after the parse what
    [atoi] reads from the argument of the last [-d], [-t] and [-w] before
    the command word, and without the option [DUMP_ON_NONE],
    [DUMP_AT_NONE] and 0. *)
Theorem common_numbers
    (K : constants) (argv : list string) (r : Z) (w : world) :
  parse_args K argv initial_world = Ret r w ->
  ((forall a, last_arg "d" (common_options K argv) = Some a ->
      exists s, a = Some s /\ dump_on (w_flags w) = atoi s)
   /\ (~ given "d" (common_options K argv) ->
       dump_on (w_flags w) = DUMP_ON_NONE K))
  /\ ((forall a, last_arg "t" (common_options K argv) = Some a ->
         exists s, a = Some s /\ dump_at (w_flags w) = atoi s)
      /\ (~ given "t" (common_options K argv) ->
          dump_at (w_flags w) = DUMP_AT_NONE K))
  /\ ((forall a, last_arg "w" (common_options K argv) = Some a ->
         exists s, a = Some s /\ wait_secs (w_flags w) = atoi s)
      /\ (~ given "w" (common_options K argv) ->
          wait_secs (w_flags w) = 0)).
Proof.
  intros Hparse. apply parse_args_inv in Hparse as [Hp _].
  split; [|split].
  - apply (number_of_common_options K argv dump_on "d" r _ Hp);
      [reflexivity | case_frame | case_frame | case_frame | case_frame
       | cbn; auto 10].
  - apply (number_of_common_options K argv dump_at "t" r _ Hp);
      [reflexivity | case_frame | case_frame | case_frame | case_frame
       | cbn; auto 10].
  - apply (number_of_common_options K argv wait_secs "w" r _ Hp);
      [reflexivity | case_frame | case_frame | case_frame | case_frame
       | cbn; auto 10].
Qed.

Lemma common_numbers_witness :
  parse_args sample_constants sample_replay_argv initial_world
    = Ret 13 sample_replay_world
  /\ last_arg "w" (common_options sample_constants sample_replay_argv)
     = Some (Some "2")
  /\ exists s, Some "2" = Some s
       /\ wait_secs (w_flags sample_replay_world) = atoi s.
Proof.
  assert (Hparse : parse_args sample_constants sample_replay_argv initial_world
                   = Ret 13 sample_replay_world) by (vm_compute; reflexivity).
  assert (Hlast : last_arg "w"
                    (common_options sample_constants sample_replay_argv)
                  = Some (Some "2")) by (vm_compute; reflexivity).
  split; [exact Hparse|]. split; [exact Hlast|].
  exact (proj1 (proj2 (proj2 (common_numbers sample_constants
                                sample_replay_argv 13 sample_replay_world
                                Hparse)))
           (Some "2") Hlast).
Defined.

(** ** Where the scans of the options end *)

Section GetoptBounds.

Variable argv : list string.

Lemma short_opt_bounds (optstring : string) (c : ascii) (rest : string)
    (st st' : Getopt.state) (r : Getopt.ret) :
  (Getopt.optind st < List.length argv)%nat ->
  Getopt.short_opt argv optstring c rest st = (r, st') ->
  in_bounds argv st'
  /\ (Getopt.optind st <= Getopt.optind st')%nat
  /\ r <> Getopt.Done.
Proof.
  intros Hin. unfold Getopt.short_opt, in_bounds, Getopt.moved.
  destruct (Getopt.short_spec optstring c) as [[|]|].
  - destruct rest as [|x rest].
    + destruct (nth_error argv (S (Getopt.optind st))) as [a|] eqn:Hnext;
        intros H; injection H as <- <-; cbn [Getopt.optind Getopt.nextchar].
      * assert (S (Getopt.optind st) < List.length argv)%nat
          by (apply nth_error_Some; congruence).
        repeat split; try lia; try discriminate; congruence.
      * repeat split; try lia; try discriminate; congruence.
    + intros H; injection H as <- <-; cbn [Getopt.optind Getopt.nextchar].
      repeat split; try lia; try discriminate; congruence.
  - destruct rest as [|x rest];
      intros H; injection H as <- <-; cbn [Getopt.optind Getopt.nextchar];
      repeat split; try lia; try discriminate; congruence.
  - destruct rest as [|x rest];
      intros H; injection H as <- <-; cbn [Getopt.optind Getopt.nextchar];
      repeat split; try lia; try discriminate; congruence.
Qed.

Lemma long_opt_bounds (longopts : list Getopt.long_option) (text : string)
    (st st' : Getopt.state) (r : Getopt.ret) :
  (Getopt.optind st < List.length argv)%nat ->
  Getopt.long_opt argv longopts text st = (r, st') ->
  in_bounds argv st'
  /\ (Getopt.optind st <= Getopt.optind st')%nat
  /\ r <> Getopt.Done.
Proof.
  intros Hin. unfold Getopt.long_opt, in_bounds, Getopt.moved.
  destruct (Getopt.split_eq text) as [key value].
  destruct (Getopt.find_long longopts key) as [o|].
  - destruct value as [v|], (Getopt.has_arg o);
      [| |destruct (nth_error argv (S (Getopt.optind st))) as [a|] eqn:Hnext|];
      intros H; injection H as <- <-; cbn [Getopt.optind Getopt.nextchar];
      try (assert (S (Getopt.optind st) < List.length argv)%nat
             by (apply nth_error_Some; congruence));
      repeat split; try lia; try discriminate; congruence.
  - intros H; injection H as <- <-; cbn [Getopt.optind Getopt.nextchar].
    repeat split; try lia; try discriminate; congruence.
Qed.

(** A call that returns an option moves [optind] forward within
    [argv], from the state it read [first_nonopt] and [last_nonopt] in. *)
Lemma getopt_long_forward (optstring : string)
    (longopts : list Getopt.long_option) (st st' : Getopt.state) (c : ascii)
    (argv' : list string) :
  in_bounds argv st ->
  Getopt.getopt_long argv optstring longopts st = (Getopt.Opt c, st', argv') ->
  in_bounds argv st' /\ (Getopt.optind st <= Getopt.optind st')%nat
  /\ exists st0,
       ((st0 = st /\ Getopt.nextchar st <> "")
        \/ (st0 = Getopt.rational st /\ Getopt.nextchar st = ""))
       /\ Getopt.first_nonopt st' = Getopt.first_nonopt st0
       /\ Getopt.last_nonopt st' = Getopt.last_nonopt st0.
Proof.
  intros [Hle Hlt] Hcall.
  assert (Hin : (Getopt.optind st < List.length argv)%nat).
  { destruct (getopt_long_cases argv optstring longopts st)
      as [(x & rest & Hnext & Heq)
         | (Hnext & [[_ Heq] | [[_ Heq] | [(a & _ & _ & Heq)
                    | [(a1 & rest & Hnth & _) | (a1 & x & rest & Hnth & _)]]]])].
    - apply Hlt. now rewrite Hnext.
    - rewrite Heq in Hcall. discriminate.
    - rewrite Heq in Hcall. unfold Getopt.end_of_options in Hcall.
      destruct (_ && _); [|destruct (_ =? _)%nat]; discriminate.
    - rewrite Heq in Hcall. discriminate.
    - apply nth_error_Some. congruence.
    - apply nth_error_Some. congruence. }
  apply getopt_long_option in Hcall
    as (_ & st0 & Hst0 & [(x & rest & Hstep) | (text & Hstep)]).
  - assert (Hind : Getopt.optind st0 = Getopt.optind st)
      by (destruct Hst0 as [[-> _]|[-> _]]; reflexivity).
    pose proof (short_opt_keeps _ _ _ _ _ _ _ Hstep) as [Hf Hl].
    apply short_opt_bounds in Hstep as (Hb & Hmono & _); [|lia].
    split; [exact Hb|]. split; [lia|]. exists st0. now repeat split.
  - assert (Hind : Getopt.optind st0 = Getopt.optind st)
      by (destruct Hst0 as [[-> _]|[-> _]]; reflexivity).
    pose proof (long_opt_keeps _ _ _ _ _ _ Hstep) as [Hf Hl].
    apply long_opt_bounds in Hstep as (Hb & Hmono & _); [|lia].
    split; [exact Hb|]. split; [lia|]. exists st0. now repeat split.
Qed.

(** While an element is remembered as skipped, it stays so after an
    option. *)
Lemma getopt_long_skipped (optstring : string)
    (longopts : list Getopt.long_option) (st st' : Getopt.state) (c : ascii)
    (argv' : list string) (cmdi : nat) :
  skipped cmdi st -> in_bounds argv st ->
  Getopt.getopt_long argv optstring longopts st = (Getopt.Opt c, st', argv') ->
  skipped cmdi st'.
Proof.
  intros (Hfirst & Hpast & Hlast) Hin Hcall.
  apply getopt_long_forward in Hcall
    as (_ & Hmono & st0 & Hst0 & Hf & Hl); [|exact Hin].
  unfold skipped. rewrite Hf, Hl.
  destruct Hst0 as [[-> Hnext] | [-> _]].
  - destruct Hlast as [Hlast | (Hnone & _)]; [|contradiction].
    split; [exact Hfirst|]. split; [lia | now left].
  - cbn [Getopt.rational Getopt.first_nonopt Getopt.last_nonopt].
    split; [lia|]. split; [lia|]. left.
    destruct Hlast as [Hlast | (_ & Hind & Hle)]; lia.
Qed.

(** The last call of a scan with nothing skipped. *)
Lemma getopt_long_done_unskipped (optstring : string)
    (longopts : list Getopt.long_option) (st st' : Getopt.state)
    (argv' : list string) :
  unskipped st -> in_bounds argv st ->
  Getopt.getopt_long argv optstring longopts st = (Getopt.Done, st', argv') ->
  (Getopt.optind st <= Getopt.optind st' <= List.length argv)%nat
  /\ positional_at argv (Getopt.optind st')
  /\ (unskipped st'
      \/ (dashed argv st' /\ (Getopt.optind st < Getopt.optind st')%nat)).
Proof.
  unfold unskipped. intros Heq [Hle _].
  assert (Hrat : Getopt.rational st
                 = Getopt.mk_state (Getopt.optind st) (Getopt.nextchar st)
                     (Getopt.optarg st)
                     (Nat.min (Getopt.last_nonopt st) (Getopt.optind st))
                     (Nat.min (Getopt.last_nonopt st) (Getopt.optind st))).
  { unfold Getopt.rational. now rewrite Heq. }
  unfold positional_at.
  destruct (getopt_long_cases argv optstring longopts st)
    as [(x & rest & Hnext & ->)
       | (Hnext & [[Hnth ->] | [[Hnth ->] | [(a & Hnth & Hnon & ->)
                  | [(a1 & rest & Hnth & ->) | (a1 & x & rest & Hnth & ->)]]]])].
  - intros H. injection H as H _. now apply short_opt_option in H.
  - rewrite Hrat. unfold Getopt.end_of_scan, Getopt.moved.
    cbn [Getopt.first_nonopt Getopt.last_nonopt Getopt.optind].
    rewrite Nat.eqb_refl. intros H. injection H as <- _.
    cbn [Getopt.optind]. split; [lia|]. split; [now left|]. now left.
  - assert (Hin : (Getopt.optind st < List.length argv)%nat)
      by (apply nth_error_Some; congruence).
    rewrite Hrat. unfold Getopt.end_of_options, Getopt.end_of_scan.
    cbn [Getopt.first_nonopt Getopt.last_nonopt Getopt.optind].
    rewrite Nat.eqb_refl. cbn [negb andb].
    destruct (Nat.eqb_spec (S (Getopt.optind st)) (List.length argv)) as [He|Hne];
      intros H; injection H as <- _; unfold unskipped, dashed;
      cbn [Getopt.first_nonopt Getopt.last_nonopt Getopt.optind].
    + rewrite <- He. split; [lia|]. split; [right; right; eauto|]. now left.
    + split; [lia|]. split; [right; right; eauto|]. right.
      split; [|lia]. repeat split; try lia. eauto.
  - assert (Hin : (Getopt.optind st < List.length argv)%nat)
      by (apply nth_error_Some; congruence).
    rewrite Hrat. unfold Getopt.moved. intros H. injection H as <- _.
    unfold unskipped.
    cbn [Getopt.first_nonopt Getopt.last_nonopt Getopt.optind].
    split; [lia|]. split; [right; left; eauto|]. now left.
  - intros H. injection H as H _. now apply long_opt_option in H.
  - intros H. injection H as H _. now apply short_opt_option in H.
Qed.

(** The last call of a scan with the element at [cmdi] remembered as
    skipped: at the end of [argv] the scan goes back to that element; at
    ["--"] it moves the element behind the ["--"]. *)
Lemma getopt_long_done_skipped (optstring : string)
    (longopts : list Getopt.long_option) (st st' : Getopt.state)
    (argv' : list string) (cmdi : nat) :
  skipped cmdi st -> in_bounds argv st ->
  Getopt.getopt_long argv optstring longopts st = (Getopt.Done, st', argv') ->
  (nth_error argv (Getopt.optind st) = None
   /\ Getopt.optind st' = cmdi /\ argv' = argv)
  \/ ((exists a, nth_error argv (Getopt.optind st) = Some a
                 /\ Getopt.nonoption a = true)
      /\ Getopt.optind st' = Getopt.optind st /\ argv' = argv)
  \/ (nth_error argv (Getopt.optind st) = Some "--"
      /\ Getopt.optind st' = Getopt.optind st
      /\ argv' = Getopt.exchange argv cmdi (S cmdi) (S (Getopt.optind st))).
Proof.
  intros (Hfirst & Hpast & Hlast) [Hle _].
  assert (Hrat : Getopt.rational st
                 = Getopt.mk_state (Getopt.optind st) (Getopt.nextchar st)
                     (Getopt.optarg st) cmdi (S cmdi)).
  { unfold Getopt.rational. f_equal; [lia|].
    destruct Hlast as [Hlast | (_ & Hind & Hl)]; lia. }
  destruct (getopt_long_cases argv optstring longopts st)
    as [(x & rest & Hnext & ->)
       | (Hnext & [[Hnth ->] | [[Hnth ->] | [(a & Hnth & Hnon & ->)
                  | [(a1 & rest & Hnth & ->) | (a1 & x & rest & Hnth & ->)]]]])].
  - intros H. injection H as H _. now apply short_opt_option in H.
  - rewrite Hrat. unfold Getopt.end_of_scan, Getopt.moved.
    cbn [Getopt.first_nonopt Getopt.last_nonopt Getopt.optind].
    replace (cmdi =? S cmdi)%nat with false
      by (symmetry; apply Nat.eqb_neq; lia).
    intros H. injection H as <- <-. left. now repeat split.
  - assert (Hin : (Getopt.optind st < List.length argv)%nat)
      by (apply nth_error_Some; congruence).
    rewrite Hrat. unfold Getopt.end_of_options, Getopt.end_of_scan.
    cbn [Getopt.first_nonopt Getopt.last_nonopt Getopt.optind].
    replace (cmdi =? S cmdi)%nat with false
      by (symmetry; apply Nat.eqb_neq; lia).
    replace (S cmdi =? S (Getopt.optind st))%nat with false
      by (symmetry; apply Nat.eqb_neq; lia).
    cbn [negb andb].
    replace (cmdi + (S (Getopt.optind st) - S cmdi))%nat
      with (Getopt.optind st) by lia.
    replace (Getopt.optind st =? List.length argv)%nat with false
      by (symmetry; apply Nat.eqb_neq; lia).
    intros H. injection H as <- <-. right. right. now repeat split.
  - rewrite Hrat. unfold Getopt.moved. intros H. injection H as <- <-.
    right. left. split; [eauto|]. now split.
  - intros H. injection H as H _. now apply long_opt_option in H.
  - intros H. injection H as H _. now apply short_opt_option in H.
Qed.

Variable optstring : string.
Variable longopts : list Getopt.long_option.
Variable cases : ascii -> option string -> switch_case.

(** A scan with nothing skipped returns -1, or stops within [argv] where
    the positional arguments start. *)
Lemma scan_end_bounds (fuel : nat) :
  forall st r st',
    unskipped st -> in_bounds argv st ->
    scan_end fuel argv optstring longopts cases st = Some (r, st') ->
    r = -1
    \/ (r = Z.of_nat (Getopt.optind st')
        /\ (Getopt.optind st <= Getopt.optind st' <= List.length argv)%nat
        /\ Getopt.nextchar st' = ""
        /\ positional_at argv (Getopt.optind st')
        /\ (unskipped st'
            \/ (dashed argv st'
                /\ (Getopt.optind st < Getopt.optind st')%nat))).
Proof.
  induction fuel as [|fuel IH]; intros st r st' Hun Hin; cbn [scan_end];
    [discriminate|].
  destruct (Getopt.getopt_long argv optstring longopts st) as [[[|c] st1] argv']
    eqn:Hcall.
  - intros H; injection H as <- <-. right.
    destruct (getopt_long_done_unskipped _ _ _ _ _ Hun Hin Hcall)
      as (Hle & Hpos & Hcls).
    split; [reflexivity|]. split; [lia|]. split; [|now split].
    now apply getopt_long_done in Hcall.
  - destruct (getopt_long_forward _ _ _ _ _ _ Hin Hcall) as (Hin1 & Hmono & _).
    destruct (getopt_long_unmoved _ _ _ _ _ _ _ Hun Hcall) as [-> Hun1].
    destruct (cases c (Getopt.optarg st1)).
    + intros H. apply IH in H; [|apply Hun1; discriminate|exact Hin1].
      destruct H as [H | (H1 & H2 & H3 & H4 & H5)]; [now left | right].
      split; [exact H1|]. split; [lia|]. split; [exact H3|].
      split; [exact H4|]. destruct H5 as [H5 | [H5 H6]]; [now left | right].
      split; [exact H5 | lia].
    + intros H; injection H as <- <-. now left.
Qed.

(** A scan with the element at [cmdi] remembered as skipped returns -1,
    or the index and the array of [scan_left]. *)
Lemma scan_end_skipped (cmdi : nat) (fuel : nat) :
  forall st r st',
    skipped cmdi st -> in_bounds argv st ->
    scan_end fuel argv optstring longopts cases st = Some (r, st') ->
    r = -1
    \/ (r = Z.of_nat (Getopt.optind st')
        /\ (Getopt.optind st' <= List.length argv)%nat
        /\ ((Getopt.optind st' = cmdi
             /\ scan_argv fuel argv optstring longopts cases st = argv)
            \/ ((cmdi < Getopt.optind st')%nat
                /\ (exists a, nth_error argv (Getopt.optind st') = Some a
                              /\ Getopt.nonoption a = true)
                /\ scan_argv fuel argv optstring longopts cases st = argv)
            \/ ((cmdi < Getopt.optind st')%nat
                /\ nth_error argv (Getopt.optind st') = Some "--"
                /\ scan_argv fuel argv optstring longopts cases st
                   = Getopt.exchange argv cmdi (S cmdi)
                       (S (Getopt.optind st'))))).
Proof.
  induction fuel as [|fuel IH]; intros st r st' Hsk Hin;
    cbn [scan_end scan_argv]; [discriminate|].
  destruct (Getopt.getopt_long argv optstring longopts st) as [[[|c] st1] argv']
    eqn:Hcall.
  - intros H; injection H as <- <-. right. split; [reflexivity|].
    pose proof Hsk as (_ & Hpast & _). pose proof Hin as [Hle _].
    destruct (getopt_long_done_skipped _ _ _ _ _ _ Hsk Hin Hcall)
      as [(Hnth & Hind & ->) | [(Hnth & Hind & ->) | (Hnth & Hind & ->)]];
      rewrite Hind.
    + split; [lia|]. left. now split.
    + split; [lia|]. right. left. now repeat split.
    + split; [lia|]. right. right. now repeat split.
  - destruct (getopt_long_forward _ _ _ _ _ _ Hin Hcall) as (Hin1 & _ & _).
    pose proof (getopt_long_skipped _ _ _ _ _ _ _ Hsk Hin Hcall) as Hsk1.
    apply getopt_long_consumes in Hcall as [-> _].
    destruct (cases c (Getopt.optarg st1)).
    + intros H. now apply IH in H.
    + intros H; injection H as <- <-. now left.
Qed.

End GetoptBounds.

(** ** What parse_args returns *)

Section ParseResult.

Variable K : constants.
Variable argv : list string.

Lemma initial_in_bounds : argv <> [] -> in_bounds argv Getopt.initial.
Proof.
  intros Hne. unfold in_bounds. cbn. split; [|now intros H].
  destruct argv; [now contradiction Hne | cbn; lia].
Qed.

(** The index of the command word, when the common options are in order;
    the scan remembers a skipped element only when ["--"] ended it. *)
Lemma common_end_bounds (cmdi : Z) (st : Getopt.state) :
  common_end K argv = Some (cmdi, st) -> 0 <= cmdi < argc_of argv ->
  1 <= cmdi /\ Getopt.optind st = Z.to_nat cmdi /\ Getopt.nextchar st = ""
  /\ positional_at argv (Z.to_nat cmdi)
  /\ (unskipped st \/ (dashed argv st /\ 2 <= cmdi)).
Proof.
  intros Hend Hcmdi.
  assert (Hne : argv <> []).
  { intros ->. unfold argc_of in Hcmdi. cbn in Hcmdi. lia. }
  apply scan_end_bounds in Hend;
    [|reflexivity|now apply initial_in_bounds].
  destruct Hend as [-> | (-> & Hle & Hnext & Hpos & Hcls)]; [lia|].
  cbn [Getopt.optind Getopt.initial] in Hle.
  rewrite Nat2Z.id. repeat split; try assumption; try lia.
  destruct Hcls as [Hun | [Hdash Hlt]]; [now left | right].
  cbn [Getopt.optind Getopt.initial] in Hlt. split; [exact Hdash | lia].
Qed.

(** The array [parse_args] hands to the parser of a command is [argv]
    as it was. *)
Lemma common_argv :
  scan_argv (scan_fuel argv) argv "+c:d:fkmst:uvw:" common_opts
    (common_case K) Getopt.initial = argv.
Proof. now apply scan_argv_unmoved. Qed.

(** The scan of the options of a command. *)
Lemma command_end_bounds (optstring : string)
    (longopts : list Getopt.long_option)
    (cases : ascii -> option string -> switch_case)
    (cmdi r : Z) (st st' : Getopt.state) :
  common_end K argv = Some (cmdi, st) -> 0 <= cmdi < argc_of argv ->
  scan_end (scan_fuel argv) argv optstring longopts cases
    (set_optind (cmdi + 1) st) = Some (r, st') ->
  r = -1
  \/ (2 <= r <= argc_of argv /\ cmdi <= r
      /\ Getopt.optind st' = Z.to_nat r
      /\ scan_left argv (Z.to_nat cmdi) (Z.to_nat r)
           (scan_argv (scan_fuel argv) argv optstring longopts cases
              (set_optind (cmdi + 1) st))).
Proof.
  intros Hend Hcmdi Hscan.
  destruct (common_end_bounds cmdi st Hend Hcmdi)
    as (Hone & Hind & Hnext & _ & Hcls).
  assert (Hin : in_bounds argv (set_optind (cmdi + 1) st)).
  { unfold in_bounds, set_optind, Getopt.moved.
    cbn [Getopt.optind Getopt.nextchar].
    unfold argc_of in Hcmdi. split; [lia|]. intros H. now contradiction H. }
  assert (Hstart : Getopt.optind (set_optind (cmdi + 1) st)
                   = S (Z.to_nat cmdi)).
  { unfold set_optind, Getopt.moved. cbn [Getopt.optind]. lia. }
  unfold argc_of in *.
  destruct Hcls as [Hun | [(Hfirst & Hlast & Hless & j & Hj & Hdash) Htwo]].
  - pose proof (scan_argv_unmoved argv optstring longopts cases
                  (scan_fuel argv) (set_optind (cmdi + 1) st) Hun) as Hargv.
    apply scan_end_bounds in Hscan; [|exact Hun|exact Hin].
    destruct Hscan as [-> | (-> & Hle & _ & Hpos & _)]; [now left | right].
    rewrite Hstart in Hle. rewrite Nat2Z.id.
    repeat split; try assumption; try lia.
    left. rewrite Hargv. repeat split; [lia | assumption].
  - assert (Hsk : skipped (Z.to_nat cmdi) (set_optind (cmdi + 1) st)).
    { unfold skipped, set_optind, Getopt.moved.
      cbn [Getopt.first_nonopt Getopt.last_nonopt Getopt.optind
           Getopt.nextchar].
      split; [congruence|]. split; [lia|]. right.
      split; [assumption|]. split; lia. }
    assert (Hbefore : nth_error argv (Z.to_nat cmdi - 1) = Some "--").
    { rewrite <- Hind, Hj. now replace (S j - 1)%nat with j by lia. }
    apply (scan_end_skipped argv optstring longopts cases (Z.to_nat cmdi))
      in Hscan; [|exact Hsk|exact Hin].
    destruct Hscan as [-> | (-> & Hle & Hleft)]; [now left | right].
    rewrite Nat2Z.id.
    destruct Hleft as [(Hat & ->) | [(Hpast & Hnon & ->) | (Hpast & Hnth & ->)]].
    + repeat split; try lia. right. split; [assumption|]. left. now split.
    + repeat split; try lia. left. repeat split; [assumption|]. now right; left.
    + repeat split; try lia. right. split; [assumption|]. right. now repeat split.
Qed.

(** What [parse_args] returns and leaves behind. *)
Lemma parse_args_result (r : Z) (w : world) :
  parse_args K argv initial_world = Ret r w ->
  r = -1
  \/ (2 <= r <= argc_of argv
      /\ Getopt.optind (w_getopt w) = Z.to_nat r
      /\ w_events w = []
      /\ option_ (w_flags w) <> INVALID
      /\ exists cmdi st,
           common_end K argv = Some (cmdi, st) /\ 1 <= cmdi <= r
           /\ cmdi < argc_of argv
           /\ arg argv cmdi = command_word (option_ (w_flags w))
           /\ scan_left argv (Z.to_nat cmdi) (Z.to_nat r) (w_argv w)).
Proof.
  destruct (common_end_total K argv) as (cmdi & st & Hend).
  unfold parse_args, bind, modify_flags, run_parser, parse_common_args, ret, emit.
  cbn [initial_world w_flags w_getopt w_events].
  rewrite getopt_while_eq.
  fold (common_end K argv) (common_options K argv) (after_common K argv).
  rewrite Hend, common_argv. unfold get_argv.
  cbn [w_flags w_getopt w_events w_argv p_result p_flags p_getopt p_argv app].
  destruct (Z.gtb_spec 0 cmdi) as [Hneg|Hpos].
  { intros H; injection H as <- _. now left. }
  destruct ((0 =? cmdi) || (cmdi >=? argc_of argv)) eqn:Hcmd.
  { intros H; injection H as <- _. now left. }
  apply orb_false_iff in Hcmd as [Hzero Hless].
  apply Z.eqb_neq in Hzero. rewrite Z.geb_leb in Hless.
  apply Z.leb_gt in Hless.
  assert (Hcmdi : 0 <= cmdi < argc_of argv) by lia.
  assert (Hcommand : forall optstring longopts cases command r st' fl,
            scan_end (scan_fuel argv) argv optstring longopts cases
              (set_optind (cmdi + 1) st) = Some (r, st') ->
            command <> INVALID ->
            option_ fl = command ->
            arg argv cmdi = command_word command ->
            r = -1
            \/ (2 <= r <= argc_of argv
                /\ Getopt.optind st' = Z.to_nat r
                /\ @nil event = []
                /\ option_ fl <> INVALID
                /\ exists cmdi0 st0,
                     Some (cmdi, st) = Some (cmdi0, st0) /\ 1 <= cmdi0 <= r
                     /\ cmdi0 < argc_of argv
                     /\ arg argv cmdi0 = command_word (option_ fl)
                     /\ scan_left argv (Z.to_nat cmdi0) (Z.to_nat r)
                          (scan_argv (scan_fuel argv) argv optstring longopts
                             cases (set_optind (cmdi + 1) st)))).
  { intros optstring longopts cases command r' st' fl Hscan Hvalid Hfl Hword.
    apply (command_end_bounds _ _ _ cmdi r' st st' Hend Hcmdi) in Hscan.
    destruct Hscan as [-> | (Hrange & Hle & Hind & Hleft)]; [now left | right].
    repeat split; try assumption; try lia; try congruence.
    exists cmdi, st. split; [reflexivity|]. split; [lia|]. split; [lia|].
    split; [now rewrite Hfl | assumption]. }
  destruct (String.eqb_spec "record" (arg argv cmdi)) as [Hword|_].
  { unfold parse_record_args. cbn [w_flags w_getopt w_events].
    rewrite getopt_while_eq.
    destruct (scan_end _ _ _ _ _ _) as [[r' st']|] eqn:Hscan; [|discriminate].
    intros H. injection H as <- <-.
    cbn [w_flags w_getopt w_events w_argv p_result p_flags p_getopt p_argv].
    apply (Hcommand _ _ _ RECORD _ _ _ Hscan); [discriminate| |now symmetry].
    rewrite (fold_preserves option_ record_case); [reflexivity|].
    intros c a f. apply (record_case_frame c a f). }
  destruct (String.eqb_spec "replay" (arg argv cmdi)) as [Hword|_].
  { unfold parse_replay_args. cbn [w_flags w_getopt w_events].
    rewrite getopt_while_eq.
    destruct (scan_end _ _ _ _ _ _) as [[r' st']|] eqn:Hscan; [|discriminate].
    intros H. injection H as <- <-.
    cbn [w_flags w_getopt w_events w_argv p_result p_flags p_getopt p_argv].
    apply (Hcommand _ _ _ REPLAY _ _ _ Hscan); [discriminate| |now symmetry].
    rewrite (fold_preserves option_ replay_case); [reflexivity|].
    intros c a f. apply (replay_case_frame c a f). }
  destruct (String.eqb_spec "dump" (arg argv cmdi)) as [Hword|_].
  { unfold parse_dump_args. cbn [w_flags w_getopt w_events].
    rewrite getopt_while_eq.
    destruct (scan_end _ _ _ _ _ _) as [[r' st']|] eqn:Hscan; [|discriminate].
    intros H. injection H as <- <-.
    cbn [w_flags w_getopt w_events w_argv p_result p_flags p_getopt p_argv].
    apply (Hcommand _ _ _ DUMP_EVENTS _ _ _ Hscan);
      [discriminate| |now symmetry].
    rewrite (fold_preserves option_ dump_case); [reflexivity|].
    intros c a f. apply (dump_case_frame c a f). }
  destruct (String.eqb "help" (arg argv cmdi) || String.eqb "-h" (arg argv cmdi)
            || String.eqb "--help" (arg argv cmdi)).
  { intros H; injection H as <- _. now left. }
  intros H; injection H as <- _. now left.
Qed.

(** [parse_args] on a command line without a command word. *)
Lemma parse_args_no_command (cmdi : Z) (st : Getopt.state) :
  common_end K argv = Some (cmdi, st) -> argc_of argv <= cmdi ->
  parse_args K argv initial_world =
  Ret (-1) (mk_world (after_common K argv) st argv
              [Stderr (no_command_message argv)]).
Proof.
  intros Hend Hcmdi.
  unfold parse_args, bind, modify_flags, run_parser, parse_common_args, ret, emit.
  cbn [initial_world w_flags w_getopt w_events].
  rewrite getopt_while_eq.
  fold (common_end K argv) (common_options K argv) (after_common K argv).
  rewrite Hend, common_argv. unfold get_argv.
  cbn [w_flags w_getopt w_events w_argv p_result p_flags p_getopt p_argv app].
  assert (Hargc : 0 <= argc_of argv) by (unfold argc_of; lia).
  destruct (Z.gtb_spec 0 cmdi) as [Hneg|Hpos]; [lia|].
  replace (cmdi >=? argc_of argv) with true
    by (symmetry; rewrite Z.geb_leb; apply Z.leb_le; lia).
  rewrite orb_true_r. reflexivity.
Qed.

(** [parse_args] on a command line whose command word is none of the
    three commands. *)
Lemma parse_args_other_word (cmdi : Z) (st : Getopt.state) :
  common_end K argv = Some (cmdi, st) -> 0 < cmdi < argc_of argv ->
  is_command (arg argv cmdi) = false ->
  parse_args K argv initial_world =
  Ret (-1) (mk_world (after_common K argv) st argv
              (if is_help (arg argv cmdi) then []
               else [Stderr (unknown_command_message argv (arg argv cmdi))])).
Proof.
  intros Hend Hcmdi Hword.
  unfold parse_args, bind, modify_flags, run_parser, parse_common_args, ret, emit.
  cbn [initial_world w_flags w_getopt w_events].
  rewrite getopt_while_eq.
  fold (common_end K argv) (common_options K argv) (after_common K argv).
  rewrite Hend, common_argv. unfold get_argv.
  cbn [w_flags w_getopt w_events w_argv p_result p_flags p_getopt p_argv app].
  destruct (Z.gtb_spec 0 cmdi) as [Hneg|Hpos]; [lia|].
  replace (0 =? cmdi) with false by (symmetry; apply Z.eqb_neq; lia).
  replace (cmdi >=? argc_of argv) with false
    by (symmetry; rewrite Z.geb_leb; apply Z.leb_gt; lia).
  cbn [orb]. unfold is_command in Hword.
  apply orb_false_iff in Hword as [Hword Hdump].
  apply orb_false_iff in Hword as [Hrecord Hreplay].
  rewrite Hrecord, Hreplay, Hdump. unfold is_help.
  now destruct (String.eqb "help" (arg argv cmdi) || String.eqb "-h" (arg argv cmdi)
                || String.eqb "--help" (arg argv cmdi)).
Qed.

End ParseResult.

(** ** Runs of main *)

Section RunFacts.

Variable K : constants.
Variable env : environment.
Variable argv : list string.

(** A command line [parse_args] turns down. *)
Lemma run_rejected (r : Z) (w0 : world) :
  check_preload argv = false ->
  parse_args K argv initial_world = Ret r w0 ->
  rejected argv r (w_flags w0) = true ->
  run K env argv = Some (Exited 1, add_events w0 [Stderr usage]).
Proof.
  intros Hprobe Hparse Hrej. unfold run, main.
  fold (check_preload argv). rewrite Hprobe.
  rewrite bind_result, Hparse, bind_get_flags. cbv beta.
  fold (rejected argv r (w_flags w0)). rewrite Hrej.
  unfold print_usage. now rewrite bind_emit.
Qed.

(** A run in which a session starts. *)
Lemma run_session (t : termination) (w : world) :
  run K env argv = Some (t, w) -> started (w_events w) ->
  exists argi w0 early after,
    parse_args K argv initial_world = Ret argi w0
    /\ rejected argv argi (w_flags w0) = false
    /\ ~ unmet env (w_flags w0)
    /\ Forall is_early early
    /\ w_events w =
         early ++ binding (w_flags w0) ++ record_setup K (w_flags w0)
           ++ [Started (option_ (w_flags w0))
                 (skipn (Z.to_nat argi) (w_argv w0))]
           ++ after
    /\ (forall e, In e after -> exists items, e = Stdout items)
    /\ w_flags w = session_flags K env (w_flags w0)
    /\ (t = Exited 0 \/ t = Fatal).
Proof.
  intros Hrun Hstarted. apply run_inv in Hrun.
  destruct Hrun as
    [ Hprobe
    | argi w0 w Hparse Hrej Hflags Hevents
    | argi w0 w t Hparse Hrej Hflags Hearly Hunmet Ht
    | argi w0 w early Hparse Hrej Hmet Hflags Hbound Hfails Hearly Hevents
    | argi w0 w t early after Hparse Hrej Hmet Hbind Hearly Hevents Hafter
        Hflags Ht ].
  - exfalso. inversion Hstarted.
  - exfalso. apply parse_args_inv in Hparse as [_ Hmsgs].
    apply stderr_early in Hmsgs. rewrite Hevents in Hstarted.
    apply started_app in Hstarted as [H|H];
      [now apply early_not_started in H|].
    unfold started in H. rewrite Exists_cons, Exists_nil in H. cbn in H. tauto.
  - exfalso. now apply early_not_started in Hstarted.
  - exfalso. rewrite Hevents in Hstarted.
    apply started_app in Hstarted as [H|H];
      [now apply early_not_started in H|].
    unfold started in H. rewrite !Exists_cons, Exists_nil in H. cbn in H. tauto.
  - exists argi, w0, early, after. repeat split; try assumption.
    + intros e He. destruct (Hafter e He) as (items & -> & _). now exists items.
    + destruct Ht as [->|[-> _]]; auto.
Qed.

(** The one start among the events of such a run. *)
Lemma only_start (fl : flags) (early after : list event)
    (command c : rr_option) (args a : list string) :
  Forall is_early early ->
  (forall e, In e after -> exists items, e = Stdout items) ->
  In (Started c a)
    (early ++ binding fl ++ record_setup K fl ++ [Started command args]
       ++ after) ->
  c = command /\ a = args.
Proof.
  intros Hearly Hafter Hin.
  apply in_app_or in Hin as [Hin|Hin].
  { rewrite Forall_forall in Hearly. now apply Hearly in Hin. }
  apply in_app_or in Hin as [Hin|Hin].
  { unfold binding in Hin. destruct (cpu_unbound fl); [destruct Hin|].
    destruct Hin as [H|[]]. discriminate H. }
  apply in_app_or in Hin as [Hin|Hin].
  { apply record_setup_quiet in Hin as [Hin _]. now contradiction Hin. }
  destruct Hin as [H|Hin]; [injection H as <- <-; now split|].
  destruct (Hafter _ Hin) as (items & H). discriminate H.
Qed.

Lemma rejected_negative (r : Z) (fl : flags) :
  rejected argv r fl = false -> 0 <= r.
Proof.
  unfold rejected. intros H.
  apply orb_false_iff in H as [H _]. apply orb_false_iff in H as [H _].
  rewrite Z.gtb_ltb in H. apply Z.ltb_ge in H. exact H.
Qed.

End RunFacts.

(** X15: [parse_args] returns -1 or an index between 2 and [argc]; when
    it returns an index it has chosen one of the three commands and
    written nothing, and [optind] is that index.  So the test
    [argc < argi] of [main] never holds. *)
Theorem parse_args_index_in_bounds
    (K : constants) (argv : list string) (r : Z) (w : world) :
  parse_args K argv initial_world = Ret r w ->
  r = -1
  \/ (2 <= r <= argc_of argv
      /\ option_ (w_flags w) <> INVALID
      /\ w_events w = []
      /\ Z.of_nat (Getopt.optind (w_getopt w)) = r).
Proof.
  intros Hparse.
  destruct (parse_args_result K argv r w Hparse)
    as [-> | (Hr & Hind & Hev & Hcmd & _)]; [now left | right].
  repeat split; try assumption; lia.
Qed.

Lemma parse_args_index_in_bounds_witness :
  parse_args sample_constants sample_replay_argv initial_world
    = Ret 13 sample_replay_world
  /\ argc_of sample_replay_argv = 14
  /\ (13 = -1
      \/ (2 <= 13 <= argc_of sample_replay_argv
          /\ option_ (w_flags sample_replay_world) <> INVALID
          /\ w_events sample_replay_world = []
          /\ Z.of_nat (Getopt.optind (w_getopt sample_replay_world)) = 13)).
Proof.
  assert (Hparse : parse_args sample_constants sample_replay_argv initial_world
                   = Ret 13 sample_replay_world) by (vm_compute; reflexivity).
  split; [exact Hparse|]. split; [reflexivity|].
  exact (parse_args_index_in_bounds sample_constants sample_replay_argv 13
           sample_replay_world Hparse).
Defined.

(** X16: a command line on which the common options leave no word for
    the command ends with the message that a command must be specified,
    then the usage text, and exit status 1. *)
Theorem no_command_usage
    (K : constants) (env : environment) (argv : list string)
    (cmdi : Z) (st : Getopt.state) :
  common_end K argv = Some (cmdi, st) -> argc_of argv <= cmdi ->
  exists w,
    run K env argv = Some (Exited 1, w)
    /\ w_events w = [Stderr (no_command_message argv); Stderr usage]
    /\ w_flags w = after_common K argv.
Proof.
  intros Hend Hcmdi.
  pose proof (parse_args_no_command K argv cmdi st Hend Hcmdi) as Hparse.
  assert (Hprobe : check_preload argv = false).
  { destruct (check_preload argv) eqn:Hprobe; [exfalso | reflexivity].
    unfold check_preload in Hprobe.
    apply andb_true_iff in Hprobe as [Hargc Hword].
    rewrite Z.geb_leb in Hargc. apply Z.leb_le in Hargc.
    apply String.eqb_eq in Hword.
    assert (Hne : argv <> []).
    { intros ->. unfold argc_of in Hargc. cbn in Hargc. lia. }
    pose proof Hend as Hb.
    apply scan_end_bounds in Hb; [|reflexivity|now apply initial_in_bounds].
    destruct Hb as [-> | (-> & Hle & _ & _)]; [lia|].
    (* the first call of getopt_long stops at the word *)
    unfold common_end, scan_fuel in Hend. cbn [scan_end] in Hend.
    unfold Getopt.getopt_long in Hend.
    cbn [Getopt.initial Getopt.nextchar Getopt.optind Getopt.rational] in Hend.
    unfold arg in Hword. change (Z.to_nat 1) with 1%nat in Hword.
    destruct argv as [|a0 [|a1 rest]];
      [now contradiction Hne | unfold argc_of in Hargc; cbn in Hargc; lia|].
    cbn [nth] in Hword. subst a1. cbn [nth_error] in Hend.
    cbn in Hend. injection Hend as Hone _. unfold argc_of in Hcmdi.
    cbn [List.length] in Hcmdi. lia. }
  eexists. split; [|split].
  - apply (run_rejected K env argv _ _ Hprobe Hparse). reflexivity.
  - reflexivity.
  - reflexivity.
Qed.

Lemma no_command_usage_witness :
  (common_end sample_constants ["rr"; "-v"] = Some (2, Getopt.mk_state 2 "" None 1 1)
   /\ argc_of ["rr"; "-v"] <= 2)
  /\ exists w,
       run sample_constants sample_environment ["rr"; "-v"]
         = Some (Exited 1, w)
       /\ w_events w =
          [Stderr (no_command_message ["rr"; "-v"]); Stderr usage]
       /\ w_flags w = after_common sample_constants ["rr"; "-v"].
Proof.
  assert (Hend : common_end sample_constants ["rr"; "-v"]
                 = Some (2, Getopt.mk_state 2 "" None 1 1))
    by (vm_compute; reflexivity).
  assert (Hargc : argc_of ["rr"; "-v"] <= 2) by (vm_compute; discriminate).
  split; [exact (conj Hend Hargc)|].
  exact (no_command_usage sample_constants sample_environment ["rr"; "-v"]
           2 _ Hend Hargc).
Defined.

(** X17: a command line whose command word is none of record, replay and
    dump ends with the usage text and exit status 1, and starts nothing;
    before the usage text comes the message that the command is unknown,
    unless the word is help, -h or --help. *)
Theorem other_word_usage
    (K : constants) (env : environment) (argv : list string)
    (cmdi : Z) (st : Getopt.state) :
  check_preload argv = false ->
  common_end K argv = Some (cmdi, st) -> 0 < cmdi < argc_of argv ->
  is_command (arg argv cmdi) = false ->
  exists w,
    run K env argv = Some (Exited 1, w)
    /\ w_events w =
       (if is_help (arg argv cmdi) then []
        else [Stderr (unknown_command_message argv (arg argv cmdi))])
       ++ [Stderr usage]
    /\ w_flags w = after_common K argv.
Proof.
  intros Hprobe Hend Hcmdi Hword.
  pose proof (parse_args_other_word K argv cmdi st Hend Hcmdi Hword) as Hparse.
  eexists. split; [|split].
  - apply (run_rejected K env argv _ _ Hprobe Hparse). reflexivity.
  - reflexivity.
  - reflexivity.
Qed.

Lemma other_word_usage_witness :
  (check_preload ["rr"; "-v"; "rceord"; "ls"] = false
   /\ common_end sample_constants ["rr"; "-v"; "rceord"; "ls"]
      = Some (2, Getopt.mk_state 2 "" None 1 1)
   /\ 0 < 2 < argc_of ["rr"; "-v"; "rceord"; "ls"]
   /\ is_command (arg ["rr"; "-v"; "rceord"; "ls"] 2) = false)
  /\ unknown_command_message ["rr"; "-v"; "rceord"; "ls"] "rceord"
     = ("rr: unknown command `rceord`" ++ newline)%string
  /\ exists w,
       run sample_constants sample_environment ["rr"; "-v"; "rceord"; "ls"]
         = Some (Exited 1, w)
       /\ w_events w =
          [Stderr (unknown_command_message ["rr"; "-v"; "rceord"; "ls"]
                     "rceord");
           Stderr usage]
       /\ w_flags w = after_common sample_constants
                        ["rr"; "-v"; "rceord"; "ls"].
Proof.
  assert (Hprobe : check_preload ["rr"; "-v"; "rceord"; "ls"] = false)
    by (vm_compute; reflexivity).
  assert (Hend : common_end sample_constants ["rr"; "-v"; "rceord"; "ls"]
                 = Some (2, Getopt.mk_state 2 "" None 1 1))
    by (vm_compute; reflexivity).
  assert (Hcmdi : 0 < 2 < argc_of ["rr"; "-v"; "rceord"; "ls"])
    by (vm_compute; split; reflexivity).
  assert (Hword : is_command (arg ["rr"; "-v"; "rceord"; "ls"] 2) = false)
    by (vm_compute; reflexivity).
  split; [exact (conj Hprobe (conj Hend (conj Hcmdi Hword)))|].
  split; [vm_compute; reflexivity|].
  exact (other_word_usage sample_constants sample_environment
           ["rr"; "-v"; "rceord"; "ls"] 2 _ Hprobe Hend Hcmdi Hword).
Defined.

(** X18: the exit statuses of [main].  The process exits with status 0
    only after it has started a session, with status 1 only right after
    the usage text, which follows nothing but messages, and with status
    [EX_CONFIG] only for the probe of the preload library, having done
    nothing; it exits with no other status, and a session is started in
    no other case than the first unless the process ends inside it. *)
Theorem main_exit_statuses
    (K : constants) (env : environment) (argv : list string)
    (t : termination) (w : world) :
  run K env argv = Some (t, w) ->
  match t with
  | Exited status =>
      (status = 0 /\ started (w_events w))
      \/ (status = 1 /\ ~ started (w_events w)
          /\ exists msgs, w_events w = msgs ++ [Stderr usage]
               /\ Forall is_stderr msgs)
      \/ (status = EX_CONFIG /\ w_events w = []
          /\ check_preload argv = true)
  | Fatal => True
  | Undefined => ~ started (w_events w)
  end.
Proof.
  intros Hrun. apply run_inv in Hrun.
  destruct Hrun as
    [ Hprobe
    | argi w0 w Hparse Hrej Hflags Hevents
    | argi w0 w t Hparse Hrej Hflags Hearly Hunmet Ht
    | argi w0 w early Hparse Hrej Hmet Hflags Hbound Hfails Hearly Hevents
    | argi w0 w t early after Hparse Hrej Hmet Hbind Hearly Hevents Hafter
        Hflags Ht ].
  - right. right. now repeat split.
  - right. left. apply parse_args_inv in Hparse as [_ Hmsgs].
    split; [reflexivity|]. split; [|now exists (w_events w0)].
    rewrite Hevents. intros H. apply started_app in H as [H|H].
    + now apply early_not_started in H; [|apply stderr_early].
    + unfold started in H. rewrite Exists_cons, Exists_nil in H.
      cbn in H. tauto.
  - destruct Ht as [-> | ->]; [exact I | now apply early_not_started].
  - exact I.
  - destruct Ht as [-> | [-> _]]; [|exact I].
    left. split; [reflexivity|]. rewrite Hevents.
    apply started_app. right. apply started_app. right.
    apply started_app. right. now constructor.
Qed.

Lemma main_exit_statuses_witness :
  run sample_constants sample_environment sample_replay_argv
    = Some (Exited 0,
            world_after_run sample_constants sample_environment
              sample_replay_argv)
  /\ ((0 = 0
       /\ started (w_events (world_after_run sample_constants
                               sample_environment sample_replay_argv)))
      \/ (0 = 1
          /\ ~ started (w_events (world_after_run sample_constants
                                    sample_environment sample_replay_argv))
          /\ exists msgs,
               w_events (world_after_run sample_constants sample_environment
                           sample_replay_argv) = msgs ++ [Stderr usage]
               /\ Forall is_stderr msgs)
      \/ (0 = EX_CONFIG
          /\ w_events (world_after_run sample_constants sample_environment
                         sample_replay_argv) = []
          /\ check_preload sample_replay_argv = true)).
Proof.
  assert (Hrun : run sample_constants sample_environment sample_replay_argv
                 = Some (Exited 0,
                         world_after_run sample_constants sample_environment
                           sample_replay_argv)) by (vm_compute; reflexivity).
  split; [exact Hrun|].
  exact (main_exit_statuses sample_constants sample_environment sample_replay_argv
           _ _ Hrun).
Defined.

(** The array from an index within it. *)
Lemma skipn_nth {A : Type} (l : list A) (n : nat) (d : A) :
  (n < List.length l)%nat -> skipn n l = nth n l d :: skipn (S n) l.
Proof.
  revert n. induction l as [|x l IH]; intros [|n] Hlt; cbn in *;
    try lia; [reflexivity|].
  apply IH. lia.
Qed.

(** After the exchange that moves the element at [c] behind the
    elements up to [j], the array from [j] on is that element and what
    followed [j]. *)
Lemma exchange_skipn (argv : list string) (c j : nat) :
  (c < j)%nat -> (j < List.length argv)%nat ->
  skipn j (Getopt.exchange argv c (S c) (S j))
  = nth c argv "" :: skipn (S j) argv.
Proof.
  intros Hc Hj. unfold Getopt.exchange.
  replace (S c - c)%nat with 1%nat by lia.
  rewrite (skipn_nth argv c "") by lia. cbn [firstn].
  rewrite app_assoc, skipn_app.
  assert (Hlen : List.length
                   (firstn c argv ++ firstn (S j - S c) (skipn (S c) argv))
                 = j).
  { rewrite List.length_app, !length_firstn, length_skipn. lia. }
  rewrite Hlen, Nat.sub_diag, skipn_all2 by lia. reflexivity.
Qed.

(** X19: the arguments of a session.  When [main] starts a session, the
    command is the one of the command word, at an index [cmdi], and the
    session gets the array [argv] from the index [argi] that [parse_args]
    returned, which lies within [argv].  Either that index is past the
    command word and the arguments are the command line from there on,
    unchanged: the command line ends there, or holds there a word that
    is no option, or the index follows ["--"].  Or ["--"] ended the
    common options, just before the command word, and the arguments
    start with the command word itself: it is followed by the rest of
    the command line, options of the command included, when only options
    follow it ([argi] is [cmdi]), and by what follows the ["--"] at
    [argi] when the options of the command end with ["--"].  Only the
    replay command starts without an argument. *)
Theorem session_arguments
    (K : constants) (env : environment) (argv : list string)
    (t : termination) (w : world) (command : rr_option) (args : list string) :
  run K env argv = Some (t, w) ->
  In (Started command args) (w_events w) ->
  command = option_ (w_flags w)
  /\ exists argi cmdi,
       1 <= cmdi <= argi /\ argi <= argc_of argv
       /\ arg argv cmdi = command_word command
       /\ ((cmdi < argi
            /\ args = skipn (Z.to_nat argi) argv
            /\ positional_at argv (Z.to_nat argi))
           \/ (nth_error argv (Z.to_nat cmdi - 1) = Some "--"
               /\ (argi = cmdi \/ nth_error argv (Z.to_nat argi) = Some "--")
               /\ args = command_word command
                           :: skipn (S (Z.to_nat argi)) argv))
       /\ (args = [] -> command = REPLAY).
Proof.
  intros Hrun Hin.
  assert (Hstarted : started (w_events w)).
  { apply Exists_exists. eexists. split; [exact Hin | exact I]. }
  destruct (run_session K env argv t w Hrun Hstarted)
    as (argi & w0 & early & after & Hparse & Hrej & _ & Hearly & Hevents
        & Hafter & Hflags & _).
  rewrite Hevents in Hin.
  apply (only_start K _ _ _ _ _ _ _ Hearly Hafter) in Hin as [-> ->].
  split; [now rewrite Hflags, session_flags_option|].
  pose proof (rejected_negative argv _ _ Hrej) as Hpos.
  destruct (parse_args_result K argv argi w0 Hparse)
    as [-> | (Hr & _ & _ & _ & cmdi & st & _ & Hcmdi & Hless & Hword & Hleft)];
    [lia|].
  exists argi, cmdi. split; [lia|]. split; [lia|]. split; [exact Hword|].
  destruct Hleft as [(Hlt & -> & Hposl)
                    | (Hdash & [(Heq & ->) | (Hlt & Hnth & ->)])].
  - split; [left; repeat split; [lia | assumption]|].
    intros Hnil.
    assert (Hlen : argc_of argv <= argi).
    { apply (f_equal (@List.length string)) in Hnil.
      rewrite length_skipn in Hnil. cbn in Hnil. unfold argc_of. lia. }
    unfold rejected in Hrej.
    apply orb_false_iff in Hrej as [_ Hrej].
    apply andb_false_iff in Hrej as [Hrej|Hrej].
    + destruct (option_ (w_flags w0)); try discriminate. reflexivity.
    + apply Z.leb_gt in Hrej. lia.
  - assert (Hargs : skipn (Z.to_nat argi) argv
                    = command_word (option_ (w_flags w0))
                        :: skipn (S (Z.to_nat argi)) argv).
    { rewrite <- Hword. unfold arg. rewrite <- Heq. apply skipn_nth.
      unfold argc_of in Hless. lia. }
    rewrite Hargs. split; [|discriminate].
    right. split; [assumption|]. split; [left; lia | reflexivity].
  - assert (Hin : (Z.to_nat argi < List.length argv)%nat)
      by (apply nth_error_Some; congruence).
    rewrite exchange_skipn by lia.
    fold (arg argv cmdi). rewrite Hword. split; [|discriminate].
    right. split; [assumption|]. split; [now right | reflexivity].
Qed.

Lemma session_arguments_witness :
  ((run sample_constants sample_environment sample_record_argv
      = Some (Exited 0,
              world_after_run sample_constants sample_environment
                sample_record_argv)
    /\ In (Started RECORD ["ls"; "-l"])
         (w_events (world_after_run sample_constants sample_environment
                      sample_record_argv)))
   /\ RECORD = option_ (w_flags (world_after_run sample_constants
                                   sample_environment sample_record_argv))
   /\ exists argi cmdi,
        1 <= cmdi <= argi /\ argi <= argc_of sample_record_argv
        /\ arg sample_record_argv cmdi = command_word RECORD
        /\ ((cmdi < argi
             /\ ["ls"; "-l"] = skipn (Z.to_nat argi) sample_record_argv
             /\ positional_at sample_record_argv (Z.to_nat argi))
            \/ (nth_error sample_record_argv (Z.to_nat cmdi - 1) = Some "--"
                /\ (argi = cmdi
                    \/ nth_error sample_record_argv (Z.to_nat argi)
                       = Some "--")
                /\ ["ls"; "-l"]
                   = command_word RECORD
                       :: skipn (S (Z.to_nat argi)) sample_record_argv))
        /\ (["ls"; "-l"] = [] -> RECORD = REPLAY))
  /\ ((run sample_constants sample_environment sample_dashed_argv
         = Some (Exited 0,
                 world_after_run sample_constants sample_environment
                   sample_dashed_argv)
       /\ In (Started RECORD ["record"; "ls"; "-l"])
            (w_events (world_after_run sample_constants sample_environment
                         sample_dashed_argv)))
      /\ RECORD = option_ (w_flags (world_after_run sample_constants
                                      sample_environment sample_dashed_argv))
      /\ exists argi cmdi,
           1 <= cmdi <= argi /\ argi <= argc_of sample_dashed_argv
           /\ arg sample_dashed_argv cmdi = command_word RECORD
           /\ ((cmdi < argi
                /\ ["record"; "ls"; "-l"]
                   = skipn (Z.to_nat argi) sample_dashed_argv
                /\ positional_at sample_dashed_argv (Z.to_nat argi))
               \/ (nth_error sample_dashed_argv (Z.to_nat cmdi - 1)
                   = Some "--"
                   /\ (argi = cmdi
                       \/ nth_error sample_dashed_argv (Z.to_nat argi)
                          = Some "--")
                   /\ ["record"; "ls"; "-l"]
                      = command_word RECORD
                          :: skipn (S (Z.to_nat argi)) sample_dashed_argv))
           /\ (["record"; "ls"; "-l"] = [] -> RECORD = REPLAY)).
Proof.
  assert (Hrun : run sample_constants sample_environment sample_record_argv
                 = Some (Exited 0,
                         world_after_run sample_constants sample_environment
                           sample_record_argv)) by (vm_compute; reflexivity).
  assert (Hin : In (Started RECORD ["ls"; "-l"])
                  (w_events (world_after_run sample_constants
                               sample_environment sample_record_argv))).
  { vm_compute. tauto. }
  assert (Hrun' : run sample_constants sample_environment sample_dashed_argv
                  = Some (Exited 0,
                          world_after_run sample_constants sample_environment
                            sample_dashed_argv)) by (vm_compute; reflexivity).
  assert (Hin' : In (Started RECORD ["record"; "ls"; "-l"])
                   (w_events (world_after_run sample_constants
                                sample_environment sample_dashed_argv))).
  { vm_compute. tauto. }
  split.
  - split; [exact (conj Hrun Hin)|].
    exact (session_arguments sample_constants sample_environment
             sample_record_argv _ _ RECORD ["ls"; "-l"] Hrun Hin).
  - split; [exact (conj Hrun' Hin')|].
    exact (session_arguments sample_constants sample_environment
             sample_dashed_argv _ _ RECORD ["record"; "ls"; "-l"] Hrun' Hin').
Defined.

(** The index [parse_args] returns at the end of the command line.
    When that index is [argc], no word is left for the session, and
    [main] tells the commands apart: the replay command is accepted (the
    process does not end with the usage status, and when it exits with
    status 0 it has started the replay with no argument), while the
    record and dump commands print the usage text and the process exits
    with status 1 without starting a session. *)
Lemma index_at_end_of_command_line
    (K : constants) (env : environment) (argv : list string)
    (argi : Z) (w0 : world) :
  parse_args K argv initial_world = Ret argi w0 ->
  argi = argc_of argv ->
  match option_ (w_flags w0) with
  | REPLAY =>
      forall t w, run K env argv = Some (t, w) ->
        t <> Exited 1
        /\ (t = Exited 0 -> In (Started REPLAY []) (w_events w))
  | RECORD | DUMP_EVENTS =>
      exists w, run K env argv = Some (Exited 1, w)
        /\ w_events w = w_events w0 ++ [Stderr usage]
        /\ ~ started (w_events w)
  | INVALID => False
  end.
Proof.
  intros Hparse Hargi.
  assert (Hpos : 0 <= argi) by (subst argi; unfold argc_of; lia).
  assert (Hprobe : check_preload argv = false).
  { destruct (check_preload argv) eqn:H; [|reflexivity].
    pose proof (check_preload_no_command K argv argi w0 H Hparse). lia. }
  assert (Hrejected :
    rejected argv argi (w_flags w0)
    = negb (match option_ (w_flags w0) with REPLAY => true | _ => false end)).
  { unfold rejected. subst argi.
    destruct (Z.gtb_spec 0 (argc_of argv)); [lia|].
    rewrite Z.ltb_irrefl, Z.leb_refl. cbn [orb]. now rewrite andb_true_r. }
  destruct (parse_args_inv K argv argi w0 Hparse) as [Hparsed Hmsgs].
  apply stderr_early in Hmsgs.
  pose proof (parsed_option K argv argi _ Hparsed) as Hoption.
  destruct (run_outcome K env argv) as (t & w & Hrun & Hout).
  destruct (option_ (w_flags w0)) eqn:Hcommand; cbn [negb] in Hrejected.
  - destruct Hoption as [-> _]. lia.
  - (* record *)
    destruct Hout as
      [ Hprobe'
      | argi' w0' w Hparse' Hrej Hflags Hevents
      | argi' w0' w t Hparse' Hrej Hflags Hearly Hunmet Ht
      | argi' w0' w early Hparse' Hrej Hmet Hflags Hbound Hfails Hearly Hevents
      | argi' w0' w t early after Hparse' Hrej Hmet Hbind Hearly Hevents Hafter
          Hflags Ht ];
      try congruence;
      rewrite Hparse in Hparse'; injection Hparse' as <- <-; try congruence.
    exists w. split; [assumption|]. split; [assumption|].
    rewrite Hevents. apply early_not_started, Forall_app.
    split; [assumption | repeat constructor].
  - (* replay *)
    intros t' w' Hrun'. rewrite Hrun in Hrun'. injection Hrun' as <- <-.
    destruct Hout as
      [ Hprobe'
      | argi' w0' w Hparse' Hrej Hflags Hevents
      | argi' w0' w t Hparse' Hrej Hflags Hearly Hunmet Ht
      | argi' w0' w early Hparse' Hrej Hmet Hflags Hbound Hfails Hearly Hevents
      | argi' w0' w t early after Hparse' Hrej Hmet Hbind Hearly Hevents Hafter
          Hflags Ht ];
      try congruence;
      rewrite Hparse in Hparse'; injection Hparse' as <- <-; try congruence.
    + split; [destruct Ht; congruence | destruct Ht; congruence].
    + split; discriminate.
    + split; [destruct Ht as [->|[-> _]]; discriminate|].
      intros _. rewrite Hevents, Hcommand.
      replace (skipn (Z.to_nat argi) (w_argv w0)) with (@nil string).
      * apply in_or_app. right. apply in_or_app. right. apply in_or_app.
        right. now left.
      * destruct (parse_args_result K argv argi w0 Hparse)
          as [-> | (_ & _ & _ & _ & cmdi & st & _ & Hcmdi & Hless & _ & Hleft)];
          [lia|].
        unfold argc_of in *.
        destruct Hleft as [(_ & -> & _)
                          | (_ & [(Heq & _) | (_ & Hnth & _)])].
        -- subst argi. rewrite Nat2Z.id. symmetry. apply skipn_all.
        -- lia.
        -- assert (Z.to_nat argi < List.length argv)%nat
             by (apply nth_error_Some; congruence).
           lia.
  - (* dump *)
    destruct Hout as
      [ Hprobe'
      | argi' w0' w Hparse' Hrej Hflags Hevents
      | argi' w0' w t Hparse' Hrej Hflags Hearly Hunmet Ht
      | argi' w0' w early Hparse' Hrej Hmet Hflags Hbound Hfails Hearly Hevents
      | argi' w0' w t early after Hparse' Hrej Hmet Hbind Hearly Hevents Hafter
          Hflags Ht ];
      try congruence;
      rewrite Hparse in Hparse'; injection Hparse' as <- <-; try congruence.
    exists w. split; [assumption|]. split; [assumption|].
    rewrite Hevents. apply early_not_started, Forall_app.
    split; [assumption | repeat constructor].
Qed.

Lemma index_at_end_of_command_line_witness :
  (parse_args sample_constants ["rr"; "replay"; "-a"] initial_world
     = Ret 3 (world_after_parse sample_constants ["rr"; "replay"; "-a"])
   /\ run sample_constants sample_environment ["rr"; "replay"; "-a"]
      = Some (Exited 0,
              world_after_run sample_constants sample_environment
                ["rr"; "replay"; "-a"])
   /\ In (Started REPLAY [])
        (w_events (world_after_run sample_constants sample_environment
                     ["rr"; "replay"; "-a"])))
  /\ (parse_args sample_constants ["rr"; "record"; "-n"] initial_world
        = Ret 3 (world_after_parse sample_constants ["rr"; "record"; "-n"])
      /\ exists w,
           run sample_constants sample_environment ["rr"; "record"; "-n"]
             = Some (Exited 1, w)
           /\ w_events w = [Stderr usage]
           /\ ~ started (w_events w)).
Proof.
  assert (Hreplay :
    parse_args sample_constants ["rr"; "replay"; "-a"] initial_world
    = Ret 3 (world_after_parse sample_constants ["rr"; "replay"; "-a"]))
    by (vm_compute; reflexivity).
  assert (Hrecord :
    parse_args sample_constants ["rr"; "record"; "-n"] initial_world
    = Ret 3 (world_after_parse sample_constants ["rr"; "record"; "-n"]))
    by (vm_compute; reflexivity).
  assert (Hrun :
    run sample_constants sample_environment ["rr"; "replay"; "-a"]
    = Some (Exited 0,
            world_after_run sample_constants sample_environment
              ["rr"; "replay"; "-a"]))
    by (vm_compute; reflexivity).
  split.
  - split; [assumption|]. split; [assumption|].
    pose proof (index_at_end_of_command_line sample_constants sample_environment
                  ["rr"; "replay"; "-a"] 3 _ Hreplay eq_refl) as H.
    replace (option_ (w_flags (world_after_parse sample_constants
                                 ["rr"; "replay"; "-a"])))
      with REPLAY in H by (vm_compute; reflexivity).
    exact (proj2 (H _ _ Hrun) eq_refl).
  - split; [assumption|].
    pose proof (index_at_end_of_command_line sample_constants sample_environment
                  ["rr"; "record"; "-n"] 3 _ Hrecord eq_refl) as H.
    replace (option_ (w_flags (world_after_parse sample_constants
                                 ["rr"; "record"; "-n"])))
      with RECORD in H by (vm_compute; reflexivity).
    exact H.
Defined.

(** X20: on a kernel below 3.5 the only session that can start is a
    record with the syscall buffer switched off, on a kernel that is not
    below 3.4: the replay and dump commands never start there, since no
    option of theirs switches the buffer off. *)
Theorem old_kernel_sessions
    (K : constants) (env : environment) (argv : list string)
    (t : termination) (w : world) (major minor : Z) :
  run K env argv = Some (t, w) ->
  kernel_of env = Some (major, minor) -> linux_version major minor ->
  version_below major minor 3 5 ->
  started (w_events w) ->
  option_ (w_flags w) = RECORD
  /\ use_syscall_buffer (w_flags w) = false
  /\ ~ version_below major minor 3 4.
Proof.
  intros Hrun Hkernel Hlinux Hbelow Hstarted.
  destruct (run_session K env argv t w Hrun Hstarted)
    as (argi & w0 & early & after & Hparse & Hrej & Hmet & _ & _ & _
        & Hflags & _).
  apply parse_args_inv in Hparse as [Hp _].
  destruct (session_flags_members K env (w_flags w0)) as (_ & Hbuf & _).
  rewrite Hflags, session_flags_option, Hbuf.
  assert (Hoff : use_syscall_buffer (w_flags w0) = false).
  { destruct (use_syscall_buffer (w_flags w0)) eqn:Hon; [|reflexivity].
    exfalso. apply Hmet.
    exact (unmet_syscall_filtering env _ major minor Hkernel Hlinux Hon Hbelow). }
  split; [|split; [exact Hoff|]].
  - destruct (option_ (w_flags w0)) eqn:Hcmd; try reflexivity;
      rewrite (parsed_use_syscall_buffer K argv argi _ Hp) in Hoff
        by congruence; discriminate Hoff.
  - intros H4. apply Hmet.
    exact (unmet_ptrace_support env _ major minor Hkernel Hlinux H4).
Qed.

Lemma old_kernel_sessions_witness :
  (run sample_constants old_kernel_environment ["rr"; "record"; "-n"; "ls"]
     = Some (Exited 0,
             world_after_run sample_constants old_kernel_environment
               ["rr"; "record"; "-n"; "ls"])
   /\ kernel_of old_kernel_environment = Some (3, 4)
   /\ linux_version 3 4 /\ version_below 3 4 3 5
   /\ started (w_events (world_after_run sample_constants
                           old_kernel_environment
                           ["rr"; "record"; "-n"; "ls"])))
  /\ option_ (w_flags (world_after_run sample_constants old_kernel_environment
                         ["rr"; "record"; "-n"; "ls"])) = RECORD
  /\ use_syscall_buffer
       (w_flags (world_after_run sample_constants old_kernel_environment
                   ["rr"; "record"; "-n"; "ls"])) = false
  /\ ~ version_below 3 4 3 4.
Proof.
  assert (Hrun : run sample_constants old_kernel_environment
                   ["rr"; "record"; "-n"; "ls"]
                 = Some (Exited 0,
                         world_after_run sample_constants
                           old_kernel_environment
                           ["rr"; "record"; "-n"; "ls"]))
    by (vm_compute; reflexivity).
  assert (Hkernel : kernel_of old_kernel_environment = Some (3, 4))
    by (vm_compute; reflexivity).
  assert (Hlinux : linux_version 3 4) by (unfold linux_version; lia).
  assert (Hbelow : version_below 3 4 3 5) by (unfold version_below; lia).
  assert (Hstarted : started (w_events (world_after_run sample_constants
                                          old_kernel_environment
                                          ["rr"; "record"; "-n"; "ls"]))).
  { vm_compute. apply Exists_cons_tl, Exists_cons_tl, Exists_cons_hd. exact I. }
  split; [exact (conj Hrun (conj Hkernel (conj Hlinux (conj Hbelow Hstarted))))|].
  exact (old_kernel_sessions sample_constants old_kernel_environment
           ["rr"; "record"; "-n"; "ls"] _ _ 3 4
           Hrun Hkernel Hlinux Hbelow Hstarted).
Defined.

(** X21: the order of the effects of a run that succeeds.  When the
    command line is accepted, the prerequisites are met, the governor file
    is not unreadable, and the wait, the CPU binding and the session do
    not fail, the process exits with status 0 after, in this order: the
    warning about the governor (unless suppressed or not needed), the
    wait (if asked for), the binding to CPU 0 (unless unbound), for the
    record command the setting or unsetting of the syscall buffer
    variable, and the session, which for the dump command writes the dump.
    The session gets the array [argv] as [parse_args] left it, from the
    index [parse_args] returned.  The parse itself writes nothing. *)
Theorem successful_run
    (K : constants) (env : environment) (argv : list string)
    (argi : Z) (w0 : world) :
  parse_args K argv initial_world = Ret argi w0 ->
  rejected argv argi (w_flags w0) = false ->
  assert_prerequisites env w0 = Ret tt w0 ->
  (suppress_performance_warnings (w_flags w0) = false ->
   governor_file env <> Some None) ->
  (wait_secs (w_flags w0) > 0 -> nanosleep_fails env = false) ->
  (cpu_unbound (w_flags w0) = false -> sched_setaffinity_fails env = false) ->
  session_returns env (session_flags K env (w_flags w0))
    (arg (w_argv w0) 0) (skipn (Z.to_nat argi) (w_argv w0)) ->
  exists w,
    run K env argv = Some (Exited 0, w)
    /\ w_flags w = session_flags K env (w_flags w0)
    /\ w_events w =
       governor_events env (w_flags w0) ++ wait_events (w_flags w0)
         ++ binding (w_flags w0) ++ record_setup K (w_flags w0)
         ++ session_events env (w_flags w0)
              (skipn (Z.to_nat argi) (w_argv w0)).
Proof.
  intros Hparse Hrej Hpre Hgov Hwait Hcpu Hsession.
  assert (Hprobe : check_preload argv = false).
  { destruct (check_preload argv) eqn:Hprobe; [|reflexivity].
    rewrite (check_preload_no_command K argv argi w0 Hprobe Hparse) in Hrej.
    discriminate Hrej. }
  assert (Hquiet : w_events w0 = []).
  { pose proof (rejected_negative argv _ _ Hrej) as Hpos.
    destruct (parse_args_result K argv argi w0 Hparse)
      as [-> | (_ & _ & H & _)]; [lia | exact H]. }
  unfold run, main. fold (check_preload argv). rewrite Hprobe.
  rewrite bind_result, Hparse, bind_get_flags. cbv beta.
  fold (rejected argv argi (w_flags w0)). rewrite Hrej.
  rewrite bind_result, Hpre, bind_get_flags. cbv beta.
  (* the governor *)
  rewrite bind_result.
  assert (Hperf :
    (if negb (suppress_performance_warnings (w_flags w0))
     then check_performance_settings env else ret tt) w0
    = Ret tt (add_events w0 (governor_events env (w_flags w0)))).
  { unfold governor_events, check_performance_settings.
    destruct (suppress_performance_warnings (w_flags w0)) eqn:Hsup; cbn [negb].
    - now rewrite add_events_nil.
    - specialize (Hgov eq_refl).
      destruct (governor_file env) as [[content|]|].
      + cbv zeta. destruct (String.eqb "performance" _); cbn [negb].
        * now rewrite add_events_nil.
        * reflexivity.
      + now contradiction Hgov.
      + now rewrite add_events_nil. }
  rewrite Hperf. clear Hperf.
  (* the wait *)
  rewrite bind_result.
  assert (Hsleep :
    (if wait_secs (w_flags w0) >? 0
     then emit (Nanosleep (wait_secs (w_flags w0)));;
          (if nanosleep_fails env
           then FATAL "Failed to wait requested duration" else ret tt)
     else ret tt) (add_events w0 (governor_events env (w_flags w0)))
    = Ret tt (add_events w0 (governor_events env (w_flags w0)
                               ++ wait_events (w_flags w0)))).
  { unfold wait_events.
    destruct (Z.gtb_spec (wait_secs (w_flags w0)) 0) as [Hpos|Hle].
    - rewrite bind_emit, add_events_add, Hwait by lia. reflexivity.
    - now rewrite app_nil_r. }
  rewrite Hsleep. clear Hsleep.
  (* the CPU binding *)
  rewrite bind_result.
  assert (Hbind :
    (if negb (cpu_unbound (w_flags w0))
     then emit (SetAffinity 0);;
          (if sched_setaffinity_fails env
           then FATAL "Couldn't bind to CPU 0" else ret tt)
     else ret tt)
      (add_events w0 (governor_events env (w_flags w0)
                        ++ wait_events (w_flags w0)))
    = Ret tt (add_events w0 (governor_events env (w_flags w0)
                               ++ wait_events (w_flags w0)
                               ++ binding (w_flags w0)))).
  { unfold binding.
    destruct (cpu_unbound (w_flags w0)) eqn:Hunbound; cbn [negb].
    - now rewrite !app_nil_r.
    - rewrite bind_emit, add_events_add, Hcpu by reflexivity.
      now rewrite <- app_assoc. }
  rewrite Hbind. clear Hbind.
  (* the set-up of the record command *)
  rewrite bind_result.
  assert (Hsetup :
    match option_ (w_flags w0) with
    | RECORD =>
        (if use_syscall_buffer (w_flags w0)
         then emit (Setenv (SYSCALLBUF_ENABLED_ENV_VAR K) "1")
         else emit (Unsetenv (SYSCALLBUF_ENABLED_ENV_VAR K)));;
        modify_flags
          (set_syscall_buffer_lib_path (find_syscall_buffer_library K env))
    | _ => ret tt
    end (add_events w0 (governor_events env (w_flags w0)
                          ++ wait_events (w_flags w0)
                          ++ binding (w_flags w0)))
    = Ret tt (mk_world (session_flags K env (w_flags w0)) (w_getopt w0)
                (w_argv w0)
                (governor_events env (w_flags w0)
                   ++ wait_events (w_flags w0)
                   ++ binding (w_flags w0)
                   ++ record_setup K (w_flags w0)))).
  { unfold session_flags, record_setup, add_events. rewrite Hquiet.
    cbn [app].
    destruct (option_ (w_flags w0));
      try (rewrite app_nil_r; reflexivity).
    destruct (use_syscall_buffer (w_flags w0)); rewrite bind_emit;
      unfold modify_flags, add_events;
      cbn [w_flags w_getopt w_argv w_events];
      now rewrite <- !app_assoc. }
  rewrite Hsetup. clear Hsetup.
  (* the session *)
  rewrite bind_get_argv. cbn [w_argv].
  rewrite bind_result. unfold start. rewrite bind_get_flags. cbv beta.
  cbn [w_flags]. unfold session_returns in Hsession.
  rewrite session_flags_option in *.
  unfold session_events.
  destruct (session_flags_members K env (w_flags w0)) as (_ & _ & Hraw).
  destruct (option_ (w_flags w0)) eqn:Hcmd.
  - contradiction.
  - rewrite bind_emit. unfold add_events. cbn [w_flags w_getopt w_events].
    rewrite Hsession. eexists. split; [reflexivity|].
    split; [reflexivity|]. cbn [w_events]. now rewrite <- !app_assoc.
  - rewrite bind_emit. unfold add_events. cbn [w_flags w_getopt w_events].
    rewrite Hsession. eexists. split; [reflexivity|].
    split; [reflexivity|]. cbn [w_events]. now rewrite <- !app_assoc.
  - rewrite bind_emit. unfold add_events. cbn [w_flags w_getopt w_events].
    destruct (open_trace env (skipn (Z.to_nat argi) (w_argv w0))) as [trace|];
      [|now contradiction Hsession].
    unfold emit. cbn [w_flags w_getopt w_events].
    eexists. split; [reflexivity|].
    split; [reflexivity|]. cbn [w_events]. rewrite Hraw.
    now rewrite <- !app_assoc.
Qed.

Lemma successful_run_witness :
  ((parse_args sample_constants sample_replay_argv initial_world
      = Ret 13 sample_replay_world
    /\ rejected sample_replay_argv 13 (w_flags sample_replay_world) = false
    /\ assert_prerequisites sample_environment sample_replay_world
       = Ret tt sample_replay_world)
   /\ exists w,
        run sample_constants sample_environment sample_replay_argv
          = Some (Exited 0, w)
        /\ w_flags w = w_flags sample_replay_world
        /\ w_events w =
           [Nanosleep 2; SetAffinity 0; Started REPLAY ["trace_0"]])
  /\ ((parse_args sample_constants ["rr"; "--"; "replay"; "-a"] initial_world
         = Ret 2 (world_after_parse sample_constants
                    ["rr"; "--"; "replay"; "-a"])
       /\ rejected ["rr"; "--"; "replay"; "-a"] 2
            (w_flags (world_after_parse sample_constants
                        ["rr"; "--"; "replay"; "-a"])) = false)
      /\ exists w,
           run sample_constants sample_environment
             ["rr"; "--"; "replay"; "-a"] = Some (Exited 0, w)
           /\ w_events w = [SetAffinity 0; Started REPLAY ["replay"; "-a"]]).
Proof.
  assert (Hparse : parse_args sample_constants sample_replay_argv initial_world
                   = Ret 13 sample_replay_world) by (vm_compute; reflexivity).
  assert (Hrej : rejected sample_replay_argv 13 (w_flags sample_replay_world)
                 = false) by (vm_compute; reflexivity).
  assert (Hpre : assert_prerequisites sample_environment sample_replay_world
                 = Ret tt sample_replay_world) by (vm_compute; reflexivity).
  assert (Hgov : suppress_performance_warnings (w_flags sample_replay_world)
                 = false ->
                 governor_file sample_environment <> Some None)
    by (intros _; discriminate).
  assert (Hwait : wait_secs (w_flags sample_replay_world) > 0 ->
                  nanosleep_fails sample_environment = false)
    by (intros _; reflexivity).
  assert (Hcpu : cpu_unbound (w_flags sample_replay_world) = false ->
                 sched_setaffinity_fails sample_environment = false)
    by (intros _; reflexivity).
  assert (Hsession : session_returns sample_environment
                       (session_flags sample_constants sample_environment
                          (w_flags sample_replay_world))
                       (arg (w_argv sample_replay_world) 0)
                       (skipn (Z.to_nat 13) (w_argv sample_replay_world)))
    by (vm_compute; reflexivity).
  assert (Hparse' :
    parse_args sample_constants ["rr"; "--"; "replay"; "-a"] initial_world
    = Ret 2 (world_after_parse sample_constants ["rr"; "--"; "replay"; "-a"]))
    by (vm_compute; reflexivity).
  assert (Hrej' :
    rejected ["rr"; "--"; "replay"; "-a"] 2
      (w_flags (world_after_parse sample_constants
                  ["rr"; "--"; "replay"; "-a"])) = false)
    by (vm_compute; reflexivity).
  assert (Hpre' :
    assert_prerequisites sample_environment
      (world_after_parse sample_constants ["rr"; "--"; "replay"; "-a"])
    = Ret tt (world_after_parse sample_constants ["rr"; "--"; "replay"; "-a"]))
    by (vm_compute; reflexivity).
  assert (Hgov' :
    suppress_performance_warnings
      (w_flags (world_after_parse sample_constants
                  ["rr"; "--"; "replay"; "-a"])) = false ->
    governor_file sample_environment <> Some None)
    by (intros _; discriminate).
  assert (Hwait' :
    wait_secs (w_flags (world_after_parse sample_constants
                          ["rr"; "--"; "replay"; "-a"])) > 0 ->
    nanosleep_fails sample_environment = false)
    by (intros _; reflexivity).
  assert (Hcpu' :
    cpu_unbound (w_flags (world_after_parse sample_constants
                            ["rr"; "--"; "replay"; "-a"])) = false ->
    sched_setaffinity_fails sample_environment = false)
    by (intros _; reflexivity).
  assert (Hsession' :
    session_returns sample_environment
      (session_flags sample_constants sample_environment
         (w_flags (world_after_parse sample_constants
                     ["rr"; "--"; "replay"; "-a"])))
      (arg (w_argv (world_after_parse sample_constants
                      ["rr"; "--"; "replay"; "-a"])) 0)
      (skipn (Z.to_nat 2)
         (w_argv (world_after_parse sample_constants
                    ["rr"; "--"; "replay"; "-a"]))))
    by (vm_compute; reflexivity).
  split.
  - split; [exact (conj Hparse (conj Hrej Hpre))|].
    destruct (successful_run sample_constants sample_environment
                sample_replay_argv 13 sample_replay_world
                Hparse Hrej Hpre Hgov Hwait Hcpu Hsession)
      as (w & Hrun & Hflags & Hevents).
    exists w. split; [exact Hrun|]. split.
    + rewrite Hflags. vm_compute. reflexivity.
    + rewrite Hevents. vm_compute. reflexivity.
  - split; [exact (conj Hparse' Hrej')|].
    destruct (successful_run sample_constants sample_environment
                ["rr"; "--"; "replay"; "-a"] 2 _
                Hparse' Hrej' Hpre' Hgov' Hwait' Hcpu' Hsession')
      as (w & Hrun & _ & Hevents).
    exists w. split; [exact Hrun|].
    rewrite Hevents. vm_compute. reflexivity.
Defined.

(** X22: when the wait [-w] asks for fails, the process ends with the
    message about the wait, after the warning about the governor if there
    is one; the CPU is not bound and no session starts. *)
Theorem wait_failure
    (K : constants) (env : environment) (argv : list string)
    (argi : Z) (w0 : world) :
  parse_args K argv initial_world = Ret argi w0 ->
  rejected argv argi (w_flags w0) = false ->
  assert_prerequisites env w0 = Ret tt w0 ->
  (suppress_performance_warnings (w_flags w0) = false ->
   governor_file env <> Some None) ->
  wait_secs (w_flags w0) > 0 -> nanosleep_fails env = true ->
  exists w,
    run K env argv = Some (Fatal, w)
    /\ w_events w =
       governor_events env (w_flags w0)
         ++ [Nanosleep (wait_secs (w_flags w0));
             Stderr "Failed to wait requested duration"].
Proof.
  intros Hparse Hrej Hpre Hgov Hwait Hfails.
  assert (Hprobe : check_preload argv = false).
  { destruct (check_preload argv) eqn:Hprobe; [|reflexivity].
    rewrite (check_preload_no_command K argv argi w0 Hprobe Hparse) in Hrej.
    discriminate Hrej. }
  assert (Hquiet : w_events w0 = []).
  { pose proof (rejected_negative argv _ _ Hrej) as Hpos.
    destruct (parse_args_result K argv argi w0 Hparse)
      as [-> | (_ & _ & H & _)]; [lia | exact H]. }
  unfold run, main. fold (check_preload argv). rewrite Hprobe.
  rewrite bind_result, Hparse, bind_get_flags. cbv beta.
  fold (rejected argv argi (w_flags w0)). rewrite Hrej.
  rewrite bind_result, Hpre, bind_get_flags. cbv beta.
  rewrite bind_result.
  assert (Hperf :
    (if negb (suppress_performance_warnings (w_flags w0))
     then check_performance_settings env else ret tt) w0
    = Ret tt (add_events w0 (governor_events env (w_flags w0)))).
  { unfold governor_events, check_performance_settings.
    destruct (suppress_performance_warnings (w_flags w0)) eqn:Hsup; cbn [negb].
    - now rewrite add_events_nil.
    - specialize (Hgov eq_refl).
      destruct (governor_file env) as [[content|]|].
      + cbv zeta. destruct (String.eqb "performance" _); cbn [negb].
        * now rewrite add_events_nil.
        * reflexivity.
      + now contradiction Hgov.
      + now rewrite add_events_nil. }
  rewrite Hperf. clear Hperf.
  rewrite bind_result.
  replace (wait_secs (w_flags w0) >? 0) with true
    by (symmetry; rewrite Z.gtb_ltb; apply Z.ltb_lt; lia).
  rewrite bind_emit, add_events_add, Hfails, FATAL_result, add_events_add.
  eexists. split; [reflexivity|].
  unfold add_events. cbn [w_events]. rewrite Hquiet. cbn [app].
  now rewrite <- app_assoc.
Qed.

Lemma wait_failure_witness :
  (parse_args sample_constants sample_wait_argv initial_world
     = Ret 3 sample_wait_world
   /\ rejected sample_wait_argv 3 (w_flags sample_wait_world) = false
   /\ assert_prerequisites sleepless_environment sample_wait_world
      = Ret tt sample_wait_world
   /\ wait_secs (w_flags sample_wait_world) > 0
   /\ nanosleep_fails sleepless_environment = true)
  /\ exists w,
       run sample_constants sleepless_environment sample_wait_argv
         = Some (Fatal, w)
       /\ w_events w =
          [Stderr (governor_warning "ondemand"); Nanosleep 3;
           Stderr "Failed to wait requested duration"].
Proof.
  assert (Hparse : parse_args sample_constants sample_wait_argv initial_world
                   = Ret 3 sample_wait_world) by (vm_compute; reflexivity).
  assert (Hrej : rejected sample_wait_argv 3 (w_flags sample_wait_world)
                 = false) by (vm_compute; reflexivity).
  assert (Hpre : assert_prerequisites sleepless_environment sample_wait_world
                 = Ret tt sample_wait_world) by (vm_compute; reflexivity).
  assert (Hgov : suppress_performance_warnings (w_flags sample_wait_world)
                 = false ->
                 governor_file sleepless_environment <> Some None)
    by (intros _; discriminate).
  assert (Hwait : wait_secs (w_flags sample_wait_world) > 0)
    by (vm_compute; reflexivity).
  assert (Hfails : nanosleep_fails sleepless_environment = true)
    by reflexivity.
  split; [exact (conj Hparse (conj Hrej (conj Hpre (conj Hwait Hfails))))|].
  destruct (wait_failure sample_constants sleepless_environment
              sample_wait_argv 3 sample_wait_world
              Hparse Hrej Hpre Hgov Hwait Hfails)
    as (w & Hrun & Hevents).
  exists w. split; [exact Hrun|].
  rewrite Hevents. vm_compute. reflexivity.
Defined.

(** X23: with [-s] among the common options the governor file is not
    looked at: the run is the same whatever the state of that file. *)
Theorem suppressed_governor_check
    (K : constants) (env : environment) (argv : list string)
    (file : option (option string)) :
  given "s" (common_options K argv) ->
  run K (with_governor file env) argv = run K env argv.
Proof.
  intros Hgiven. unfold run. f_equal. unfold main.
  destruct ((argc_of argv >=? 2) && String.eqb "check-preload-lib" (arg argv 1));
    [reflexivity|].
  rewrite !bind_result.
  destruct (parse_args K argv initial_world) as [argi w0 | t w0 |] eqn:Hparse;
    [|reflexivity..].
  rewrite !bind_get_flags. cbv beta.
  destruct ((0 >? argi) || (argc_of argv <? argi)
            || negb match option_ (w_flags w0) with
                    | REPLAY => true
                    | _ => false
                    end && (argc_of argv <=? argi)); [reflexivity|].
  rewrite !bind_result.
  change (assert_prerequisites (with_governor file env))
    with (assert_prerequisites env).
  destruct (assert_prerequisites env w0) as [[] w1 | t w1 |] eqn:Hpre;
    [|reflexivity..].
  rewrite !bind_get_flags. cbv beta.
  assert (Hsame : w_flags w1 = w_flags w0).
  { pose proof (assert_prerequisites_cases env w0) as H.
    rewrite Hpre in H. now destruct H as [-> _]. }
  assert (Hsup : suppress_performance_warnings (w_flags w1) = true).
  { rewrite Hsame. apply parse_args_inv in Hparse as [Hp _].
    apply (switch_of_common_options K argv _ "s" argi _ Hp);
      [reflexivity | case_frame | case_frame | case_frame | case_frame
       | reflexivity | exact Hgiven]. }
  rewrite Hsup. cbn [negb]. reflexivity.
Qed.

Lemma suppressed_governor_check_witness :
  given "s" (common_options sample_constants sample_replay_argv)
  /\ run sample_constants (with_governor (Some None) sample_environment)
       sample_replay_argv
     = run sample_constants sample_environment sample_replay_argv.
Proof.
  assert (Hgiven : given "s" (common_options sample_constants
                                sample_replay_argv)).
  { unfold given. vm_compute. tauto. }
  split; [exact Hgiven|].
  exact (suppressed_governor_check sample_constants sample_environment
           sample_replay_argv (Some None) Hgiven).
Defined.

(** ** The path of the preload library *)

Section LibraryPath.

Lemma chop_filename_name (name : string) :
  no_slash name = true -> chop_filename name = "".
Proof.
  induction name as [|c r IH]; [reflexivity|]. cbn [no_slash chop_filename].
  intros H. apply andb_true_iff in H as [Hc Hr].
  rewrite (IH Hr). apply negb_true_iff in Hc. now rewrite Hc.
Qed.

Lemma chop_filename_path (dir name : string) :
  no_slash name = true ->
  chop_filename (dir ++ String "/" name) = (dir ++ "/")%string.
Proof.
  intros Hname. induction dir as [|c dir IH].
  - cbn [append chop_filename]. now rewrite (chop_filename_name name Hname).
  - cbn [append chop_filename]. rewrite IH.
    destruct dir; reflexivity.
Qed.

Lemma append_assoc (s1 s2 s3 : string) :
  ((s1 ++ s2) ++ s3)%string = (s1 ++ s2 ++ s3)%string.
Proof.
  induction s1 as [|c s1 IH]; [reflexivity|]. cbn. now rewrite IH.
Qed.

End LibraryPath.

(** X24: [find_syscall_buffer_library] looks for the preload library in
    the lib directory beside the directory of the executable: for the
    executable [dir/name] it answers [dir/../lib/] followed by the file
    name of the library when that file exists, and the bare file name
    otherwise; for an executable path without a directory it looks in
    [../lib/]. *)
Theorem library_beside_executable
    (K : constants) (env : environment) (dir name : string) :
  no_slash name = true ->
  (exe_path env = (dir ++ "/" ++ name)%string ->
   find_syscall_buffer_library K env =
   if file_exists env (dir ++ "/../lib/" ++ SYSCALLBUF_LIB_FILENAME K)%string
   then (dir ++ "/../lib/" ++ SYSCALLBUF_LIB_FILENAME K)%string
   else SYSCALLBUF_LIB_FILENAME K)
  /\ (exe_path env = name ->
      find_syscall_buffer_library K env =
      if file_exists env ("../lib/" ++ SYSCALLBUF_LIB_FILENAME K)%string
      then ("../lib/" ++ SYSCALLBUF_LIB_FILENAME K)%string
      else SYSCALLBUF_LIB_FILENAME K).
Proof.
  intros Hname. unfold find_syscall_buffer_library. split; intros ->.
  - change (dir ++ "/" ++ name)%string with (dir ++ String "/" name)%string.
    rewrite (chop_filename_path dir name Hname), append_assoc.
    change ("/" ++ "../lib/" ++ SYSCALLBUF_LIB_FILENAME K)%string
      with ("/../lib/" ++ SYSCALLBUF_LIB_FILENAME K)%string.
    now destruct (file_exists env _).
  - rewrite (chop_filename_name name Hname).
    change ("" ++ "../lib/" ++ SYSCALLBUF_LIB_FILENAME K)%string
      with ("../lib/" ++ SYSCALLBUF_LIB_FILENAME K)%string.
    now destruct (file_exists env _).
Qed.

Lemma library_beside_executable_witness :
  (no_slash "rr" = true
   /\ exe_path sample_environment = ("/usr/bin" ++ "/" ++ "rr")%string)
  /\ find_syscall_buffer_library sample_constants sample_environment
     = "/usr/bin/../lib/librrpreload.so".
Proof.
  assert (Hname : no_slash "rr" = true) by reflexivity.
  assert (Hpath : exe_path sample_environment
                  = ("/usr/bin" ++ "/" ++ "rr")%string) by reflexivity.
  split; [exact (conj Hname Hpath)|].
  exact (proj1 (library_beside_executable sample_constants sample_environment
                  "/usr/bin" "rr" Hname) Hpath).
Defined.

(** ** The usage text and the tables of options *)

(** X25: the four parsers and the usage text agree.  Every long option
    of a parser has its letter in the parser's [optstring] with the same
    requirement of an argument, every letter of an [optstring] has a long
    option, and the usage text shows each option with both forms, the long
    one followed by ['='] when it takes an argument. *)
Theorem options_documented :
  Forall (fun p =>
    Forall (fun o =>
      Getopt.short_spec (fst p) (Getopt.val o) = Some (Getopt.has_arg o)
      /\ contains (usage_entry o) usage = true) (snd p)
    /\ Forall (fun c => In c (map Getopt.val (snd p)))
         (option_letters (fst p))) parsers.
Proof.
  unfold parsers.
  repeat (apply Forall_cons; [split|]); try apply Forall_nil; cbn [fst snd].
  all: unfold common_opts, record_opts, replay_opts, dump_opts.
  all: repeat (apply Forall_cons; [|]); try apply Forall_nil.
  all: try (split; [reflexivity | vm_compute; reflexivity]).
  all: vm_compute; tauto.
Qed.
